(** * Inventory service: stock ledger, event publisher and RPC responders

    A shallow embedding of the TypeScript sources

      - src/inventory/inventory.service.ts     (InventoryService)
      - src/inventory/inventory.repository.ts  (InventoryRepository)
      - src/inventory/schemas/inventory.schema.ts
      - src/inventory/events/inventory.events.ts
      - src/rabbitmq/rabbitmq.service.ts       (RabbitMQService)
      - src/rabbitmq/rabbitmq.types.ts

    Modelling conventions.

    - Quantities are JavaScript numbers.  Where quantities are compared
      or passed on, they are integers ([Z]); the price is a rational and
      is only ever carried around.  What [deductStock] computes with [-]
      and [+] depends on binary64 rounding: it is embedded a second time
      over binary64 values ([DoubleService]), and what it stores and
      reports is stated there.
    - The Mongo collection is the list of its documents in insertion order;
      a document's position plays the role of its [_id].  [findOne] is the
      first document that matches the filter.
    - [async] methods are functions in a state-and-exception monad [M].
      Every method runs to completion before the next one starts; the
      callbacks of a [Promise.all] run one after the other in array order.
    - The broker is the environment.  Its behaviour is an oracle stored in
      the state: the outcome of the n-th call of [connect()] and of the n-th
      call of [channel.publish].  Statements quantify over every oracle.
    - Everything observable that the service does to the outside world is
      appended to a trace of effects.
    - The Mongoose schema is a parameter of [createItem]; the class
      validators of the DTOs run in the controller's pipe, before the
      service is entered, and are not part of it. *)

From Stdlib Require Import Floats.
From Stdlib Require Import ZArith String Ascii List Lia QArith.
From stdpp Require Import gmap strings list fin_maps pretty.
From Equations Require Import Equations.

Local Close Scope Q_scope.
Local Open Scope string_scope.
Local Open Scope Z_scope.
Local Open Scope list_scope.

(** ** Data model *)

(** src/inventory/schemas/inventory.schema.ts, class [Inventory]. *)
Module Inventory.
Record t := mk {
  productCode : string;
  name : string;
  description : string;
  quantity : Z;
  price : Q;
}.

(** Assignment to the [quantity] path of a document. *)
Definition set_quantity (q : Z) (d : t) : t :=
  {| productCode := productCode d;
     name := name d;
     description := description d;
     quantity := q;
     price := price d |}.
End Inventory.

(** A loaded Mongoose document: the position ([_id]) it was read from and
    its fields. *)
Definition Document : Type := nat * Inventory.t.

(** src/inventory/events/inventory.events.ts *)
Inductive InventoryEventType := STOCK_ADDED | STOCK_REDUCED | STOCK_UPDATED.

(** The string value of each member of the enum. *)
Definition InventoryEventType_value (t : InventoryEventType) : string :=
  match t with
  | STOCK_ADDED => "STOCK_ADDED"
  | STOCK_REDUCED => "STOCK_REDUCED"
  | STOCK_UPDATED => "STOCK_UPDATED"
  end.

Module StockUpdateEvent.
Record t := mk {
  eventType : InventoryEventType;
  productCode : string;
  previousQuantity : Z;
  newQuantity : Z;
  timestamp : Z;
  productName : option string;
}.
End StockUpdateEvent.

(** src/rabbitmq/rabbitmq.types.ts *)
Module RabbitMQQueues.
Definition STOCK_CHECK : string := "stock.check.requests".
Definition STOCK_DEDUCT : string := "stock.deduct.requests".
Definition ORDER_STOCK_DEDUCT : string := "ORDER_STOCK_DEDUCT".
Definition ORDER_STOCK_CHECK : string := "ORDER_STOCK_CHECK".
End RabbitMQQueues.

Module RabbitMQExchanges.
Definition INVENTORY : string := "inventory.exchange".
End RabbitMQExchanges.

(** src/rabbitmq/rabbitmq.service.ts, interface [StockCheckItem]. *)
Module StockCheckItem.
Record t := mk {
  productCode : string;
  quantity : Z;
}.
End StockCheckItem.

(** The object returned by [InventoryService.checkStock]. *)
Module CheckResult.
Record t := mk {
  available : bool;
  message : string;
  currentStock : Z;
}.
End CheckResult.

(** One element of [stockCheckResults] in the stock-check consumer:
    [{ productCode: item.productCode, ...result }]. *)
Module CheckDetail.
Record t := mk {
  productCode : string;
  available : bool;
  message : string;
  currentStock : Z;
}.
End CheckDetail.

(** [responseMessage] / [errorResponse] of the stock-check consumer. *)
Module StockCheckResponse.
Record t := mk {
  success : bool;
  message : string;
  availableStock : gmap string Z;
  details : list CheckDetail.t;
}.
End StockCheckResponse.

(** [response] / [errorResponse] of the stock-deduct consumer; the error
    response has no [deductions] key. *)
Module StockDeductResponse.
Record t := mk {
  success : bool;
  message : string;
  deductions : option (list StockCheckItem.t);
}.
End StockDeductResponse.

(** ** JavaScript numbers

    The fields [quantity], [previousQuantity] and [newQuantity] hold
    JavaScript numbers: IEEE-754 binary64 values.  Where a statement
    only compares two quantities or passes them on, the records above,
    with integers, are used.  Where it says what a subtraction or an
    addition yields, the records below are used: their quantities are
    binary64 values ([float]), and [-], [+] and [<] of the source are
    [PrimFloat.sub], [PrimFloat.add] and [PrimFloat.ltb]. *)
Module Doubles.

Module Inventory.
Record t := mk {
  productCode : string;
  name : string;
  description : string;
  quantity : float;
  price : float;
}.

(** Assignment to the [quantity] path of a document. *)
Definition set_quantity (q : float) (d : t) : t :=
  {| productCode := productCode d;
     name := name d;
     description := description d;
     quantity := q;
     price := price d |}.
End Inventory.

Module StockUpdateEvent.
Record t := mk {
  eventType : InventoryEventType;
  productCode : string;
  previousQuantity : float;
  newQuantity : float;
  timestamp : Z;
  productName : option string;
}.
End StockUpdateEvent.

End Doubles.

(** What is serialised with [JSON.stringify] and handed to the channel. *)
Inductive Message :=
| MStockEvent (e : StockUpdateEvent.t)
| MDoubleStockEvent (e : Doubles.StockUpdateEvent.t)
| MStockCheckResponse (r : StockCheckResponse.t)
| MStockDeductResponse (r : StockDeductResponse.t).

(** src/inventory/dtos/create-inventory.dto.ts; [productCode] is optional. *)
Module CreateInventoryDto.
Record t := mk {
  productCode : option string;
  name : string;
  description : string;
  quantity : Z;
  price : Q;
}.

(** [createDto.productCode = code] *)
Definition set_productCode (code : string) (dto : t) : t :=
  {| productCode := Some code;
     name := name dto;
     description := description dto;
     quantity := quantity dto;
     price := price dto |}.
End CreateInventoryDto.

(** ** Exceptions *)

Inductive Exn :=
| NotFoundException (msg : string)
| ConflictException (msg : string)
| Error (msg : string)
| TypeError (msg : string)
| ValidationError (msg : string)
| BrokerError (msg : string).

(** [error.message] *)
Definition Exn_message (e : Exn) : string :=
  match e with
  | NotFoundException m | ConflictException m | Error m
  | TypeError m | ValidationError m | BrokerError m => m
  end.

(** ** The environment and the trace *)

(** How one call of [RabbitMQService.connect] ends.  The method assigns
    [this.connection] and [this.channel] as it goes, so a failure after
    [createChannel] leaves both fields assigned. *)
Inductive ConnectOutcome :=
| ConnectRejected (e : Exn)        (* [connect(url)] throws *)
| CreateChannelRejected (e : Exn)  (* [createChannel()] throws *)
| SetupRejected (e : Exn)          (* a declaration, binding or consume throws *)
| Established.

Record Broker := mkBroker {
  connectOutcome : nat → ConnectOutcome;
  publishOutcome : nat → option Exn;  (* [Some e]: [channel.publish] throws [e] *)
}.

Inductive LogLevel := LInfo | LWarn | LError.

(** A delivery taken from a queue: parsed content, [properties.replyTo] and
    [properties.correlationId].  [JSON.parse] and the destructuring of
    [items] either yield the array of items or throw. *)
Inductive Content :=
| Malformed (e : Exn)
| Batch (items : list StockCheckItem.t).

Record Delivery := mkDelivery {
  content : Content;
  replyTo : string;
  correlationId : string;
}.

Inductive Effect :=
| EConnect (attempt : nat) (outcome : ConnectOutcome)
| EDelay (ms : Z)
| ECleanup (ch conn : option nat)
| EPublishCall (exchange routingKey : string) (message : Message)
| EChannelPublish (exchange routingKey : string) (body : Message)
                  (correlation : option string) (thrown : option Exn)
| EAck (msg : Delivery)
| ELog (level : LogLevel) (text : string).

(** ** State *)

Record State := mkState {
  ledger : list Inventory.t;     (* the inventory collection *)
  connection : option nat;       (* [this.connection] *)
  channel : option nat;          (* [this.channel] *)
  isConnecting : bool;           (* [this.isConnecting] *)
  now : Z;                       (* the clock read by [new Date()] *)
  connects : nat;                (* calls of [connect()] so far *)
  publishes : nat;               (* calls of [channel.publish] so far *)
  trace : list Effect;           (* oldest first *)
  broker : Broker;
}.

Definition set_ledger (l : list Inventory.t) (s : State) : State :=
  mkState l (connection s) (channel s) (isConnecting s) (now s)
          (connects s) (publishes s) (trace s) (broker s).

Definition set_handles (conn ch : option nat) (s : State) : State :=
  mkState (ledger s) conn ch (isConnecting s) (now s)
          (connects s) (publishes s) (trace s) (broker s).

Definition set_isConnecting (b : bool) (s : State) : State :=
  mkState (ledger s) (connection s) (channel s) b (now s)
          (connects s) (publishes s) (trace s) (broker s).

Definition set_now (t : Z) (s : State) : State :=
  mkState (ledger s) (connection s) (channel s) (isConnecting s) t
          (connects s) (publishes s) (trace s) (broker s).

Definition set_connects (n : nat) (s : State) : State :=
  mkState (ledger s) (connection s) (channel s) (isConnecting s) (now s)
          n (publishes s) (trace s) (broker s).

Definition set_publishes (n : nat) (s : State) : State :=
  mkState (ledger s) (connection s) (channel s) (isConnecting s) (now s)
          (connects s) n (trace s) (broker s).

Definition record (e : Effect) (s : State) : State :=
  mkState (ledger s) (connection s) (channel s) (isConnecting s) (now s)
          (connects s) (publishes s) (trace s ++ [e]) (broker s).

(** ** The monad of [async] methods *)

Inductive Result (A : Type) :=
| Ok (a : A)
| Throw (e : Exn).
Arguments Ok {A} a.
Arguments Throw {A} e.

Definition M (A : Type) : Type := State → Result A * State.

Definition ret {A} (a : A) : M A := λ s, (Ok a, s).

Definition bind {A B} (m : M A) (k : A → M B) : M B :=
  λ s, match m s with
       | (Ok a, s') => k a s'
       | (Throw e, s') => (Throw e, s')
       end.

Definition throw {A} (e : Exn) : M A := λ s, (Throw e, s).

(** [try { m } catch (error) { h error }] *)
Definition tryCatch {A} (m : M A) (h : Exn → M A) : M A :=
  λ s, match m s with
       | (Ok a, s') => (Ok a, s')
       | (Throw e, s') => h e s'
       end.

Definition gets {A} (f : State → A) : M A := λ s, (Ok (f s), s).
Definition modify (f : State → State) : M unit := λ s, (Ok tt, f s).

Declare Scope async_scope.
Delimit Scope async_scope with async.
Notation "x <- m ;; k" := (bind m (λ x, k))
  (at level 100, m at next level, right associativity) : async_scope.
Notation "m ;; k" := (bind m (λ _, k))
  (at level 100, right associativity) : async_scope.
Local Open Scope async_scope.

Definition emit (e : Effect) : M unit := modify (record e).
Definition log (level : LogLevel) (text : string) : M unit :=
  emit (ELog level text).

(** [String.prototype.toLowerCase] on ASCII text. *)
Definition toLowerCase_ascii (c : ascii) : ascii :=
  let n := N_of_ascii c in
  if ((65 <=? n) && (n <=? 90))%N then ascii_of_N (n + 32) else c.

Fixpoint toLowerCase (s : string) : string :=
  match s with
  | EmptyString => EmptyString
  | String c s' => String (toLowerCase_ascii c) (toLowerCase s')
  end.

(** [String.prototype.padStart(targetLength, padString)] for a pad string
    of one character: a string that is long enough comes back as it is. *)
Fixpoint repeatChar (n : nat) (c : ascii) : string :=
  match n with
  | O => EmptyString
  | S n' => String c (repeatChar n' c)
  end.

Definition padStart (targetLength : nat) (c : ascii) (s : string) : string :=
  repeatChar (targetLength - String.length s) c +:+ s.

(** ** The Mongoose model

    What [new inventoryModel(dto).save()] does with a DTO is decided by
    Mongoose and by the schema of the collection (casts, defaults,
    validators, indexes), not by the repository.  It is a parameter of
    [InventoryRepository.createItem]: given the documents already stored
    and a DTO, the document that is stored, or the error that is
    thrown. *)
Definition InventoryModel : Type :=
  list Inventory.t → CreateInventoryDto.t → Result Inventory.t.

(** ** RabbitMQService *)

Module RabbitMQService.

Definition maxRetries : nat := 5.
Definition retryDelay : Z := 5000.

(** [connect()]: takes the next outcome from the oracle.  Declaring the
    topology and registering the two consumers has no effect on the
    fields of the service. *)
Definition connect : M unit := λ s,
  let n := connects s in
  let o := connectOutcome (broker s) n in
  let s := record (EConnect n o) (set_connects (S n) s) in
  match o with
  | ConnectRejected e => (Throw e, s)
  | CreateChannelRejected e => (Throw e, set_handles (Some n) (channel s) s)
  | SetupRejected e => (Throw e, set_handles (Some n) (Some n) s)
  | Established => (Ok tt, set_handles (Some n) (Some n) s)
  end.

(** [await new Promise((resolve) => setTimeout(resolve, ms))] *)
Definition sleep (ms : Z) : M unit :=
  modify (λ s, record (EDelay ms) (set_now (now s + ms) s)).

Equations? connectWithRetry (retryCount : nat) : M unit
  by wf (maxRetries - retryCount)%nat lt :=
connectWithRetry retryCount := λ s,
  if isConnecting s then (Ok tt, s)
  else
    match connect (set_isConnecting true s) with
    | (Ok _, s) =>
        (log LInfo "RabbitMQ connection established successfully" ;;
         modify (set_isConnecting false)) s
    | (Throw error, s) =>
        let s := record (ELog LError
                   ("Failed to connect to RabbitMQ (Attempt "
                      +:+ pretty (retryCount + 1)%nat +:+ "/"
                      +:+ pretty maxRetries +:+ ")")) s in
        match decide (retryCount < maxRetries)%nat with
        | left _ =>
            match sleep retryDelay (set_isConnecting false s) with
            | (_, s) => connectWithRetry (retryCount + 1)%nat s
            end
        | right _ =>
            (modify (set_isConnecting false) ;;
             log LError ("Failed to connect after " +:+ pretty maxRetries
                           +:+ " attempts")) s
        end
    end.
Proof. lia. Qed.

(** [cleanup()]: closes the channel and the connection when they are set.
    An error of either [close] is caught inside; the fields are not
    reset. *)
Definition cleanup : M unit := λ s,
  emit (ECleanup (channel s) (connection s)) s.

Definition handleReconnect : M unit :=
  tryCatch (cleanup ;; connectWithRetry 0)
           (λ error, log LError "Failed to reconnect to RabbitMQ").

(** [this.channel.publish(exchange, routingKey, Buffer.from(JSON...), options)] *)
Definition channelPublish (exchange routingKey : string) (body : Message)
    (correlation : option string) : M unit := λ s,
  match channel s with
  | None =>
      (Throw (TypeError "Cannot read properties of undefined (reading 'publish')"), s)
  | Some _ =>
      let n := publishes s in
      let o := publishOutcome (broker s) n in
      let s := record (EChannelPublish exchange routingKey body correlation o)
                      (set_publishes (S n) s) in
      match o with
      | Some e => (Throw e, s)
      | None => (Ok tt, s)
      end
  end.

(** [publish(exchange, routingKey, message)].  The first effect records
    the call itself, the way a test double of the service would. *)
Definition publish (exchange routingKey : string) (message : Message)
    : M unit :=
  emit (EPublishCall exchange routingKey message) ;;
  (ch <- gets channel ;;
   match ch with
   | None =>
       log LWarn "RabbitMQ channel not available, attempting to reconnect..." ;;
       connectWithRetry 0 ;;
       ch <- gets channel ;;
       match ch with
       | None => throw (Error "RabbitMQ channel is not initialized")
       | Some _ => ret tt
       end
   | Some _ => ret tt
   end) ;;
  tryCatch
    (channelPublish exchange routingKey message None ;;
     log LInfo ("Published message to " +:+ exchange
                  +:+ " with routing key " +:+ routingKey))
    (λ error,
       log LError ("Failed to publish message to " +:+ exchange) ;;
       handleReconnect ;;
       ch <- gets channel ;;
       match ch with
       | Some _ => channelPublish exchange routingKey message None
       | None => ret tt
       end).

Definition onModuleInit : M unit := connectWithRetry 0.

Definition onModuleDestroy : M unit := cleanup.

End RabbitMQService.

(** ** InventoryRepository *)

Module InventoryRepository.

(** [inventoryModel.findOne({ productCode })] *)
Definition findOne (productCode : string) (l : list Inventory.t)
    : option Document :=
  list_find (λ d, Inventory.productCode d = productCode) l.

Definition findItemById (productCode : string) : M (option Document) :=
  gets (λ s, findOne productCode (ledger s)).

(** [inventoryModel.findOneAndUpdate({ productCode }, { quantity },
    { new: true })]: sets the [quantity] path of the first match and
    returns the updated document.  Update validators are off by
    default, so the schema's [min: 0] is not consulted here. *)
Definition updateStock (productCode : string) (quantity : Z)
    : M (option Document) := λ s,
  match findOne productCode (ledger s) with
  | None => (Ok None, s)
  | Some (i, d) =>
      let d' := Inventory.set_quantity quantity d in
      (Ok (Some (i, d')), set_ledger (<[i := d']> (ledger s)) s)
  end.

(** [document.save()] after [quantity] was assigned: the schema
    validator [min: 0] of the modified path runs, then the document is
    written back under its [_id]. *)
Definition save (doc : Document) : M unit := λ s,
  let '(i, d) := doc in
  if Inventory.quantity d <? 0
  then (Throw (ValidationError "Inventory validation failed: quantity"), s)
  else (Ok tt, set_ledger (<[i := d]> (ledger s)) s).

(** [new this.inventoryModel(createItemDto).save()]: the model either
    refuses the document, and nothing is stored, or stores it at the end
    of the collection and returns it. *)
Definition createItem (model : InventoryModel)
    (createItemDto : CreateInventoryDto.t) : M Document := λ s,
  match model (ledger s) createItemDto with
  | Throw e => (Throw e, s)
  | Ok newItem =>
      (Ok (length (ledger s), newItem), set_ledger (ledger s ++ [newItem]) s)
  end.

End InventoryRepository.

(** ** InventoryService *)

Module InventoryService.

Definition publishStockUpdateEvent (event : StockUpdateEvent.t) : M unit :=
  let eventType := InventoryEventType_value (StockUpdateEvent.eventType event) in
  tryCatch
    (RabbitMQService.publish
       RabbitMQExchanges.INVENTORY
       ("inventory.stock." +:+ toLowerCase eventType)
       (MStockEvent event) ;;
     log LInfo ("Published " +:+ eventType +:+ " event for product "
                  +:+ StockUpdateEvent.productCode event))
    (λ error,
       log LError ("Failed to publish stock update event: "
                     +:+ Exn_message error) ;;
       throw error).

(** [generateProductCode()], as a function of the integer that
    [Math.floor(Math.random() * 1000000000)] yields. *)
Definition generateProductCode (randomNum : N) : string :=
  let prefix := "INV-" in
  prefix +:+ padStart 9 "0" (pretty randomNum).

(** [generateUniqueProductCode()].  The loop draws a new candidate until
    one is free; [samples] are the successive random integers.  [None]
    means that the loop is still running when the samples are used up. *)
Fixpoint generateUniqueProductCode (samples : list N) : M (option string) :=
  match samples with
  | [] => ret None
  | randomNum :: samples =>
      let productCode := generateProductCode randomNum in
      existingItem <- InventoryRepository.findItemById productCode ;;
      match existingItem with
      | None => ret (Some productCode)
      | Some _ => generateUniqueProductCode samples
      end
  end.

(** [createItem(createDto)]; [!createDto.productCode] holds for a missing
    and for an empty product code.  The result is [None] only when the
    code had to be generated and the samples ran out. *)
Definition createItem (model : InventoryModel) (samples : list N)
    (createDto : CreateInventoryDto.t) : M (option Document) :=
  productCode <-
    match CreateInventoryDto.productCode createDto with
    | Some (String c code) =>
        existingItem <- InventoryRepository.findItemById (String c code) ;;
        match existingItem with
        | Some _ =>
            throw (ConflictException "Item with this product code already exists")
        | None => ret (Some (String c code))
        end
    | _ => generateUniqueProductCode samples
    end ;;
  match productCode with
  | None => ret None
  | Some productCode =>
      let createDto := CreateInventoryDto.set_productCode productCode createDto in
      savedItem <- InventoryRepository.createItem model createDto ;;
      timestamp <- gets now ;;
      let stockEvent :=
        {| StockUpdateEvent.eventType := STOCK_ADDED;
           StockUpdateEvent.productCode := Inventory.productCode savedItem.2;
           StockUpdateEvent.previousQuantity := 0;
           StockUpdateEvent.newQuantity := Inventory.quantity savedItem.2;
           StockUpdateEvent.timestamp := timestamp;
           StockUpdateEvent.productName := Some (Inventory.name savedItem.2) |} in
      publishStockUpdateEvent stockEvent ;;
      log LInfo "Item created" ;;
      ret (Some savedItem)
  end.

Definition updateStock (productCode : string) (quantity : Z)
    : M (option Document) :=
  item <- InventoryRepository.findItemById productCode ;;
  match item with
  | None => throw (NotFoundException "Item not found")
  | Some (_, item) =>
      let previousQuantity := Inventory.quantity item in
      updatedItem <- InventoryRepository.updateStock productCode quantity ;;
      let eventType :=
        if quantity >? previousQuantity then STOCK_ADDED else STOCK_REDUCED in
      timestamp <- gets now ;;
      let stockEvent :=
        {| StockUpdateEvent.eventType := eventType;
           StockUpdateEvent.productCode := productCode;
           StockUpdateEvent.previousQuantity := previousQuantity;
           StockUpdateEvent.newQuantity := quantity;
           StockUpdateEvent.timestamp := timestamp;
           StockUpdateEvent.productName := Some (Inventory.name item) |} in
      publishStockUpdateEvent stockEvent ;;
      log LInfo ("Stock updated for item " +:+ Inventory.name item
                   +:+ ". New stock: " +:+ pretty quantity) ;;
      ret updatedItem
  end.

Definition getItem (productCode : string) : M Document :=
  item <- InventoryRepository.findItemById productCode ;;
  match item with
  | None => throw (NotFoundException "Item not found")
  | Some item =>
      log LInfo ("Fetched stock for item " +:+ Inventory.name item.2
                   +:+ ": " +:+ Inventory.productCode item.2) ;;
      ret item
  end.

Definition checkStock (productCode : string) (quantity : Z)
    : M CheckResult.t :=
  inventory <- InventoryRepository.findItemById productCode ;;
  match inventory with
  | None =>
      log LInfo ("Stock check failed: Product " +:+ productCode
                   +:+ " not found") ;;
      ret {| CheckResult.available := false;
             CheckResult.message := "Item not found in inventory";
             CheckResult.currentStock := 0 |}
  | Some (_, inventory) =>
      let available := Inventory.quantity inventory >=? quantity in
      ret {| CheckResult.available := available;
             CheckResult.message :=
               if available then "Stock available"
               else "Insufficient stock. Requested: " +:+ pretty quantity
                      +:+ ", Available: "
                      +:+ pretty (Inventory.quantity inventory);
             CheckResult.currentStock := Inventory.quantity inventory |}
  end.

(** The test [if (!inventory)] after [getItem] can never fire: [getItem]
    has already thrown for a missing item.  The quantities are integers
    here; [DoubleService.deductStock] is the same method on binary64
    values. *)
Definition deductStock (productCode : string) (quantity : Z) : M unit :=
  inventory <- getItem productCode ;;
  let '(id, fields) := inventory in
  if Inventory.quantity fields <? quantity then
    throw (Error ("Insufficient stock for " +:+ Inventory.name fields
                    +:+ ". Requested: " +:+ pretty quantity
                    +:+ ", Available: "
                    +:+ pretty (Inventory.quantity fields)))
  else
    let fields :=
      Inventory.set_quantity (Inventory.quantity fields - quantity) fields in
    InventoryRepository.save (id, fields) ;;
    timestamp <- gets now ;;
    let stockEvent :=
      {| StockUpdateEvent.eventType := STOCK_REDUCED;
         StockUpdateEvent.productCode := productCode;
         StockUpdateEvent.previousQuantity :=
           Inventory.quantity fields + quantity;
         StockUpdateEvent.newQuantity := Inventory.quantity fields;
         StockUpdateEvent.timestamp := timestamp;
         StockUpdateEvent.productName := Some (Inventory.name fields) |} in
    publishStockUpdateEvent stockEvent.

End InventoryService.

(** ** InventoryService.deductStock on JavaScript numbers

    [deductStock] and what it calls, once more, with the quantities as
    binary64 values.  The documents with such quantities are kept
    beside the state of the service, which supplies the transport, the
    clock and the trace; the service's own [ledger] field plays no part
    here. *)
Module DoubleService.
Import Doubles.

Record Store := mkStore {
  documents : list Inventory.t;  (* the inventory collection *)
  rest : State;                  (* handles, clock, counters, trace, broker *)
}.

Definition set_documents (l : list Inventory.t) (s : Store) : Store :=
  mkStore l (rest s).

(** The monad of [async] methods over a store. *)
Definition D (A : Type) : Type := Store → Result A * Store.

Definition retD {A} (a : A) : D A := λ s, (Ok a, s).

Definition bindD {A B} (m : D A) (k : A → D B) : D B :=
  λ s, match m s with
       | (Ok a, s') => k a s'
       | (Throw e, s') => (Throw e, s')
       end.

Definition throwD {A} (e : Exn) : D A := λ s, (Throw e, s).

Definition tryCatchD {A} (m : D A) (h : Exn → D A) : D A :=
  λ s, match m s with
       | (Ok a, s') => (Ok a, s')
       | (Throw e, s') => h e s'
       end.

Definition getsD {A} (f : Store → A) : D A := λ s, (Ok (f s), s).

(** A method of the service that does not look at the documents. *)
Definition lift {A} (m : M A) : D A :=
  λ s, let '(r, s') := m (rest s) in (r, mkStore (documents s) s').

Declare Scope double_scope.
Delimit Scope double_scope with double.
Notation "x <- m ;; k" := (bindD m (λ x, k))
  (at level 100, m at next level, right associativity) : double_scope.
Notation "m ;; k" := (bindD m (λ _, k))
  (at level 100, right associativity) : double_scope.
Local Open Scope double_scope.

Definition Document : Type := nat * Inventory.t.

(** [inventoryModel.findOne({ productCode })] *)
Definition findOne (productCode : string) (l : list Inventory.t)
    : option Document :=
  list_find (λ d, Inventory.productCode d = productCode) l.

Definition findItemById (productCode : string) : D (option Document) :=
  getsD (λ s, findOne productCode (documents s)).

(** [document.save()] after [quantity] was assigned, with the schema
    validator [min: 0] of the modified path. *)
Definition save (doc : Document) : D unit := λ s,
  let '(i, d) := doc in
  if PrimFloat.ltb (Inventory.quantity d) 0
  then (Throw (ValidationError "Inventory validation failed: quantity"), s)
  else (Ok tt, set_documents (<[i := d]> (documents s)) s).

Definition publishStockUpdateEvent (event : StockUpdateEvent.t) : D unit :=
  let eventType := InventoryEventType_value (StockUpdateEvent.eventType event) in
  tryCatchD
    (lift (RabbitMQService.publish
             RabbitMQExchanges.INVENTORY
             ("inventory.stock." +:+ toLowerCase eventType)
             (MDoubleStockEvent event)) ;;
     lift (log LInfo ("Published " +:+ eventType +:+ " event for product "
                        +:+ StockUpdateEvent.productCode event)))
    (λ error,
       lift (log LError ("Failed to publish stock update event: "
                           +:+ Exn_message error)) ;;
       throwD error).

Definition getItem (productCode : string) : D Document :=
  item <- findItemById productCode ;;
  match item with
  | None => throwD (NotFoundException "Item not found")
  | Some item =>
      lift (log LInfo ("Fetched stock for item " +:+ Inventory.name item.2
                         +:+ ": " +:+ Inventory.productCode item.2)) ;;
      retD item
  end.

(** [deductStock(productCode, quantity)].  [toString] is the conversion
    of a number to a string in a template literal; only the message of
    the insufficient-stock error uses it.  As before, the test
    [if (!inventory)] after [getItem] can never fire. *)
Definition deductStock (toString : float → string)
    (productCode : string) (quantity : float) : D unit :=
  inventory <- getItem productCode ;;
  let '(id, fields) := inventory in
  if PrimFloat.ltb (Inventory.quantity fields) quantity then
    throwD (Error ("Insufficient stock for " +:+ Inventory.name fields
                     +:+ ". Requested: " +:+ toString quantity
                     +:+ ", Available: "
                     +:+ toString (Inventory.quantity fields)))
  else
    let fields :=
      Inventory.set_quantity
        (PrimFloat.sub (Inventory.quantity fields) quantity) fields in
    save (id, fields) ;;
    timestamp <- getsD (λ s, now (rest s)) ;;
    let stockEvent :=
      {| StockUpdateEvent.eventType := STOCK_REDUCED;
         StockUpdateEvent.productCode := productCode;
         StockUpdateEvent.previousQuantity :=
           PrimFloat.add (Inventory.quantity fields) quantity;
         StockUpdateEvent.newQuantity := Inventory.quantity fields;
         StockUpdateEvent.timestamp := timestamp;
         StockUpdateEvent.productName := Some (Inventory.name fields) |} in
    publishStockUpdateEvent stockEvent.

End DoubleService.

(** ** The two consumers registered by [RabbitMQService.setupSubscriptions]

    They are methods of [RabbitMQService]; they come after
    [InventoryService] here because they call into it (the source ties
    the knot with [forwardRef]). *)

(** One element of [stockChecks] in the stock-deduct consumer:
    [{ ...item, available: check.available, currentStock: check.currentStock }]. *)
Module DeductCheck.
Record t := mk {
  productCode : string;
  quantity : Z;
  available : bool;
  currentStock : Z;
}.
End DeductCheck.

(** [Array.prototype.join] *)
Definition join (sep : string) (parts : list string) : string :=
  String.concat sep parts.

(** [await Promise.all(ps)]: every promise runs, in array order; the
    result is the list of values, or the first rejection. *)
Fixpoint promiseAll {A} (ps : list (M A)) : M (list A) :=
  match ps with
  | [] => ret []
  | p :: ps' => λ s,
      match p s with
      | (Ok a, s) =>
          match promiseAll ps' s with
          | (Ok l, s) => (Ok (a :: l), s)
          | (Throw e, s) => (Throw e, s)
          end
      | (Throw e, s) => (Throw e, (promiseAll ps' s).2)
      end
  end.

(** [acc[key] = value] on an object that was created by [{}] and holds
    numbers.  Every key becomes an own property of the object, with one
    exception: ["__proto__"] names the accessor of [Object.prototype],
    whose setter ignores a value that is not an object, so nothing is
    stored and the object serialises without that key. *)
Definition assign {V} (key : string) (value : V) (acc : gmap string V)
    : gmap string V :=
  if decide (key = "__proto__") then acc else <[key := value]> acc.

Module Consumers.

Definition stockCheckResponse (stockCheckResults : list CheckDetail.t)
    : StockCheckResponse.t :=
  {| StockCheckResponse.success :=
       forallb CheckDetail.available stockCheckResults;
     StockCheckResponse.message :=
       if forallb CheckDetail.available stockCheckResults
       then "All items in stock"
       else join "; "
              (map CheckDetail.message
                 (List.filter (λ result, negb (CheckDetail.available result))
                    stockCheckResults));
     StockCheckResponse.availableStock :=
       foldl (λ acc result,
                assign (CheckDetail.productCode result)
                       (CheckDetail.currentStock result) acc)
             ∅ stockCheckResults;
     StockCheckResponse.details := stockCheckResults |}.

(** Consumer of [ORDER_STOCK_CHECK]. *)
Definition onStockCheck (msg : option Delivery) : M unit :=
  match msg with
  | None => ret tt
  | Some msg =>
      tryCatch
        (match content msg with
         | Malformed e => throw e
         | Batch items =>
             stockCheckResults <-
               promiseAll
                 (map (λ item,
                         result <- InventoryService.checkStock
                                     (StockCheckItem.productCode item)
                                     (StockCheckItem.quantity item) ;;
                         ret {| CheckDetail.productCode :=
                                  StockCheckItem.productCode item;
                                CheckDetail.available :=
                                  CheckResult.available result;
                                CheckDetail.message :=
                                  CheckResult.message result;
                                CheckDetail.currentStock :=
                                  CheckResult.currentStock result |})
                      items) ;;
             RabbitMQService.channelPublish "" (replyTo msg)
               (MStockCheckResponse (stockCheckResponse stockCheckResults))
               (Some (correlationId msg)) ;;
             emit (EAck msg)
         end)
        (λ error,
           log LError "Error processing stock check request" ;;
           RabbitMQService.channelPublish "" (replyTo msg)
             (MStockCheckResponse
                {| StockCheckResponse.success := false;
                   StockCheckResponse.message := Exn_message error;
                   StockCheckResponse.availableStock := ∅;
                   StockCheckResponse.details := [] |})
             (Some (correlationId msg)) ;;
           emit (EAck msg))
  end.

(** Consumer of [ORDER_STOCK_DEDUCT]. *)
Definition onStockDeduct (msg : option Delivery) : M unit :=
  match msg with
  | None => ret tt
  | Some msg =>
      tryCatch
        (match content msg with
         | Malformed e => throw e
         | Batch items =>
             stockChecks <-
               promiseAll
                 (map (λ item,
                         check <- InventoryService.checkStock
                                    (StockCheckItem.productCode item)
                                    (StockCheckItem.quantity item) ;;
                         ret {| DeductCheck.productCode :=
                                  StockCheckItem.productCode item;
                                DeductCheck.quantity :=
                                  StockCheckItem.quantity item;
                                DeductCheck.available :=
                                  CheckResult.available check;
                                DeductCheck.currentStock :=
                                  CheckResult.currentStock check |})
                      items) ;;
             let allAvailable := forallb DeductCheck.available stockChecks in
             (if negb allAvailable
              then throw (Error "Some items are not available in requested quantity")
              else ret tt) ;;
             promiseAll
               (map (λ item,
                       InventoryService.deductStock
                         (StockCheckItem.productCode item)
                         (StockCheckItem.quantity item))
                    items) ;;
             RabbitMQService.channelPublish "" (replyTo msg)
               (MStockDeductResponse
                  {| StockDeductResponse.success := true;
                     StockDeductResponse.message := "Stock deducted successfully";
                     StockDeductResponse.deductions :=
                       Some (map (λ item,
                                    {| StockCheckItem.productCode :=
                                         StockCheckItem.productCode item;
                                       StockCheckItem.quantity :=
                                         StockCheckItem.quantity item |})
                                 items) |})
               (Some (correlationId msg)) ;;
             emit (EAck msg)
         end)
        (λ error,
           log LError "Error processing stock deduction" ;;
           RabbitMQService.channelPublish "" (replyTo msg)
             (MStockDeductResponse
                {| StockDeductResponse.success := false;
                   StockDeductResponse.message :=
                     if decide (Exn_message error = "")
                     then "Failed to deduct stock"
                     else Exn_message error;
                   StockDeductResponse.deductions := None |})
             (Some (correlationId msg)) ;;
           emit (EAck msg))
  end.

End Consumers.

(** ** Observations on a trace *)

(** The calls of [RabbitMQService.publish], in order. *)
Definition publishCalls (t : list Effect) : list (string * string * Message) :=
  omap (λ e, match e with
             | EPublishCall x k m => Some (x, k, m)
             | _ => None
             end) t.

(** The calls of [channel.publish], in order, each with what it threw. *)
Definition channelPublishes (t : list Effect)
    : list (string * string * Message * option string * option Exn) :=
  omap (λ e, match e with
             | EChannelPublish x k m c o => Some (x, k, m, c, o)
             | _ => None
             end) t.

(** The calls of [connect()], in order. *)
Definition connectAttempts (t : list Effect) : list ConnectOutcome :=
  omap (λ e, match e with EConnect _ o => Some o | _ => None end) t.

(** The delays slept through, in order. *)
Definition delays (t : list Effect) : list Z :=
  omap (λ e, match e with EDelay ms => Some ms | _ => None end) t.

(** The runs of [cleanup()], that is, of a reconnect. *)
Definition cleanups (t : list Effect) : nat :=
  length (omap (λ e, match e with ECleanup _ _ => Some tt | _ => None end) t).

(** The log lines written, in order. *)
Definition logLines (t : list Effect) : list (LogLevel * string) :=
  omap (λ e, match e with ELog l m => Some (l, m) | _ => None end) t.

(** ** Vocabulary of the statements *)

(** The effects a connection attempt can have: they publish nothing. *)
Definition connecting_effect (e : Effect) : Prop :=
  match e with
  | EConnect _ _ | EDelay _ | ELog _ _ => True
  | _ => False
  end.

(** What connecting may change: the handles, the flag, the clock and the
    count of attempts; it leaves the ledger alone, publishes nothing and
    never unsets the channel. *)
Record connecting (s s' : State) : Prop := mkConnecting {
  cg_ledger : ledger s' = ledger s;
  cg_publishes : publishes s' = publishes s;
  cg_broker : broker s' = broker s;
  cg_channel : is_Some (channel s) → is_Some (channel s');
  cg_trace : ∃ t, trace s' = trace s ++ t ∧ Forall connecting_effect t;
}.

(** What the transport may do on behalf of one publish: anything but
    touch the ledger or call [publish] again. *)
Record transporting (s s' : State) : Prop := mkTransporting {
  tp_ledger : ledger s' = ledger s;
  tp_broker : broker s' = broker s;
  tp_trace : ∃ t, trace s' = trace s ++ t ∧ publishCalls t = [];
}.

(** [steps R m]: running [m] moves the state along [R], whether it
    returns or throws. *)
Definition steps {A} (R : relation State) (m : M A) : Prop :=
  ∀ s, R s (m s).2.

(** The [try]/[catch] statement of [RabbitMQService.publish], on its
    own: what runs once a channel is at hand. *)
Definition publishAttempt (exchange routingKey : string) (message : Message)
    : M unit :=
  tryCatch
    (RabbitMQService.channelPublish exchange routingKey message None ;;
     log LInfo ("Published message to " +:+ exchange
                  +:+ " with routing key " +:+ routingKey))
    (λ error,
       log LError ("Failed to publish message to " +:+ exchange) ;;
       RabbitMQService.handleReconnect ;;
       ch <- gets channel ;;
       match ch with
       | Some _ => RabbitMQService.channelPublish exchange routingKey message None
       | None => ret tt
       end).

(** The routing key under which [publishStockUpdateEvent] publishes. *)
Definition routingKeyOf (event : StockUpdateEvent.t) : string :=
  "inventory.stock."
    +:+ toLowerCase (InventoryEventType_value (StockUpdateEvent.eventType event)).

(** The value [checkStock] computes from the ledger. *)
Definition stockCheckOf (l : list Inventory.t) (productCode : string)
    (quantity : Z) : CheckResult.t :=
  match InventoryRepository.findOne productCode l with
  | None =>
      {| CheckResult.available := false;
         CheckResult.message := "Item not found in inventory";
         CheckResult.currentStock := 0 |}
  | Some (_, d) =>
      {| CheckResult.available := bool_decide (Inventory.quantity d >= quantity);
         CheckResult.message :=
           if bool_decide (Inventory.quantity d >= quantity)
           then "Stock available"
           else "Insufficient stock. Requested: " +:+ pretty quantity
                  +:+ ", Available: " +:+ pretty (Inventory.quantity d);
         CheckResult.currentStock := Inventory.quantity d |}
  end.

(** The detail built for one item of a stock-check batch. *)
Definition detailOf (l : list Inventory.t) (item : StockCheckItem.t)
    : CheckDetail.t :=
  let result := stockCheckOf l (StockCheckItem.productCode item)
                  (StockCheckItem.quantity item) in
  {| CheckDetail.productCode := StockCheckItem.productCode item;
     CheckDetail.available := CheckResult.available result;
     CheckDetail.message := CheckResult.message result;
     CheckDetail.currentStock := CheckResult.currentStock result |}.

(** [l'] is [l] except, at most, for the quantity of the document at
    position [i]. *)
Definition quantity_only (i : nat) (l l' : list Inventory.t) : Prop :=
  length l' = length l
  ∧ (∀ j, j ≠ i → l' !! j = l !! j)
  ∧ (∀ d, l !! i = Some d →
       ∃ d', l' !! i = Some d'
             ∧ Inventory.productCode d' = Inventory.productCode d
             ∧ Inventory.name d' = Inventory.name d
             ∧ Inventory.description d' = Inventory.description d
             ∧ Inventory.price d' = Inventory.price d).

(** ** Fixtures

    The item of src/inventory/__tests__/inventory.service.spec.ts and two
    brokers: one that accepts everything and one that refuses every
    connection. *)
Module Fixtures.
Definition mockInventoryItem : Inventory.t :=
  {| Inventory.productCode := "INV-123456789";
     Inventory.name := "Test Product";
     Inventory.description := "Test Description";
     Inventory.quantity := 10;
     Inventory.price := 100%Q |}.

Definition itemA : Inventory.t :=
  {| Inventory.productCode := "A";
     Inventory.name := "Item A";
     Inventory.description := "";
     Inventory.quantity := 10;
     Inventory.price := (1 # 2)%Q |}.

Definition itemB : Inventory.t :=
  {| Inventory.productCode := "B";
     Inventory.name := "Item B";
     Inventory.description := "";
     Inventory.quantity := 10;
     Inventory.price := (3 # 4)%Q |}.

Definition healthy : Broker :=
  {| connectOutcome := λ _, Established;
     publishOutcome := λ _, None |}.

Definition unreachable : Broker :=
  {| connectOutcome := λ _, ConnectRejected (BrokerError "connect ECONNREFUSED");
     publishOutcome := λ _, Some (BrokerError "Channel closed") |}.

(** A service that has connected once. *)
Definition connected (l : list Inventory.t) (b : Broker) : State :=
  {| ledger := l; connection := Some 0%nat; channel := Some 0%nat;
     isConnecting := false; now := 1700000000000;
     connects := 1; publishes := 0; trace := []; broker := b |}.

(** A service before [onModuleInit]. *)
Definition fresh (l : list Inventory.t) (b : Broker) : State :=
  {| ledger := l; connection := None; channel := None;
     isConnecting := false; now := 1700000000000;
     connects := 0; publishes := 0; trace := []; broker := b |}.
End Fixtures.

(** A binary64 value, in the representation of its specification, that
    is below zero: what the test [x < 0] finds. *)
Definition below_zero (x : spec_float) : bool :=
  match x with
  | S754_infinity true | S754_finite true _ _ => true
  | _ => false
  end.

(** ** Vocabulary of the further statements *)

(** A decimal digit. *)
Definition isDigit (c : ascii) : bool :=
  ((48 <=? N_of_ascii c) && (N_of_ascii c <=? 57))%N.

(** Every character of a string satisfies [p]. *)
Fixpoint forallChars (p : ascii → bool) (s : string) : bool :=
  match s with
  | EmptyString => true
  | String c s' => p c && forallChars p s'
  end.

(** The event [createItem] builds for a saved document. *)
Definition stockAddedEvent (savedItem : Inventory.t) (timestamp : Z)
    : StockUpdateEvent.t :=
  {| StockUpdateEvent.eventType := STOCK_ADDED;
     StockUpdateEvent.productCode := Inventory.productCode savedItem;
     StockUpdateEvent.previousQuantity := 0;
     StockUpdateEvent.newQuantity := Inventory.quantity savedItem;
     StockUpdateEvent.timestamp := timestamp;
     StockUpdateEvent.productName := Some (Inventory.name savedItem) |}.

(** The code generated from [randomNum] is in use in the ledger [l]. *)
Definition codeTaken (l : list Inventory.t) (randomNum : N) : Prop :=
  is_Some (InventoryRepository.findOne
             (InventoryService.generateProductCode randomNum) l).

(** The ledgers of two states are related document by document. *)
Definition ledger_related (E : relation Inventory.t) : relation State :=
  λ s s', Forall2 E (ledger s) (ledger s').

(** [d'] is the document [d] after deductions: the same but for the
    quantity, which is not negative unless it was before. *)
Definition deducted (d d' : Inventory.t) : Prop :=
  Inventory.productCode d' = Inventory.productCode d
  ∧ Inventory.name d' = Inventory.name d
  ∧ Inventory.description d' = Inventory.description d
  ∧ Inventory.price d' = Inventory.price d
  ∧ (0 ≤ Inventory.quantity d → 0 ≤ Inventory.quantity d').

(** The stock of [d'] is at most that of [d]. *)
Definition not_restocked (d d' : Inventory.t) : Prop :=
  Inventory.quantity d' ≤ Inventory.quantity d.

(** The deliveries acknowledged, in order. *)
Definition acks (t : list Effect) : list Delivery :=
  omap (λ e, match e with EAck msg => Some msg | _ => None end) t.

(** Anything but an acknowledgement. *)
Definition not_ack (e : Effect) : Prop :=
  match e with
  | EAck _ => False
  | _ => True
  end.

(** Running from [s] to [s'] only adds effects that satisfy [P]. *)
Definition producing (P : Effect → Prop) : relation State :=
  λ s s', ∃ t, trace s' = trace s ++ t ∧ Forall P t.

(** The invariant of a consumer [m] for the delivery [msg], on the
    sequential runs of this development.  When [m] returns, the last two
    things it did were a [channel.publish] to the default exchange,
    routed to [msg]'s [replyTo] with [msg]'s [correlationId], which the
    channel took, and the acknowledgement of [msg]; it acknowledged
    nothing before.  When [m] throws, it has acknowledged nothing. *)
Definition acknowledging (msg : Delivery) (m : M unit) : Prop :=
  ∀ s, ∃ t,
    trace (m s).2 = trace s ++ t
    ∧ match (m s).1 with
      | Ok _ =>
          ∃ t0 response,
            t = t0 ++ [EChannelPublish "" (replyTo msg) response
                         (Some (correlationId msg)) None;
                       EAck msg]
            ∧ Forall not_ack t0
      | Throw _ => Forall not_ack t
      end.

(** The acknowledgement discipline of a consumer [m] for the delivery
    [msg].  When [m] returns it has acknowledged [msg], once, and
    nothing else, and before that the channel took a reply routed to
    [msg]'s [replyTo] with [msg]'s [correlationId].  When [m] throws,
    it has acknowledged nothing. *)
Definition acknowledges_after_reply (msg : Delivery) (m : M unit) : Prop :=
  ∀ s, ∃ t,
    trace (m s).2 = trace s ++ t
    ∧ match (m s).1 with
      | Ok _ =>
          acks t = [msg]
          ∧ ∃ t0 response t1,
              t = t0 ++ EChannelPublish "" (replyTo msg) response
                          (Some (correlationId msg)) None :: t1
              ∧ acks t0 = []
      | Throw _ => acks t = []
      end.

(** The event [deductStock] builds for the document [d] and the
    requested quantity. *)
Definition stockReducedEvent (d : Inventory.t) (item : StockCheckItem.t)
    (timestamp : Z) : StockUpdateEvent.t :=
  {| StockUpdateEvent.eventType := STOCK_REDUCED;
     StockUpdateEvent.productCode := StockCheckItem.productCode item;
     StockUpdateEvent.previousQuantity := Inventory.quantity d;
     StockUpdateEvent.newQuantity :=
       Inventory.quantity d - StockCheckItem.quantity item;
     StockUpdateEvent.timestamp := timestamp;
     StockUpdateEvent.productName := Some (Inventory.name d) |}.

(** What a consumer may do while it answers the delivery [msg] without
    touching the stock: write a log line, hand a message for [msg]'s
    [replyTo] and [correlationId] to the default exchange, acknowledge. *)
Definition replying (msg : Delivery) (e : Effect) : Prop :=
  match e with
  | ELog _ _ | EAck _ => True
  | EChannelPublish exchange routingKey _ correlation _ =>
      exchange = "" ∧ routingKey = replyTo msg
      ∧ correlation = Some (correlationId msg)
  | _ => False
  end.

(** ** More fixtures *)
Module MoreFixtures.
(** A broker that refuses the first two connections. *)
Definition recovering : Broker :=
  {| connectOutcome := λ n,
       if (n <? 2)%nat then ConnectRejected (BrokerError "connect ECONNREFUSED")
       else Established;
     publishOutcome := λ _, None |}.

(** A channel that throws once and then takes everything. *)
Definition hiccup : Broker :=
  {| connectOutcome := λ _, Established;
     publishOutcome := λ n,
       if (n <? 1)%nat then Some (BrokerError "Channel closed") else None |}.

(** A model in the spirit of the service: product code and name are
    required, quantity and price may not be negative, product codes are
    unique; the document stored is the DTO as it is. *)
Definition strictModel : InventoryModel := λ stored dto,
  let newItem :=
    {| Inventory.productCode := default "" (CreateInventoryDto.productCode dto);
       Inventory.name := CreateInventoryDto.name dto;
       Inventory.description := CreateInventoryDto.description dto;
       Inventory.quantity := CreateInventoryDto.quantity dto;
       Inventory.price := CreateInventoryDto.price dto |} in
  if bool_decide (Inventory.productCode newItem = "")
     || bool_decide (Inventory.name newItem = "")
     || (Inventory.quantity newItem <? 0)
     || negb (Qle_bool 0 (Inventory.price newItem))
  then Throw (ValidationError "Inventory validation failed")
  else
    match InventoryRepository.findOne (Inventory.productCode newItem) stored with
    | Some _ => Throw (Error "E11000 duplicate key error: productCode")
    | None => Ok newItem
    end.

(** The item of the test with its quantity as a binary64 value, and the
    same item with a stock of 2^53 + 2. *)
Definition mockDoubleItem : Doubles.Inventory.t :=
  {| Doubles.Inventory.productCode := "INV-123456789";
     Doubles.Inventory.name := "Test Product";
     Doubles.Inventory.description := "Test Description";
     Doubles.Inventory.quantity := 10%float;
     Doubles.Inventory.price := 100%float |}.

Definition largeStockItem : Doubles.Inventory.t :=
  Doubles.Inventory.set_quantity 9007199254740994%float mockDoubleItem.

(** A connected service beside the documents [l]. *)
Definition stocked (l : list Doubles.Inventory.t) (b : Broker)
    : DoubleService.Store :=
  DoubleService.mkStore l (Fixtures.connected [] b).

(** A stand-in for the conversion of a number to a string, for runs
    that print no number. *)
Definition noDigits : float → string := λ _, "".

(** A request for the item of the test, without a product code. *)
Definition createDto : CreateInventoryDto.t :=
  {| CreateInventoryDto.productCode := None;
     CreateInventoryDto.name := "Test Product";
     CreateInventoryDto.description := "Test Description";
     CreateInventoryDto.quantity := 10;
     CreateInventoryDto.price := 100%Q |}.
End MoreFixtures.

(** * Verification *)

(** ** The ledger *)

Section Ledger.
Implicit Types (l : list Inventory.t) (d : Inventory.t) (i : nat).

Lemma findOne_lookup code l i d :
  InventoryRepository.findOne code l = Some (i, d) →
  l !! i = Some d ∧ Inventory.productCode d = code.
Proof.
  unfold InventoryRepository.findOne. intros H.
  apply list_find_Some in H. tauto.
Qed.

(** Writing a document back in place with the same product code leaves
    it the first match for that code. *)
Lemma findOne_insert_same code l i d d' :
  InventoryRepository.findOne code l = Some (i, d) →
  Inventory.productCode d' = code →
  InventoryRepository.findOne code (<[i := d']> l) = Some (i, d').
Proof.
  unfold InventoryRepository.findOne. intros H Hc.
  apply list_find_Some in H as (Hi & _ & Hfirst).
  apply list_find_Some. split; [|split].
  - apply list_lookup_insert_eq. by eapply lookup_lt_Some.
  - done.
  - intros j y Hj Hlt. rewrite list_lookup_insert_ne in Hj by lia. eauto.
Qed.

(** Lookups by another product code do not see the write. *)
Lemma findOne_insert_other code code' l i d d' :
  l !! i = Some d →
  Inventory.productCode d = code →
  Inventory.productCode d' = code →
  code' ≠ code →
  InventoryRepository.findOne code' (<[i := d']> l)
  = InventoryRepository.findOne code' l.
Proof.
  unfold InventoryRepository.findOne. intros Hi Hd Hd' Hne.
  revert i Hi. induction l as [|x l IH]; intros [|i] Hi; simplify_eq/=; try done.
  - repeat case_decide; try congruence; done.
  - case_decide; [done|]. by rewrite IH.
Qed.

Lemma set_quantity_fields q d :
  Inventory.productCode (Inventory.set_quantity q d) = Inventory.productCode d
  ∧ Inventory.name (Inventory.set_quantity q d) = Inventory.name d
  ∧ Inventory.description (Inventory.set_quantity q d) = Inventory.description d
  ∧ Inventory.price (Inventory.set_quantity q d) = Inventory.price d
  ∧ Inventory.quantity (Inventory.set_quantity q d) = q.
Proof. done. Qed.
End Ledger.

(** ** Traces *)

Section Traces.
Implicit Types (t : list Effect) (e : Effect).

Lemma publishCalls_app t1 t2 :
  publishCalls (t1 ++ t2) = publishCalls t1 ++ publishCalls t2.
Proof. apply omap_app. Qed.

Lemma channelPublishes_app t1 t2 :
  channelPublishes (t1 ++ t2) = channelPublishes t1 ++ channelPublishes t2.
Proof. apply omap_app. Qed.

Lemma cleanups_app t1 t2 : cleanups (t1 ++ t2) = (cleanups t1 + cleanups t2)%nat.
Proof. unfold cleanups. by rewrite omap_app, length_app. Qed.

Lemma connecting_silent t :
  Forall connecting_effect t →
  publishCalls t = [] ∧ channelPublishes t = [] ∧ cleanups t = 0%nat.
Proof.
  induction 1 as [|e t He _ (IH1 & IH2 & IH3)]; [done|].
  unfold cleanups in *. destruct e; simpl in *; try done.
Qed.
End Traces.

(** ** The transport: connecting, reconnecting and publishing *)

Section Transport.
Import RabbitMQService.

Lemma connecting_refl s : connecting s s.
Proof.
  split; try done. exists []. by rewrite app_nil_r.
Qed.

Lemma connecting_trans s1 s2 s3 :
  connecting s1 s2 → connecting s2 s3 → connecting s1 s3.
Proof.
  intros [L1 P1 B1 C1 (t1 & T1 & F1)] [L2 P2 B2 C2 (t2 & T2 & F2)].
  split; try congruence; [tauto|].
  exists (t1 ++ t2). rewrite T2, T1, app_assoc. split; [done|].
  by apply Forall_app.
Qed.

Lemma connecting_record e s :
  connecting_effect e → connecting s (record e s).
Proof.
  intros He. split; try done. exists [e]. split; [done|].
  by repeat constructor.
Qed.

Lemma connecting_set_isConnecting b s : connecting s (set_isConnecting b s).
Proof. split; try done. exists []. by rewrite app_nil_r. Qed.

Lemma connecting_set_now t s : connecting s (set_now t s).
Proof. split; try done. exists []. by rewrite app_nil_r. Qed.

Lemma connect_connecting s : connecting s (connect s).2.
Proof.
  unfold connect.
  destruct (connectOutcome (broker s) (connects s)) eqn:Ho; simpl;
    split; simpl; try done;
    try (intros _; by eexists);
    try (eexists [_]; split; [done|by repeat constructor]).
Qed.

Lemma sleep_connecting ms s : connecting s (sleep ms s).2.
Proof.
  unfold sleep, modify. simpl.
  eapply connecting_trans; [apply (connecting_set_now (now s + ms))|].
  by apply connecting_record.
Qed.

Ltac connecting_peel :=
  repeat first
    [ apply connecting_refl
    | eassumption
    | eapply connecting_trans; [|apply connecting_set_isConnecting]
    | eapply connecting_trans; [|apply connecting_set_now]
    | eapply connecting_trans; [|by apply connecting_record]
    | eapply connecting_trans; [|eassumption] ].

(** [connectWithRetry] never throws, whatever the broker does. *)
Lemma connectWithRetry_connecting retryCount s :
  (connectWithRetry retryCount s).1 = Ok tt
  ∧ connecting s (connectWithRetry retryCount s).2.
Proof.
  revert s.
  apply (connectWithRetry_elim
           (λ n m, ∀ s, (m s).1 = Ok tt ∧ connecting s (m s).2)).
  clear retryCount. intros retryCount IH s.
  destruct (isConnecting s) eqn:Hflag; [split; [done|apply connecting_refl]|].
  pose proof (connect_connecting (set_isConnecting true s)) as Hc.
  destruct (connect (set_isConnecting true s)) as [[[]|error] s1] eqn:Hconn;
    simpl in Hc.
  - split; [done|]. unfold bind, log, emit, modify. simpl. connecting_peel.
  - cbv zeta. destruct (decide (retryCount < maxRetries)%nat) as [Hlt|Hge].
    + unfold sleep, modify.
      match goal with
      | |- context [connectWithRetry _ ?s2] =>
          specialize (IH s1 (Throw error) s1 error Hlt (Ok tt) s2 s2) as [IH1 IH2]
      end.
      split; [done|]. simpl. connecting_peel.
    + split; [done|]. unfold bind, log, emit, modify. simpl. connecting_peel.
Qed.

(** A reconnect is one [cleanup()] followed by connecting; it never
    throws. *)
Lemma handleReconnect_spec s :
  ∃ s', handleReconnect s = (Ok tt, s')
        ∧ connecting (record (ECleanup (channel s) (connection s)) s) s'.
Proof.
  unfold handleReconnect, tryCatch, bind, cleanup, emit, modify.
  destruct (connectWithRetry_connecting 0
              (record (ECleanup (channel s) (connection s)) s)) as [H1 H2].
  destruct (connectWithRetry 0 _) as [r s']. simpl in *. subst r. eauto.
Qed.
End Transport.

(** ** Equations of the monad *)

Section Monad.
Context {A B C : Type}.

Lemma bind_ret (a : A) (k : A → M B) s : bind (ret a) k s = k a s.
Proof. done. Qed.

Lemma bind_throw e (k : A → M B) s : bind (throw e) k s = (Throw e, s).
Proof. done. Qed.

Lemma bind_gets (f : State → A) (k : A → M B) s : bind (gets f) k s = k (f s) s.
Proof. done. Qed.

Lemma bind_emit e (k : unit → M B) s : bind (emit e) k s = k tt (record e s).
Proof. done. Qed.

Lemma bind_log level text (k : unit → M B) s :
  bind (log level text) k s = k tt (record (ELog level text) s).
Proof. done. Qed.

Lemma bind_bind (m : M A) (k : A → M B) (h : B → M C) s :
  bind (bind m k) h s = bind m (λ a, bind (k a) h) s.
Proof. unfold bind. by destruct (m s) as [[a|e] s']. Qed.
End Monad.

(** ** Stepwise invariants of monadic code *)

Section Steps.
Context (R : relation State) `{!PreOrder R}.

Lemma steps_ret {A} (a : A) : steps R (ret a).
Proof. intros s. reflexivity. Qed.

Lemma steps_throw {A} e : steps R (throw (A:=A) e).
Proof. intros s. reflexivity. Qed.

Lemma steps_gets {A} (f : State → A) : steps R (gets f).
Proof. intros s. reflexivity. Qed.

Lemma steps_bind {A B} (m : M A) (k : A → M B) :
  steps R m → (∀ a, steps R (k a)) → steps R (bind m k).
Proof.
  intros Hm Hk s. unfold bind. specialize (Hm s).
  destruct (m s) as [[a|e] s']; simpl in *; [|done].
  etransitivity; [done|apply Hk].
Qed.

Lemma steps_tryCatch {A} (m : M A) (h : Exn → M A) :
  steps R m → (∀ e, steps R (h e)) → steps R (tryCatch m h).
Proof.
  intros Hm Hh s. unfold tryCatch. specialize (Hm s).
  destruct (m s) as [[a|e] s']; simpl in *; [done|].
  etransitivity; [done|apply Hh].
Qed.

Lemma steps_promiseAll {A} (ps : list (M A)) :
  Forall (steps R) ps → steps R (promiseAll ps).
Proof.
  induction 1 as [|p ps Hp _ IH]; intros s; simpl; [reflexivity|].
  specialize (Hp s). destruct (p s) as [[a|e] s1]; simpl in *.
  - specialize (IH s1). destruct (promiseAll ps s1) as [[l|e] s2]; simpl in *;
      by etransitivity.
  - etransitivity; [done|apply IH].
Qed.
End Steps.

#[global] Instance transporting_preorder : PreOrder transporting.
Proof.
  split.
  - intros s. split; try done. exists []. by rewrite app_nil_r.
  - intros s1 s2 s3 [L1 B1 (t1 & T1 & F1)] [L2 B2 (t2 & T2 & F2)].
    split; try congruence.
    exists (t1 ++ t2). rewrite T2, T1, app_assoc. split; [done|].
    by rewrite publishCalls_app, F1, F2.
Qed.

Section Publishing.
Import RabbitMQService.

Lemma connecting_transporting s s' : connecting s s' → transporting s s'.
Proof.
  intros [L _ B _ (t & T & F)]. split; try done.
  exists t. split; [done|]. by apply connecting_silent.
Qed.

Lemma transporting_publishCalls s s' :
  transporting s s' → publishCalls (trace s') = publishCalls (trace s).
Proof.
  intros [_ _ (t & -> & F)]. by rewrite publishCalls_app, F, app_nil_r.
Qed.

Lemma log_transporting level text : steps transporting (log level text).
Proof. intros s. split; try done. by eexists [_]. Qed.

Lemma connectWithRetry_transporting n : steps transporting (connectWithRetry n).
Proof. intros s. apply connecting_transporting, connectWithRetry_connecting. Qed.

Lemma channelPublish_transporting x k m c :
  steps transporting (channelPublish x k m c).
Proof.
  intros s. unfold channelPublish. destruct (channel s); [|reflexivity].
  destruct (publishOutcome (broker s) (publishes s)); simpl;
    (split; try done; by eexists [_]).
Qed.

Lemma handleReconnect_transporting : steps transporting handleReconnect.
Proof.
  intros s. destruct (handleReconnect_spec s) as (s' & -> & H). simpl.
  etransitivity; [|by apply connecting_transporting].
  split; try done. by eexists [_].
Qed.

(** One call of [channel.publish] on an assigned channel. *)
Lemma channelPublish_assigned x k m c s :
  is_Some (channel s) →
  channelPublish x k m c s
  = (match publishOutcome (broker s) (publishes s) with
     | Some e => Throw e
     | None => Ok tt
     end,
     record (EChannelPublish x k m c (publishOutcome (broker s) (publishes s)))
            (set_publishes (S (publishes s)) s)).
Proof.
  intros [ch Hch]. unfold channelPublish. rewrite Hch.
  by destruct (publishOutcome (broker s) (publishes s)).
Qed.


End Publishing.

Ltac steps_transporting :=
  repeat match goal with
    | |- steps _ (bind _ _) => apply steps_bind; [apply _| |intros ?]
    | |- steps _ (tryCatch _ _) => apply steps_tryCatch; [apply _| |intros ?]
    | |- steps _ (ret _) => apply steps_ret, _
    | |- steps _ (throw _) => apply steps_throw, _
    | |- steps _ (gets _) => apply steps_gets, _
    | |- steps _ (log _ _) => apply log_transporting
    | |- steps _ (RabbitMQService.connectWithRetry _) =>
        apply connectWithRetry_transporting
    | |- steps _ (RabbitMQService.channelPublish _ _ _ _) =>
        apply channelPublish_transporting
    | |- steps _ RabbitMQService.handleReconnect =>
        apply handleReconnect_transporting
    | |- steps _ (match ?x with _ => _ end) => destruct x
    end.

Section Publish.
Import RabbitMQService.

(** [publish] records its own call once; everything after that is
    transport. *)
Lemma publish_transporting x k m s :
  transporting (record (EPublishCall x k m) s) (publish x k m s).2.
Proof.
  unfold publish. rewrite bind_emit.
  generalize (record (EPublishCall x k m) s). intros s0.
  match goal with
  | |- transporting s0 (?f s0).2 => revert s0; change (steps transporting f)
  end.
  steps_transporting.
Qed.
End Publish.

(** ** InventoryService: publishing a stock event *)

Section Emitting.
Import RabbitMQService InventoryService.

Lemma publishStockUpdateEvent_transporting event s :
  transporting
    (record (EPublishCall RabbitMQExchanges.INVENTORY (routingKeyOf event)
               (MStockEvent event)) s)
    (publishStockUpdateEvent event s).2.
Proof.
  unfold publishStockUpdateEvent, tryCatch, bind.
  pose proof (publish_transporting RabbitMQExchanges.INVENTORY
                (routingKeyOf event) (MStockEvent event) s) as Hp.
  unfold routingKeyOf in *.
  destruct (publish _ _ _ s) as [[[]|e] s1]; simpl in *.
  - etransitivity; [done|]. apply log_transporting.
  - etransitivity; [done|]. apply log_transporting.
Qed.

(** Whatever the broker does, the orchestrator hands exactly one event to
    the publisher and the ledger is not touched by publishing. *)
Lemma publishStockUpdateEvent_emits event s :
  ledger (publishStockUpdateEvent event s).2 = ledger s
  ∧ publishCalls (trace (publishStockUpdateEvent event s).2)
    = publishCalls (trace s)
        ++ [(RabbitMQExchanges.INVENTORY, routingKeyOf event, MStockEvent event)].
Proof.
  pose proof (publishStockUpdateEvent_transporting event s) as H.
  split; [apply H|].
  apply transporting_publishCalls in H. rewrite H. simpl.
  by rewrite publishCalls_app.
Qed.

(** The same when more transport-only work follows the publication. *)
Lemma publishStockUpdateEvent_then {A} event (k : unit → M A) s :
  (∀ u, steps transporting (k u)) →
  ledger (bind (publishStockUpdateEvent event) k s).2 = ledger s
  ∧ publishCalls (trace (bind (publishStockUpdateEvent event) k s).2)
    = publishCalls (trace s)
        ++ [(RabbitMQExchanges.INVENTORY, routingKeyOf event, MStockEvent event)].
Proof.
  intros Hk.
  pose proof (publishStockUpdateEvent_transporting event s) as H.
  assert (transporting
            (record (EPublishCall RabbitMQExchanges.INVENTORY (routingKeyOf event)
                       (MStockEvent event)) s)
            (bind (publishStockUpdateEvent event) k s).2) as H'.
  { unfold bind. destruct (publishStockUpdateEvent event s) as [[u|e] s1];
      simpl in *; [|done].
    etransitivity; [done|apply Hk]. }
  split; [apply H'|].
  apply transporting_publishCalls in H'. rewrite H'. simpl.
  by rewrite publishCalls_app.
Qed.

(** With a channel that accepts the message, the event reaches the
    channel exactly once and the call returns. *)
Lemma publishStockUpdateEvent_delivered event s :
  is_Some (channel s) →
  publishOutcome (broker s) (publishes s) = None →
  (publishStockUpdateEvent event s).1 = Ok tt
  ∧ channelPublishes (trace (publishStockUpdateEvent event s).2)
    = channelPublishes (trace s)
        ++ [(RabbitMQExchanges.INVENTORY, routingKeyOf event, MStockEvent event,
             None, None)].
Proof.
  intros [ch Hch] Hok.
  unfold publishStockUpdateEvent, publish, channelPublish, tryCatch, bind,
    emit, log, emit, modify, gets, ret. simpl.
  rewrite Hch. simpl. rewrite Hch, Hok. simpl.
  split; [done|]. unfold routingKeyOf.
  rewrite !channelPublishes_app. simpl. by rewrite !app_nil_r.
Qed.
End Emitting.

(** ** deductStock *)

Section DeductStock.
Import InventoryService.

(** The sufficient-stock path of [deductStock], step by step: the log
    line of [getItem], the write of the decremented document, then the
    publication of the event. *)
Lemma deductStock_sufficient_run s productCode q i d :
  InventoryRepository.findOne productCode (ledger s) = Some (i, d) →
  Inventory.quantity d >= q →
  deductStock productCode q s
  = publishStockUpdateEvent
      {| StockUpdateEvent.eventType := STOCK_REDUCED;
         StockUpdateEvent.productCode := productCode;
         StockUpdateEvent.previousQuantity := Inventory.quantity d;
         StockUpdateEvent.newQuantity := Inventory.quantity d - q;
         StockUpdateEvent.timestamp := now s;
         StockUpdateEvent.productName := Some (Inventory.name d) |}
      (set_ledger
         (<[i := Inventory.set_quantity (Inventory.quantity d - q) d]> (ledger s))
         (record (ELog LInfo ("Fetched stock for item " +:+ Inventory.name d
                                +:+ ": " +:+ Inventory.productCode d)) s)).
Proof.
  intros Hfind Hge.
  unfold deductStock, getItem, InventoryRepository.findItemById,
    InventoryRepository.save, bind, gets, log, emit, modify, ret.
  cbn beta iota. rewrite Hfind. cbn beta iota.
  destruct (Z.ltb_spec (Inventory.quantity d) q) as [?|_]; [lia|].
  cbn [Inventory.quantity Inventory.set_quantity Inventory.name].
  destruct (Z.ltb_spec (Inventory.quantity d - q) 0) as [?|_]; [lia|].
  by replace (Inventory.quantity d - q + q) with (Inventory.quantity d) by lia.
Qed.

(** The insufficient-stock path of [deductStock]. *)
Lemma deductStock_insufficient_run s productCode q i d :
  InventoryRepository.findOne productCode (ledger s) = Some (i, d) →
  q > Inventory.quantity d →
  deductStock productCode q s
  = (Throw (Error ("Insufficient stock for " +:+ Inventory.name d
                     +:+ ". Requested: " +:+ pretty q
                     +:+ ", Available: " +:+ pretty (Inventory.quantity d))),
     record (ELog LInfo ("Fetched stock for item " +:+ Inventory.name d
                           +:+ ": " +:+ Inventory.productCode d)) s).
Proof.
  intros Hfind Hgt.
  unfold deductStock, getItem, InventoryRepository.findItemById,
    bind, gets, log, emit, modify, ret, throw.
  cbn beta iota. rewrite Hfind. cbn beta iota.
  by destruct (Z.ltb_spec (Inventory.quantity d) q) as [_|?]; [|lia].
Qed.

(** C2.  When the item is in the ledger with stored quantity S and
    q > S, [deductStock code q] throws
    [Error("Insufficient stock for <name>. Requested: <q>, Available: <S>")],
    and the only thing that happened is the log line of [getItem]: the
    ledger is the same, nothing was given to the publisher and nothing
    went to the channel. *)
Theorem deductStock_insufficient s productCode q i d :
  InventoryRepository.findOne productCode (ledger s) = Some (i, d) →
  q > Inventory.quantity d →
  ∃ s',
    deductStock productCode q s
    = (Throw (Error ("Insufficient stock for " +:+ Inventory.name d
                       +:+ ". Requested: " +:+ pretty q
                       +:+ ", Available: " +:+ pretty (Inventory.quantity d))),
       s')
    ∧ s' = record (ELog LInfo ("Fetched stock for item " +:+ Inventory.name d
                                 +:+ ": " +:+ Inventory.productCode d)) s
    ∧ ledger s' = ledger s
    ∧ publishCalls (trace s') = publishCalls (trace s)
    ∧ channelPublishes (trace s') = channelPublishes (trace s).
Proof.
  intros Hfind Hgt. eexists.
  split; [by apply (deductStock_insufficient_run s productCode q i d)|].
  split; [done|]. split; [done|]. simpl.
  by rewrite publishCalls_app, channelPublishes_app, !app_nil_r.
Qed.

Lemma deductStock_insufficient_witness :
  let s := Fixtures.connected [Fixtures.mockInventoryItem] Fixtures.healthy in
  (deductStock "INV-123456789" 15 s).1
  = Throw (Error "Insufficient stock for Test Product. Requested: 15, Available: 10")
  ∧ ledger (deductStock "INV-123456789" 15 s).2 = ledger s.
Proof.
  intros s.
  destruct (deductStock_insufficient s "INV-123456789" 15 0 Fixtures.mockInventoryItem)
    as (s' & -> & _ & Hl & _); [reflexivity|simpl; lia|].
  split; [reflexivity|exact Hl].
Defined.
End DeductStock.

(** ** Binary64 numbers

    Two facts about the order and the subtraction of binary64 values,
    from the specification of the primitive operations. *)

Section Binary64.

Lemma SFltb_zero x : SFltb x (S754_zero false) = below_zero x.
Proof. destruct x as [[]|[]| |[] m e]; reflexivity. Qed.

Lemma binary_round_aux_sign sx mx ex lx :
  below_zero (binary_round_aux prec emax sx mx ex lx) = true → sx = true.
Proof.
  unfold binary_round_aux.
  destruct (shr_fexp prec emax mx ex lx) as [mrs' e'].
  destruct (shr_fexp prec emax _ e' loc_Exact) as [mrs'' e''].
  destruct (shr_m mrs'') as [|m|m]; [destruct sx; simpl; congruence| |simpl; congruence].
  destruct (e'' <=? emax - prec); destruct sx; simpl; congruence.
Qed.

Lemma binary_normalize_sign m e :
  0 <= m → below_zero (binary_normalize prec emax m e false) = false.
Proof.
  intros Hm. destruct m as [|m|m]; [reflexivity| |lia].
  unfold binary_normalize, binary_round.
  destruct (shl_align m e _) as [mz ez].
  destruct (below_zero _) eqn:H; [|reflexivity].
  apply binary_round_aux_sign in H. discriminate.
Qed.

Lemma iter_xO m d : Zpos (Pos.iter xO m d) = Zpos m * 2 ^ Zpos d.
Proof.
  revert m. induction d as [|d IH] using Pos.peano_ind; intros m.
  - simpl. lia.
  - rewrite Pos.iter_succ, Pos2Z.inj_succ, Z.pow_succ_r by lia.
    rewrite Pos2Z.inj_xO, IH. lia.
Qed.

Lemma shl_align_value m e e' :
  e' <= e → Zpos (fst (shl_align m e e')) = Zpos m * 2 ^ (e - e').
Proof.
  intros He. unfold shl_align.
  destruct (e' - e) as [|d|d] eqn:Hd.
  - replace (e - e') with 0 by lia. simpl. lia.
  - lia.
  - simpl fst. rewrite iter_xO. f_equal. f_equal. lia.
Qed.

Lemma digits2_pos_bounds m :
  2 ^ (Zpos (digits2_pos m) - 1) <= Zpos m < 2 ^ Zpos (digits2_pos m).
Proof.
  induction m as [m IH|m IH|]; simpl digits2_pos.
  - rewrite Pos2Z.inj_succ.
    replace (Z.succ (Zpos (digits2_pos m)) - 1) with (Z.succ (Zpos (digits2_pos m) - 1)) by lia.
    rewrite !Z.pow_succ_r by lia. lia.
  - rewrite Pos2Z.inj_succ.
    replace (Z.succ (Zpos (digits2_pos m)) - 1) with (Z.succ (Zpos (digits2_pos m) - 1)) by lia.
    rewrite !Z.pow_succ_r by lia. lia.
  - simpl. lia.
Qed.

(** Canonical mantissas: at a larger exponent the value is larger. *)
Lemma bounded_lt m1 e1 m2 e2 :
  bounded prec emax m1 e1 = true →
  bounded prec emax m2 e2 = true →
  e1 < e2 →
  Zpos m1 < Zpos m2 * 2 ^ (e2 - e1).
Proof.
  unfold bounded, canonical_mantissa, fexp, emin.
  intros H1 H2 He.
  apply andb_true_iff in H1 as [H1 _]. apply andb_true_iff in H2 as [H2 _].
  apply Z.eqb_eq in H1, H2.
  pose proof (digits2_pos_bounds m1) as [_ Hu].
  pose proof (digits2_pos_bounds m2) as [Hl _].
  assert (Zpos (digits2_pos m1) <= prec) as Hd1 by lia.
  assert (Zpos (digits2_pos m2) = prec) as Hd2 by lia.
  rewrite Hd2 in Hl.
  assert (2 ^ Zpos (digits2_pos m1) <= 2 ^ prec) as Hp
    by (apply Z.pow_le_mono_r; lia).
  assert (2 ^ prec = 2 * 2 ^ (prec - 1)) as Hq.
  { replace prec with (Z.succ (prec - 1)) at 1 by lia.
    rewrite Z.pow_succ_r; [reflexivity|unfold prec; lia]. }
  assert (2 ^ 1 <= 2 ^ (e2 - e1)) as Hr by (apply Z.pow_le_mono_r; lia).
  change (2 ^ 1) with 2 in Hr. nia.
Qed.

Lemma SFsub_not_below x y :
  valid_binary x = true →
  valid_binary y = true →
  SFltb x y = false →
  below_zero (SFsub prec emax x y) = false.
Proof.
  intros Vx Vy Hlt.
  destruct x as [sx|sx| |sx mx ex], y as [sy|sy| |sy my ey];
    try (clear Vx Vy;
         repeat match goal with s : bool |- _ => destruct s end;
         cbv in Hlt |- *; congruence).
  unfold SFsub. apply binary_normalize_sign.
  simpl in Vx, Vy. unfold SFltb, SFcompare in Hlt.
  destruct (Z.compare_spec ex ey) as [He|He|He].
  - subst ey. rewrite Z.min_id, !shl_align_value by lia.
    rewrite Z.sub_diag, !Z.mul_1_r. simpl in Hlt.
    rewrite Pos.compare_cont_spec in Hlt. simpl in Hlt.
    destruct sx, sy; unfold cond_Zopp; try lia; try congruence;
      destruct (Pos.compare_spec mx my); simpl in Hlt; try congruence; lia.
  - rewrite Z.min_l, !shl_align_value by lia.
    rewrite Z.sub_diag, Z.mul_1_r.
    pose proof (bounded_lt mx ex my ey Vx Vy He).
    destruct sx, sy; simpl in Hlt; unfold cond_Zopp; try lia; congruence.
  - rewrite Z.min_r, !shl_align_value by lia.
    rewrite Z.sub_diag, Z.mul_1_r.
    pose proof (bounded_lt my ey mx ex Vy Vx He).
    destruct sx, sy; simpl in Hlt; unfold cond_Zopp; try lia; congruence.
Qed.

Lemma SFcompare_antisym x y c :
  SFcompare x y = Some c → SFcompare y x = Some (CompOpp c).
Proof.
  destruct x as [sx|sx| |sx mx ex], y as [sy|sy| |sy my ey];
    try (repeat match goal with s : bool |- _ => destruct s end;
         simpl; intros [= <-]; reflexivity);
    try (simpl; congruence).
  simpl. intros [= <-]. f_equal.
  rewrite (Z.compare_antisym ex ey), !Pos.compare_cont_spec.
  simpl. rewrite (Pos.compare_antisym mx my).
  destruct sx, sy; try reflexivity;
    destruct (ex ?= ey); simpl; try reflexivity;
    destruct (mx ?= my)%positive; reflexivity.
Qed.

(** [q <= S] excludes [S < q]. *)
Lemma leb_not_ltb (S q : float) :
  PrimFloat.leb q S = true → PrimFloat.ltb S q = false.
Proof.
  rewrite leb_spec, ltb_spec. unfold SFleb, SFltb.
  destruct (SFcompare (Prim2SF q) (Prim2SF S)) as [c|] eqn:Hc; [|congruence].
  apply SFcompare_antisym in Hc. rewrite Hc.
  destruct c; simpl; congruence.
Qed.

(** A difference is not below zero unless the minuend is below the
    subtrahend. *)
Lemma sub_not_below_zero (S q : float) :
  PrimFloat.ltb S q = false → PrimFloat.ltb (S - q) 0 = false.
Proof.
  rewrite !ltb_spec, sub_spec. intros H.
  change (Prim2SF 0) with (S754_zero false).
  rewrite SFltb_zero. apply SFsub_not_below; [apply Prim2SF_valid..|exact H].
Qed.

End Binary64.

(** ** deductStock on JavaScript numbers *)

Section DeductStockDoubles.
Import Doubles DoubleService.

Lemma findOne_doubles_lookup code l i d :
  findOne code l = Some (i, d) →
  l !! i = Some d ∧ Inventory.productCode d = code.
Proof.
  unfold findOne. intros H. apply list_find_Some in H. tauto.
Qed.

Lemma findOne_doubles_insert_same code l i d d' :
  findOne code l = Some (i, d) →
  Inventory.productCode d' = code →
  findOne code (<[i := d']> l) = Some (i, d').
Proof.
  unfold findOne. intros H Hc.
  apply list_find_Some in H as (Hi & _ & Hfirst).
  apply list_find_Some. split; [|split].
  - apply list_lookup_insert_eq. by eapply lookup_lt_Some.
  - done.
  - intros j y Hj Hlt. rewrite list_lookup_insert_ne in Hj by lia. eauto.
Qed.

(** Whatever the broker does, exactly one event is handed to the
    publisher and the documents are not touched by publishing. *)
Lemma publishStockUpdateEvent_doubles_emits event s :
  documents (publishStockUpdateEvent event s).2 = documents s
  ∧ publishCalls (trace (rest (publishStockUpdateEvent event s).2))
    = publishCalls (trace (rest s))
        ++ [(RabbitMQExchanges.INVENTORY,
             "inventory.stock."
               +:+ toLowerCase
                     (InventoryEventType_value (StockUpdateEvent.eventType event)),
             MDoubleStockEvent event)].
Proof.
  unfold publishStockUpdateEvent, tryCatchD, bindD, lift, throwD. cbv zeta.
  pose proof (publish_transporting RabbitMQExchanges.INVENTORY
                ("inventory.stock."
                   +:+ toLowerCase
                         (InventoryEventType_value
                            (StockUpdateEvent.eventType event)))
                (MDoubleStockEvent event) (rest s)) as Hp.
  apply transporting_publishCalls in Hp.
  destruct (RabbitMQService.publish _ _ _ (rest s)) as [[[]|e] s1];
    cbn [fst snd documents rest log emit modify trace record] in *;
    (split; [done|]);
    rewrite publishCalls_app, Hp, publishCalls_app;
    cbn [publishCalls omap list_omap]; by rewrite ?app_nil_r.
Qed.

(** With a channel that accepts the message, the event reaches the
    channel exactly once and the call returns. *)
Lemma publishStockUpdateEvent_doubles_delivered event s :
  is_Some (channel (rest s)) →
  publishOutcome (broker (rest s)) (publishes (rest s)) = None →
  (publishStockUpdateEvent event s).1 = Ok tt
  ∧ channelPublishes (trace (rest (publishStockUpdateEvent event s).2))
    = channelPublishes (trace (rest s))
        ++ [(RabbitMQExchanges.INVENTORY,
             "inventory.stock."
               +:+ toLowerCase
                     (InventoryEventType_value (StockUpdateEvent.eventType event)),
             MDoubleStockEvent event, None, None)].
Proof.
  intros [ch Hch] Hok.
  unfold publishStockUpdateEvent, tryCatchD, bindD, lift, throwD,
    RabbitMQService.publish, RabbitMQService.channelPublish, tryCatch, bind,
    emit, log, emit, modify, gets, ret.
  cbn [channel record publishes broker set_publishes fst snd rest documents].
  rewrite Hch. cbn beta iota.
  cbn [channel record publishes broker set_publishes fst snd rest documents].
  rewrite Hch, Hok. cbn beta iota.
  cbn [channel record publishes broker set_publishes fst snd rest documents
       trace].
  split; [done|].
  rewrite !channelPublishes_app. simpl. by rewrite !app_nil_r.
Qed.

(** The path of [deductStock] on which both tests let the deduction
    through, step by step: the log line of [getItem], the write of the
    document with the difference, then the publication of the event. *)
Lemma deductStock_doubles_run toString s productCode q i d :
  findOne productCode (documents s) = Some (i, d) →
  PrimFloat.ltb (Inventory.quantity d) q = false →
  PrimFloat.ltb (PrimFloat.sub (Inventory.quantity d) q) 0 = false →
  deductStock toString productCode q s
  = publishStockUpdateEvent
      {| StockUpdateEvent.eventType := STOCK_REDUCED;
         StockUpdateEvent.productCode := productCode;
         StockUpdateEvent.previousQuantity :=
           PrimFloat.add (PrimFloat.sub (Inventory.quantity d) q) q;
         StockUpdateEvent.newQuantity := PrimFloat.sub (Inventory.quantity d) q;
         StockUpdateEvent.timestamp := now (rest s);
         StockUpdateEvent.productName := Some (Inventory.name d) |}
      (mkStore
         (<[i := Inventory.set_quantity
                   (PrimFloat.sub (Inventory.quantity d) q) d]> (documents s))
         (record (ELog LInfo ("Fetched stock for item " +:+ Inventory.name d
                                +:+ ": " +:+ Inventory.productCode d))
                 (rest s))).
Proof.
  intros Hfind Hguard Hvalid.
  unfold deductStock, getItem, findItemById, save, bindD, getsD, lift, retD,
    log, emit, modify.
  cbn beta iota. rewrite Hfind. cbn beta iota.
  cbn [fst snd documents rest]. rewrite Hguard.
  cbn [Inventory.quantity Inventory.set_quantity Inventory.name].
  rewrite Hvalid. reflexivity.
Qed.




End DeductStockDoubles.

(** ** checkStock *)

Section CheckStock.
Import InventoryService.

Lemma geb_bool_decide (a b : Z) : (a >=? b) = bool_decide (a >= b).
Proof.
  rewrite Z.geb_leb. destruct (Z.leb_spec b a); case_bool_decide; done || lia.
Qed.

(** [checkStock] always returns; at most it writes one log line. *)
Lemma checkStock_run productCode q s :
  checkStock productCode q s
  = (Ok (stockCheckOf (ledger s) productCode q),
     match InventoryRepository.findOne productCode (ledger s) with
     | None => record (ELog LInfo ("Stock check failed: Product " +:+ productCode
                                     +:+ " not found")) s
     | Some _ => s
     end).
Proof.
  unfold checkStock, stockCheckOf, InventoryRepository.findItemById,
    bind, gets, log, emit, modify, ret.
  cbn beta iota.
  destruct (InventoryRepository.findOne productCode (ledger s)) as [[i d]|];
    [|done].
  by rewrite geb_bool_decide.
Qed.

(** C3.  [checkStock code q] never throws and changes nothing but the
    log: the ledger, the handles and the record of publications are the
    same afterwards.  For a missing item the result is
    [{available: false, currentStock: 0, message: "Item not found in
    inventory"}]; for an item with stored quantity S it is
    [available = (S >= q)], [currentStock = S] and the message
    ["Stock available"] when S >= q and
    ["Insufficient stock. Requested: <q>, Available: <S>"] otherwise. *)
Theorem checkStock_total productCode q s :
  ∃ r s',
    checkStock productCode q s = (Ok r, s')
    ∧ ledger s' = ledger s
    ∧ (s' = s ∨ ∃ line, s' = record (ELog LInfo line) s)
    ∧ publishCalls (trace s') = publishCalls (trace s)
    ∧ channelPublishes (trace s') = channelPublishes (trace s)
    ∧ match InventoryRepository.findOne productCode (ledger s) with
      | None =>
          r = {| CheckResult.available := false;
                 CheckResult.message := "Item not found in inventory";
                 CheckResult.currentStock := 0 |}
      | Some (_, d) =>
          let stored := Inventory.quantity d in
          CheckResult.available r = bool_decide (stored >= q)
          ∧ CheckResult.currentStock r = stored
          ∧ CheckResult.message r
            = if bool_decide (stored >= q)
              then "Stock available"
              else "Insufficient stock. Requested: " +:+ pretty q
                     +:+ ", Available: " +:+ pretty stored
      end.
Proof.
  eexists _, _. split; [apply checkStock_run|].
  unfold stockCheckOf.
  destruct (InventoryRepository.findOne productCode (ledger s)) as [[i d]|];
    simpl.
  - repeat split; try done. by left.
  - rewrite publishCalls_app, channelPublishes_app, !app_nil_r.
    repeat split; try done. right. by eexists.
Qed.

(** The three cases of the test file. *)
Example checkStock_test_cases :
  let s := Fixtures.connected [Fixtures.mockInventoryItem] Fixtures.healthy in
  (checkStock "INV-123456789" 5 s).1
  = Ok {| CheckResult.available := true;
          CheckResult.message := "Stock available";
          CheckResult.currentStock := 10 |}
  ∧ (checkStock "INV-123456789" 15 s).1
    = Ok {| CheckResult.available := false;
            CheckResult.message := "Insufficient stock. Requested: 15, Available: 10";
            CheckResult.currentStock := 10 |}
  ∧ (checkStock "INV-999999999" 5 s).1
    = Ok {| CheckResult.available := false;
            CheckResult.message := "Item not found in inventory";
            CheckResult.currentStock := 0 |}.
Proof. by vm_compute. Qed.
End CheckStock.

(** ** updateStock *)

Section UpdateStock.
Import InventoryService.

(** [updateStock] on an item that exists: the write, then the
    publication, then (if that returned) the log line. *)
Lemma updateStock_run s productCode q i d :
  InventoryRepository.findOne productCode (ledger s) = Some (i, d) →
  updateStock productCode q s
  = (publishStockUpdateEvent
       {| StockUpdateEvent.eventType :=
            if q >? Inventory.quantity d then STOCK_ADDED else STOCK_REDUCED;
          StockUpdateEvent.productCode := productCode;
          StockUpdateEvent.previousQuantity := Inventory.quantity d;
          StockUpdateEvent.newQuantity := q;
          StockUpdateEvent.timestamp := now s;
          StockUpdateEvent.productName := Some (Inventory.name d) |} ;;
     log LInfo ("Stock updated for item " +:+ Inventory.name d
                  +:+ ". New stock: " +:+ pretty q) ;;
     ret (Some (i, Inventory.set_quantity q d)))
      (set_ledger (<[i := Inventory.set_quantity q d]> (ledger s)) s).
Proof.
  intros Hfind.
  unfold updateStock, InventoryRepository.findItemById,
    InventoryRepository.updateStock.
  unfold bind at 1, gets at 1. cbn beta iota. rewrite Hfind. cbn beta iota.
  unfold bind at 1. cbn beta iota. rewrite Hfind. cbn beta iota.
  unfold bind at 1, gets at 1. cbn beta iota. done.
Qed.

(** C5.  When the item is in the ledger with prior quantity P,
    [updateStock code newQty] stores newQty and hands one event to the
    publisher, with previousQuantity = P and newQuantity = newQty, whose
    type is STOCK_ADDED when newQty > P and STOCK_REDUCED otherwise, in
    particular when newQty = P. *)
Theorem updateStock_event_type s productCode newQty i d :
  InventoryRepository.findOne productCode (ledger s) = Some (i, d) →
  let previous := Inventory.quantity d in
  let s' := (updateStock productCode newQty s).2 in
  ledger s' = <[i := Inventory.set_quantity newQty d]> (ledger s)
  ∧ InventoryRepository.findOne productCode (ledger s')
    = Some (i, Inventory.set_quantity newQty d)
  ∧ ∃ event,
      publishCalls (trace s')
      = publishCalls (trace s)
          ++ [(RabbitMQExchanges.INVENTORY, routingKeyOf event, MStockEvent event)]
      ∧ StockUpdateEvent.productCode event = productCode
      ∧ StockUpdateEvent.previousQuantity event = previous
      ∧ StockUpdateEvent.newQuantity event = newQty
      ∧ (newQty > previous → StockUpdateEvent.eventType event = STOCK_ADDED)
      ∧ (newQty <= previous → StockUpdateEvent.eventType event = STOCK_REDUCED)
      ∧ (newQty = previous → StockUpdateEvent.eventType event = STOCK_REDUCED).
Proof.
  intros Hfind previous s'. subst s'.
  rewrite (updateStock_run s productCode newQty i d Hfind).
  unfold Document in *.
  match goal with
  | |- context [bind (publishStockUpdateEvent ?ev) ?k ?s1] =>
      destruct (publishStockUpdateEvent_then ev k s1) as [Hl' Hp'];
        [intros; steps_transporting|];
        set (event := ev) in *
  end.
  rewrite Hl'. simpl.
  split; [done|]. split.
  { eapply findOne_insert_same; [done|].
    by apply findOne_lookup in Hfind as [_ ?]. }
  exists event. split; [by rewrite Hp'|].
  subst event previous. simpl.
  repeat split; intros; destruct (Z.gtb_spec newQty (Inventory.quantity d));
    done || lia.
Qed.

Lemma updateStock_event_type_witness :
  let s := Fixtures.connected [Fixtures.mockInventoryItem] Fixtures.healthy in
  (Inventory.quantity <$> ledger (updateStock "INV-123456789" 15 s).2 = [15]
   ∧ publishCalls (trace (updateStock "INV-123456789" 15 s).2)
     = [(RabbitMQExchanges.INVENTORY, "inventory.stock.stock_added",
         MStockEvent
           {| StockUpdateEvent.eventType := STOCK_ADDED;
              StockUpdateEvent.productCode := "INV-123456789";
              StockUpdateEvent.previousQuantity := 10;
              StockUpdateEvent.newQuantity := 15;
              StockUpdateEvent.timestamp := 1700000000000;
              StockUpdateEvent.productName := Some "Test Product" |})])
  ∧ ∃ event,
      publishCalls (trace (updateStock "INV-123456789" 10 s).2)
      = [(RabbitMQExchanges.INVENTORY, routingKeyOf event, MStockEvent event)]
      ∧ StockUpdateEvent.eventType event = STOCK_REDUCED.
Proof.
  intros s. split.
  - destruct (updateStock_event_type s "INV-123456789" 15 0
                Fixtures.mockInventoryItem) as (Hl & _ & _); [reflexivity|].
    split; [by rewrite Hl|by vm_compute].
  - destruct (updateStock_event_type s "INV-123456789" 10 0
                Fixtures.mockInventoryItem)
      as (_ & _ & event & Hp & _ & _ & _ & _ & _ & Heq); [reflexivity|].
    exists event. split; [exact Hp|]. by apply Heq.
Defined.
End UpdateStock.

(** ** Frame: only the quantity of the addressed item changes *)

Section Frame.
Import InventoryService.

Lemma quantity_only_refl i l : quantity_only i l l.
Proof. repeat split; try done. intros d Hd. by exists d. Qed.

Lemma quantity_only_insert i l d q :
  l !! i = Some d → quantity_only i l (<[i := Inventory.set_quantity q d]> l).
Proof.
  intros Hi. split; [apply length_insert|]. split.
  - intros j Hj. by apply list_lookup_insert_ne.
  - intros d0 Hd0. assert (d0 = d) as -> by congruence.
    exists (Inventory.set_quantity q d). split; [|done].
    apply list_lookup_insert_eq. by eapply lookup_lt_Some.
Qed.

Lemma updateStock_ledger s productCode q i d :
  InventoryRepository.findOne productCode (ledger s) = Some (i, d) →
  ledger (updateStock productCode q s).2
  = <[i := Inventory.set_quantity q d]> (ledger s).
Proof.
  intros Hfind. rewrite (updateStock_run s productCode q i d Hfind).
  unfold Document in *.
  match goal with
  | |- context [bind (publishStockUpdateEvent ?ev) ?k ?s1] =>
      destruct (publishStockUpdateEvent_then ev k s1) as [Hl _];
        [intros; steps_transporting|]
  end.
  by rewrite Hl.
Qed.

Lemma deductStock_ledger s productCode q i d :
  InventoryRepository.findOne productCode (ledger s) = Some (i, d) →
  ledger (deductStock productCode q s).2
  = if decide (q ≤ Inventory.quantity d)
    then <[i := Inventory.set_quantity (Inventory.quantity d - q) d]> (ledger s)
    else ledger s.
Proof.
  intros Hfind. case_decide.
  - rewrite (deductStock_sufficient_run s productCode q i d Hfind) by lia.
    by destruct (publishStockUpdateEvent_emits
                   {| StockUpdateEvent.eventType := STOCK_REDUCED;
                      StockUpdateEvent.productCode := productCode;
                      StockUpdateEvent.previousQuantity := Inventory.quantity d;
                      StockUpdateEvent.newQuantity := Inventory.quantity d - q;
                      StockUpdateEvent.timestamp := now s;
                      StockUpdateEvent.productName := Some (Inventory.name d) |}
                   (set_ledger
                      (<[i := Inventory.set_quantity (Inventory.quantity d - q) d]>
                         (ledger s))
                      (record (ELog LInfo
                                 ("Fetched stock for item " +:+ Inventory.name d
                                    +:+ ": " +:+ Inventory.productCode d)) s)))
      as [-> _].
  - by rewrite (deductStock_insufficient_run s productCode q i d Hfind) by lia.
Qed.

(** C10.  When the item is in the ledger, [updateStock] and
    [deductStock] on its product code change nothing in the ledger but
    the quantity of that item: its productCode, name, description and
    price are the same, every other document is the same, and a lookup
    by any other product code gives what it gave before.  This holds for
    every outcome of the call, in particular for a successful one. *)
Theorem stock_mutation_frame s productCode q i d :
  InventoryRepository.findOne productCode (ledger s) = Some (i, d) →
  ∀ l',
    l' = ledger (updateStock productCode q s).2
    ∨ l' = ledger (deductStock productCode q s).2 →
    (∃ d', l' !! i = Some d'
           ∧ Inventory.productCode d' = Inventory.productCode d
           ∧ Inventory.name d' = Inventory.name d
           ∧ Inventory.description d' = Inventory.description d
           ∧ Inventory.price d' = Inventory.price d)
    ∧ (∀ j, j ≠ i → l' !! j = ledger s !! j)
    ∧ length l' = length (ledger s)
    ∧ (∀ code', code' ≠ productCode →
         InventoryRepository.findOne code' l'
         = InventoryRepository.findOne code' (ledger s)).
Proof.
  intros Hfind l' Hl'.
  destruct (findOne_lookup _ _ _ _ Hfind) as [Hi Hcode].
  assert (l' = ledger s
          ∨ ∃ q', l' = <[i := Inventory.set_quantity q' d]> (ledger s))
    as [->|[q' ->]].
  { destruct Hl' as [->| ->].
    - right. eexists. by apply updateStock_ledger.
    - rewrite (deductStock_ledger s productCode q i d Hfind).
      case_decide; [right; by eexists|by left]. }
  - destruct (quantity_only_refl i (ledger s)) as (Hlen & Hother & Hsame).
    split; [by apply Hsame|]. done.
  - destruct (quantity_only_insert i (ledger s) d q' Hi)
      as (Hlen & Hother & Hsame).
    split; [by apply Hsame|]. split; [done|]. split; [done|].
    intros code' Hne. by eapply findOne_insert_other.
Qed.

Lemma stock_mutation_frame_witness :
  let s := Fixtures.connected [Fixtures.itemA; Fixtures.itemB] Fixtures.healthy in
  (updateStock "B" 3 s).1 = Ok (Some (1%nat, Inventory.set_quantity 3 Fixtures.itemB))
  ∧ ledger (updateStock "B" 3 s).2 !! 0%nat = Some Fixtures.itemA
  ∧ (deductStock "B" 3 s).1 = Ok tt
  ∧ ledger (deductStock "B" 3 s).2 !! 0%nat = Some Fixtures.itemA.
Proof.
  intros s.
  split; [by vm_compute|]. split.
  - destruct (stock_mutation_frame s "B" 3 1 Fixtures.itemB eq_refl
                (ledger (updateStock "B" 3 s).2)) as (_ & H & _); [by left|].
    by rewrite H.
  - split; [by vm_compute|].
    destruct (stock_mutation_frame s "B" 3 1 Fixtures.itemB eq_refl
                (ledger (deductStock "B" 3 s).2)) as (_ & H & _); [by right|].
    by rewrite H.
Defined.
End Frame.

(** ** Routing keys *)

Section Routing.
Import InventoryService.

(** C7 (as amended).  Every event that the orchestrator publishes goes
    to the exchange ["inventory.exchange"] under the routing key
    ["inventory.stock." + eventType.toLowerCase()], which is one of
    [inventory.stock.stock_added], [inventory.stock.stock_reduced] and
    [inventory.stock.stock_updated]: the lower-cased value of the enum
    member keeps its [stock_] prefix. *)
Theorem stock_event_routing_key event s :
  ∃ key,
    publishCalls (trace (publishStockUpdateEvent event s).2)
    = publishCalls (trace s) ++ [("inventory.exchange", key, MStockEvent event)]
    ∧ key = "inventory.stock."
              +:+ toLowerCase
                    (InventoryEventType_value (StockUpdateEvent.eventType event))
    ∧ key ∈ ["inventory.stock.stock_added";
             "inventory.stock.stock_reduced";
             "inventory.stock.stock_updated"].
Proof.
  exists (routingKeyOf event).
  split; [apply publishStockUpdateEvent_emits|]. split; [done|].
  unfold routingKeyOf. destruct (StockUpdateEvent.eventType event); simpl;
    set_solver.
Qed.

(** C7 as stated fails: the event of a deduction is published under
    [inventory.stock.stock_reduced], which is none of
    [inventory.stock.added], [inventory.stock.reduced],
    [inventory.stock.updated]. *)
Lemma stock_event_routing_key_counterexample :
  let s := Fixtures.connected [Fixtures.mockInventoryItem] Fixtures.healthy in
  ∃ exchange key message,
    publishCalls (trace (deductStock "INV-123456789" 5 s).2)
    = [(exchange, key, message)]
    ∧ key = "inventory.stock.stock_reduced"
    ∧ ¬ key ∈ ["inventory.stock.added";
               "inventory.stock.reduced";
               "inventory.stock.updated"].
Proof.
  eexists _, _, _. split; [by vm_compute|]. split; [done|].
  rewrite !elem_of_cons, elem_of_nil. intros [?|[?|[?|[]]]]; discriminate.
Qed.
End Routing.

(** ** Connection retries *)

Section Retry.
Import RabbitMQService.

Lemma connectAttempts_app t1 t2 :
  connectAttempts (t1 ++ t2) = connectAttempts t1 ++ connectAttempts t2.
Proof. apply omap_app. Qed.

Lemma delays_app t1 t2 : delays (t1 ++ t2) = delays t1 ++ delays t2.
Proof. apply omap_app. Qed.

(** A call of [connect()] that the broker does not let through. *)
Lemma connect_rejected s :
  connectOutcome (broker s) (connects s) ≠ Established →
  ∃ e s1,
    connect s = (Throw e, s1)
    ∧ connects s1 = S (connects s)
    ∧ trace s1
      = trace s ++ [EConnect (connects s) (connectOutcome (broker s) (connects s))]
    ∧ broker s1 = broker s
    ∧ isConnecting s1 = isConnecting s.
Proof.
  intros Hne. unfold connect.
  destruct (connectOutcome (broker s) (connects s)) as [e|e|e|]; [..|done];
    by eexists _, _.
Qed.

(** With a broker that lets no connection through, [connectWithRetry]
    started at [retryCount] calls [connect()] once per value of
    [retryCount .. maxRetries], both ends included, and sleeps between
    two calls. *)
Lemma connectWithRetry_rejected retryCount s :
  isConnecting s = false →
  (∀ j, connectOutcome (broker s) j ≠ Established) →
  (retryCount ≤ maxRetries)%nat →
  let s' := (connectWithRetry retryCount s).2 in
  length (connectAttempts (trace s'))
  = (length (connectAttempts (trace s)) + (maxRetries - retryCount + 1))%nat
  ∧ delays (trace s')
    = delays (trace s) ++ replicate (maxRetries - retryCount) retryDelay
  ∧ isConnecting s' = false
  ∧ broker s' = broker s.
Proof.
  revert s.
  apply (connectWithRetry_elim
           (λ n m, ∀ s,
              isConnecting s = false →
              (∀ j, connectOutcome (broker s) j ≠ Established) →
              (n ≤ maxRetries)%nat →
              let s' := (m s).2 in
              length (connectAttempts (trace s'))
              = (length (connectAttempts (trace s)) + (maxRetries - n + 1))%nat
              ∧ delays (trace s')
                = delays (trace s) ++ replicate (maxRetries - n) retryDelay
              ∧ isConnecting s' = false
              ∧ broker s' = broker s)).
  clear retryCount. intros n IH s Hidle Hrej Hn. rewrite Hidle.
  destruct (connect_rejected (set_isConnecting true s) (Hrej _))
    as (e & s1 & -> & Hc1 & Ht1 & Hb1 & _).
  cbv zeta. destruct (decide (n < maxRetries)%nat) as [Hlt|Hge].
  - unfold sleep, modify.
    match goal with
    | |- context [connectWithRetry _ ?s2] =>
        specialize (IH s1 (Throw e) s1 e Hlt (Ok tt) s2 s2)
          as (IH1 & IH2 & IH3 & IH4)
    end; [done| |lia|].
    { intros j. simpl. rewrite Hb1. apply Hrej. }
    cbn beta iota in *.
    rewrite IH1, IH2, IH3, IH4. simpl. rewrite Ht1. simpl.
    rewrite !connectAttempts_app, !delays_app, !length_app. simpl.
    rewrite !app_nil_r.
    replace (maxRetries - n)%nat with (S (maxRetries - (n + 1)))%nat by lia.
    simpl. rewrite <- !app_assoc. simpl.
    repeat split; try done. lia.
  - assert (n = maxRetries) as -> by lia.
    unfold bind, log, emit, modify. simpl. rewrite Ht1. simpl.
    rewrite !connectAttempts_app, !delays_app, !length_app. simpl.
    rewrite !app_nil_r. repeat split; try done. lia.
Qed.

(** C8.  What the code does when every call of [connect()] fails:
    started by [connectWithRetry()] with no attempt in flight, it calls
    [connect()] six times, with five delays of 5000 ms in between, and
    then stops with [isConnecting] reset.  The last failure is logged as
    ["... (Attempt 6/5)"] followed by ["Failed to connect after 5
    attempts"].  Nothing connects again until [publish] or [subscribe]
    finds no channel and calls [connectWithRetry()] itself. *)
Theorem connectWithRetry_attempt_count s :
  isConnecting s = false →
  (∀ j, connectOutcome (broker s) j ≠ Established) →
  let s' := (connectWithRetry 0 s).2 in
  (connectWithRetry 0 s).1 = Ok tt
  ∧ length (connectAttempts (trace s'))
    = (length (connectAttempts (trace s)) + 6)%nat
  ∧ delays (trace s') = delays (trace s) ++ [5000; 5000; 5000; 5000; 5000]
  ∧ isConnecting s' = false.
Proof.
  intros Hidle Hrej s'.
  split; [apply connectWithRetry_connecting|].
  destruct (connectWithRetry_rejected 0 s Hidle Hrej) as (H1 & H2 & H3 & _);
    [unfold maxRetries; lia|].
  done.
Qed.

Lemma connectWithRetry_attempt_count_witness :
  let s := Fixtures.fresh [] Fixtures.unreachable in
  let s' := (connectWithRetry 0 s).2 in
  (length (connectAttempts (trace s')) = 6%nat
   ∧ delays (trace s') = [5000; 5000; 5000; 5000; 5000])
  ∧ channel s' = None
  ∧ logLines (trace s')
    = [(LError, "Failed to connect to RabbitMQ (Attempt 1/5)");
       (LError, "Failed to connect to RabbitMQ (Attempt 2/5)");
       (LError, "Failed to connect to RabbitMQ (Attempt 3/5)");
       (LError, "Failed to connect to RabbitMQ (Attempt 4/5)");
       (LError, "Failed to connect to RabbitMQ (Attempt 5/5)");
       (LError, "Failed to connect to RabbitMQ (Attempt 6/5)");
       (LError, "Failed to connect after 5 attempts")]
  ∧ (publish "inventory.exchange" "inventory.stock.stock_added"
       (MStockEvent
          {| StockUpdateEvent.eventType := STOCK_ADDED;
             StockUpdateEvent.productCode := "INV-123456789";
             StockUpdateEvent.previousQuantity := 0;
             StockUpdateEvent.newQuantity := 10;
             StockUpdateEvent.timestamp := 1700000000000;
             StockUpdateEvent.productName := Some "Test Product" |}) s').1
    = Throw (Error "RabbitMQ channel is not initialized")
  ∧ length
      (connectAttempts
         (trace
            (publish "inventory.exchange" "inventory.stock.stock_added"
               (MStockEvent
                  {| StockUpdateEvent.eventType := STOCK_ADDED;
                     StockUpdateEvent.productCode := "INV-123456789";
                     StockUpdateEvent.previousQuantity := 0;
                     StockUpdateEvent.newQuantity := 10;
                     StockUpdateEvent.timestamp := 1700000000000;
                     StockUpdateEvent.productName := Some "Test Product" |}) s').2))
    = 12%nat.
Proof.
  intros s s'. split; [|by vm_compute].
  destruct (connectWithRetry_attempt_count s) as (_ & H1 & H2 & _);
    [reflexivity|by intros j|].
  split; [exact H1|exact H2].
Defined.
End Retry.

(** ** Failure policy of the publisher *)

Section FailurePolicy.
Import RabbitMQService InventoryService.

Lemma logLines_app t1 t2 : logLines (t1 ++ t2) = logLines t1 ++ logLines t2.
Proof. apply omap_app. Qed.

(** [publish] is the record of the call, the check for a channel (with
    a connection attempt when there is none) and the attempt proper. *)
Lemma publish_cases exchange routingKey message s :
  publish exchange routingKey message s
  = let s0 := record (EPublishCall exchange routingKey message) s in
    match channel s with
    | Some _ => publishAttempt exchange routingKey message s0
    | None =>
        let s1 :=
          (connectWithRetry 0
             (record (ELog LWarn
                "RabbitMQ channel not available, attempting to reconnect...")
                s0)).2 in
        match channel s1 with
        | Some _ => publishAttempt exchange routingKey message s1
        | None => (Throw (Error "RabbitMQ channel is not initialized"), s1)
        end
    end.
Proof.
  unfold publish. rewrite bind_emit, bind_bind, bind_gets.
  cbn [channel record]. cbv zeta.
  destruct (channel s) as [ch|]; [by rewrite bind_ret|].
  rewrite bind_bind, bind_log, bind_bind. unfold bind at 1.
  destruct (connectWithRetry_connecting 0
              (record (ELog LWarn
                 "RabbitMQ channel not available, attempting to reconnect...")
                 (record (EPublishCall exchange routingKey message) s)))
    as [Hok _].
  destruct (connectWithRetry 0 _) as [r s1]. cbn [fst snd] in *. subst r.
  rewrite bind_bind, bind_gets. by destruct (channel s1).
Qed.

(** The attempt when the first [channel.publish] throws: the failure is
    logged, [handleReconnect] runs once, and one more [channel.publish]
    of the same message decides the result. *)
Lemma publishAttempt_rejected s exchange routingKey message e1 :
  is_Some (channel s) →
  publishOutcome (broker s) (publishes s) = Some e1 →
  let retry := publishOutcome (broker s) (S (publishes s)) in
  let s' := (publishAttempt exchange routingKey message s).2 in
  cleanups (trace s') = S (cleanups (trace s))
  ∧ channelPublishes (trace s')
    = channelPublishes (trace s)
        ++ [(exchange, routingKey, message, None, Some e1);
            (exchange, routingKey, message, None, retry)]
  ∧ (publishAttempt exchange routingKey message s).1
    = match retry with Some e2 => Throw e2 | None => Ok tt end.
Proof.
  intros Hch Hrej retry s'. subst s'.
  assert (∃ s3,
            publishAttempt exchange routingKey message s
            = channelPublish exchange routingKey message None s3
            ∧ connecting
                (record (ECleanup (channel s) (connection s))
                   (record (ELog LError
                              ("Failed to publish message to " +:+ exchange))
                      (record (EChannelPublish exchange routingKey message None
                                 (Some e1))
                         (set_publishes (S (publishes s)) s))))
                s3) as (s3 & -> & [_ Hp Hb Hc (t & Ht & Hsilent)]).
  { unfold publishAttempt, tryCatch. unfold bind at 1.
    rewrite channelPublish_assigned by done. rewrite Hrej, bind_log.
    match goal with
    | |- context [bind handleReconnect ?k ?s2] =>
        destruct (handleReconnect_spec s2) as (s3 & Hs3 & Hc);
          unfold bind at 1; rewrite Hs3
    end.
    rewrite bind_gets. cbn [channel connection record set_publishes] in Hc.
    exists s3. split; [|exact Hc].
    by destruct (cg_channel _ _ Hc) as [ch3 ->]. }
  rewrite channelPublish_assigned by (by apply Hc).
  rewrite Hp, Hb. cbn [broker publishes record set_publishes]. fold retry.
  destruct (connecting_silent t Hsilent) as (_ & Hcp & Hcl).
  cbn [fst snd trace record set_publishes]. rewrite Ht.
  cbn [trace record set_publishes].
  rewrite !cleanups_app, !channelPublishes_app, Hcl, Hcp.
  split; [|split].
  - unfold cleanups. cbn [omap list_omap length]. lia.
  - unfold channelPublishes. cbn [omap list_omap].
    by rewrite !app_nil_r, <- app_assoc.
  - by destruct retry.
Qed.

(** What the orchestrator does with an exception of [publish]. *)
Lemma publishStockUpdateEvent_rethrows event s e s1 :
  publish RabbitMQExchanges.INVENTORY (routingKeyOf event) (MStockEvent event) s
  = (Throw e, s1) →
  publishStockUpdateEvent event s
  = (Throw e,
     record (ELog LError ("Failed to publish stock update event: "
                            +:+ Exn_message e)) s1).
Proof.
  intros H. unfold publishStockUpdateEvent, tryCatch. unfold bind at 1.
  unfold routingKeyOf in H. by rewrite H.
Qed.

(** C6.  Take a publisher whose next [channel.publish] throws.  Every
    publish call then goes one of two ways.  Either there is no channel
    and none can be connected: the call throws ["RabbitMQ channel is not
    initialized"] and [channel.publish] is never reached.  Or the
    underlying publish is reached and throws: [cleanup()] runs exactly
    once (one reconnect), the channel sees exactly two publish calls, the
    failed one and one retry with the same exchange, routing key and
    message, and the call returns what the retry returns, so a failure of
    the retry reaches the caller.  Whatever [publish] throws,
    [publishStockUpdateEvent] logs it as ["Failed to publish stock update
    event: ..."] and throws it again; when the retry throws, so do
    [updateStock] and [deductStock], which called it. *)
Theorem publish_failure_policy s e1 :
  publishOutcome (broker s) (publishes s) = Some e1 →
  let retry := publishOutcome (broker s) (S (publishes s)) in
  (∀ exchange routingKey message,
     let s' := (publish exchange routingKey message s).2 in
     (channel s = None
      ∧ (publish exchange routingKey message s).1
        = Throw (Error "RabbitMQ channel is not initialized")
      ∧ cleanups (trace s') = cleanups (trace s)
      ∧ channelPublishes (trace s') = channelPublishes (trace s))
     ∨ (cleanups (trace s') = S (cleanups (trace s))
        ∧ channelPublishes (trace s')
          = channelPublishes (trace s)
              ++ [(exchange, routingKey, message, None, Some e1);
                  (exchange, routingKey, message, None, retry)]
        ∧ (publish exchange routingKey message s).1
          = match retry with Some e2 => Throw e2 | None => Ok tt end))
  ∧ (∀ event e s1,
       publish RabbitMQExchanges.INVENTORY (routingKeyOf event)
         (MStockEvent event) s = (Throw e, s1) →
       publishStockUpdateEvent event s
       = (Throw e,
          record (ELog LError ("Failed to publish stock update event: "
                                 +:+ Exn_message e)) s1))
  ∧ (is_Some (channel s) →
     ∀ e2, retry = Some e2 →
       ∀ productCode q i d,
         InventoryRepository.findOne productCode (ledger s) = Some (i, d) →
         (updateStock productCode q s).1 = Throw e2
         ∧ (Inventory.quantity d >= q →
            (deductStock productCode q s).1 = Throw e2)).
Proof.
  intros Hrej retry.
  assert (∀ s0 exchange routingKey message,
            publishes s0 = publishes s →
            broker s0 = broker s →
            let s' := (publish exchange routingKey message s0).2 in
            (channel s0 = None
             ∧ (publish exchange routingKey message s0).1
               = Throw (Error "RabbitMQ channel is not initialized")
             ∧ cleanups (trace s') = cleanups (trace s0)
             ∧ channelPublishes (trace s') = channelPublishes (trace s0))
            ∨ (cleanups (trace s') = S (cleanups (trace s0))
               ∧ channelPublishes (trace s')
                 = channelPublishes (trace s0)
                     ++ [(exchange, routingKey, message, None, Some e1);
                         (exchange, routingKey, message, None, retry)]
               ∧ (publish exchange routingKey message s0).1
                 = match retry with Some e2 => Throw e2 | None => Ok tt end))
    as Hpublisher.
  { intros s0 exchange routingKey message Hp0 Hb0 s'. subst s'.
    rewrite publish_cases. cbv zeta.
    destruct (channel s0) as [ch|] eqn:Hch0.
    - right.
      destruct (publishAttempt_rejected
                  (record (EPublishCall exchange routingKey message) s0)
                  exchange routingKey message e1) as (H1 & H2 & H3);
        [by exists ch|by rewrite <- Hb0, <- Hp0 in Hrej|].
      cbn [broker publishes trace record] in H1, H2, H3.
      rewrite Hb0, Hp0 in H2, H3. fold retry in H2, H3.
      rewrite H1, H2, H3, cleanups_app, channelPublishes_app.
      unfold cleanups, channelPublishes. cbn [omap list_omap length].
      rewrite app_nil_r. split; [lia|done].
    - destruct (connectWithRetry_connecting 0
                  (record (ELog LWarn
                     "RabbitMQ channel not available, attempting to reconnect...")
                     (record (EPublishCall exchange routingKey message) s0)))
        as [_ [_ Hp Hb _ (t & Ht & Hsilent)]].
      destruct (connecting_silent t Hsilent) as (_ & Hcp & Hcl).
      cbn [broker publishes trace record] in Hp, Hb, Ht.
      destruct (channel (connectWithRetry 0 _).2) as [ch|] eqn:Hch1.
      + right.
        destruct (publishAttempt_rejected
                    (connectWithRetry 0
                       (record (ELog LWarn
                          "RabbitMQ channel not available, attempting to reconnect...")
                          (record (EPublishCall exchange routingKey message) s0))).2
                    exchange routingKey message e1) as (H1 & H2 & H3);
          [by exists ch|by rewrite Hb, Hp, Hb0, Hp0|].
        rewrite Hb, Hp, Hb0, Hp0 in H2, H3. fold retry in H2, H3.
        rewrite H1, H2, H3, Ht, !cleanups_app, !channelPublishes_app, Hcl, Hcp.
        unfold cleanups, channelPublishes. cbn [omap list_omap length].
        rewrite !app_nil_r. split; [lia|done].
      + left. cbn [fst snd]. rewrite Ht.
        rewrite !cleanups_app, !channelPublishes_app, Hcl, Hcp.
        unfold cleanups, channelPublishes. cbn [omap list_omap length].
        rewrite !app_nil_r. repeat split; try done. lia. }
  split; [intros; by apply Hpublisher|].
  split; [intros event e s1; apply publishStockUpdateEvent_rethrows|].
  intros Hch e2 He2.
  assert (∀ s0 event,
            is_Some (channel s0) →
            publishes s0 = publishes s →
            broker s0 = broker s →
            (publishStockUpdateEvent event s0).1 = Throw e2)
    as Horchestrator.
  { intros s0 event [ch Hch0] Hp0 Hb0.
    destruct (Hpublisher s0 RabbitMQExchanges.INVENTORY (routingKeyOf event)
                (MStockEvent event) Hp0 Hb0) as [(Hnone & _)|(_ & _ & Hr)];
      [congruence|].
    rewrite He2 in Hr.
    destruct (publish RabbitMQExchanges.INVENTORY (routingKeyOf event)
                (MStockEvent event) s0) as [r s1] eqn:Hpub.
    cbn [fst] in Hr. subst r.
    by rewrite (publishStockUpdateEvent_rethrows event s0 e2 s1 Hpub). }
  intros productCode q i d Hfind. split.
  - rewrite (updateStock_run s productCode q i d Hfind).
    unfold bind at 1.
    match goal with
    | |- context [publishStockUpdateEvent ?ev ?s0] =>
        pose proof (Horchestrator s0 ev Hch eq_refl eq_refl) as Hthrow;
          destruct (publishStockUpdateEvent ev s0) as [r s1]
    end.
    cbn [fst] in Hthrow. by subst r.
  - intros Hge.
    rewrite (deductStock_sufficient_run s productCode q i d Hfind Hge).
    match goal with
    | |- context [publishStockUpdateEvent ?ev ?s0] =>
        exact (Horchestrator s0 ev Hch eq_refl eq_refl)
    end.
Qed.

Lemma publish_failure_policy_witness :
  let s := Fixtures.connected [Fixtures.mockInventoryItem] Fixtures.unreachable in
  (deductStock "INV-123456789" 5 s).1 = Throw (BrokerError "Channel closed")
  ∧ Inventory.quantity <$> ledger (deductStock "INV-123456789" 5 s).2 = [5]
  ∧ cleanups (trace (deductStock "INV-123456789" 5 s).2) = 1%nat
  ∧ length (channelPublishes (trace (deductStock "INV-123456789" 5 s).2)) = 2%nat
  ∧ last (logLines (trace (deductStock "INV-123456789" 5 s).2))
    = Some (LError, "Failed to publish stock update event: Channel closed").
Proof.
  intros s.
  split; [|by vm_compute].
  destruct (publish_failure_policy s (BrokerError "Channel closed"))
    as (_ & _ & H); [reflexivity|].
  destruct (H (ltac:(by eexists)) (BrokerError "Channel closed") eq_refl
              "INV-123456789" 5 0%nat Fixtures.mockInventoryItem eq_refl)
    as (_ & Hd).
  apply Hd. cbn [Inventory.quantity Fixtures.mockInventoryItem]. lia.
Defined.
End FailurePolicy.

(** ** The consumers *)

Section Responders.
Import RabbitMQService InventoryService Consumers.

Lemma checkStock_connecting productCode q :
  steps connecting (checkStock productCode q).
Proof.
  intros s. rewrite checkStock_run. cbn [snd].
  destruct (InventoryRepository.findOne productCode (ledger s));
    [apply connecting_refl|by apply connecting_record].
Qed.

(** The upfront pass of both consumers: one [checkStock] per item, in
    request order, each against the same ledger. *)
Lemma promiseAll_checkStock {B} (f : StockCheckItem.t → CheckResult.t → B)
    items s :
  ∃ s',
    promiseAll
      (map (λ item,
              bind (checkStock (StockCheckItem.productCode item)
                               (StockCheckItem.quantity item))
                   (λ result, ret (f item result)))
           items) s
    = (Ok (map (λ item,
                  f item (stockCheckOf (ledger s)
                            (StockCheckItem.productCode item)
                            (StockCheckItem.quantity item)))
               items), s')
    ∧ connecting s s'.
Proof.
  revert s. induction items as [|item items IH]; intros s.
  - exists s. split; [done|apply connecting_refl].
  - cbn [map promiseAll]. unfold bind at 1. rewrite checkStock_run.
    cbn beta iota.
    unfold ret at 1.
    pose proof (checkStock_connecting (StockCheckItem.productCode item)
                  (StockCheckItem.quantity item) s) as Hc.
    rewrite checkStock_run in Hc. cbn [snd] in Hc.
    destruct (IH (match InventoryRepository.findOne
                          (StockCheckItem.productCode item) (ledger s) with
                  | Some _ => s
                  | None => record (ELog LInfo ("Stock check failed: Product "
                                      +:+ StockCheckItem.productCode item
                                      +:+ " not found")) s
                  end)) as (s' & -> & Hc').
    exists s'. rewrite (cg_ledger _ _ Hc). split; [done|].
    by eapply connecting_trans.
Qed.

Lemma forallb_map_false {A B} (f : A → B) (g : B → bool) (l : list A) x :
  x ∈ l → g (f x) = false → forallb g (map f l) = false.
Proof.
  intros Hx Hg. induction l as [|y l IH]; [by apply elem_of_nil in Hx|].
  apply elem_of_cons in Hx as [<-|Hx]; simpl.
  - by rewrite Hg.
  - rewrite IH by done. apply andb_false_r.
Qed.

(** The stock-deduct consumer on a batch with an unavailable item: the
    checks, the log line of the [catch] block, the error reply and, when
    the channel took the reply, the acknowledgement. *)
Lemma onStockDeduct_rejected_run s msg items item :
  content msg = Batch items →
  is_Some (channel s) →
  item ∈ items →
  CheckResult.available
    (stockCheckOf (ledger s) (StockCheckItem.productCode item)
       (StockCheckItem.quantity item)) = false →
  ∃ s1,
    connecting s s1
    ∧ onStockDeduct (Some msg) s
      = let o := publishOutcome (broker s) (publishes s) in
        let s2 :=
          record
            (EChannelPublish "" (replyTo msg)
               (MStockDeductResponse
                  {| StockDeductResponse.success := false;
                     StockDeductResponse.message :=
                       "Some items are not available in requested quantity";
                     StockDeductResponse.deductions := None |})
               (Some (correlationId msg)) o)
            (set_publishes (S (publishes s))
               (record (ELog LError "Error processing stock deduction") s1)) in
        match o with
        | Some e => (Throw e, s2)
        | None => (Ok tt, record (EAck msg) s2)
        end.
Proof.
  intros Hcontent Hch Hin Hna.
  unfold onStockDeduct. rewrite Hcontent. unfold tryCatch. unfold bind at 1.
  pose proof (promiseAll_checkStock
                (λ item check,
                   {| DeductCheck.productCode := StockCheckItem.productCode item;
                      DeductCheck.quantity := StockCheckItem.quantity item;
                      DeductCheck.available := CheckResult.available check;
                      DeductCheck.currentStock := CheckResult.currentStock check |})
                items s) as (s1 & Hrun & Hconn).
  cbn beta in Hrun. rewrite Hrun. clear Hrun.
  exists s1. split; [done|].
  destruct Hconn as [Hl Hp Hb Hc _].
  match goal with
  | |- context [forallb DeductCheck.available (map ?f items)] =>
      rewrite (forallb_map_false f DeductCheck.available items item Hin Hna)
  end.
  cbn [negb]. rewrite bind_throw, bind_log.
  unfold bind at 1. rewrite channelPublish_assigned by (by apply Hc).
  cbn [broker publishes record]. rewrite Hb, Hp.
  by destruct (publishOutcome (broker s) (publishes s)).
Qed.

(** C4.  When the upfront check of the stock-deduct consumer finds at
    least one item of the batch unavailable, no document of the ledger is
    changed, no stock event is published, and the one reply handed to
    the channel, addressed to [replyTo] with the request's
    [correlationId], is [{success: false, message: "Some items are not
    available in requested quantity"}]. *)
Theorem onStockDeduct_all_or_nothing s msg items :
  content msg = Batch items →
  is_Some (channel s) →
  (∃ item r,
     item ∈ items
     ∧ (checkStock (StockCheckItem.productCode item)
                   (StockCheckItem.quantity item) s).1 = Ok r
     ∧ CheckResult.available r = false) →
  let s' := (onStockDeduct (Some msg) s).2 in
  ledger s' = ledger s
  ∧ publishCalls (trace s') = publishCalls (trace s)
  ∧ channelPublishes (trace s')
    = channelPublishes (trace s)
        ++ [("", replyTo msg,
             MStockDeductResponse
               {| StockDeductResponse.success := false;
                  StockDeductResponse.message :=
                    "Some items are not available in requested quantity";
                  StockDeductResponse.deductions := None |},
             Some (correlationId msg),
             publishOutcome (broker s) (publishes s))].
Proof.
  intros Hcontent Hch (item & r & Hin & Hr & Hna) s'. subst s'.
  rewrite checkStock_run in Hr. cbn [fst] in Hr. injection Hr as <-.
  destruct (onStockDeduct_rejected_run s msg items item Hcontent Hch Hin Hna)
    as (s1 & [Hl _ _ _ (t & Ht & Hsilent)] & ->).
  destruct (connecting_silent t Hsilent) as (Hpc & Hcp & _).
  cbv zeta.
  destruct (publishOutcome (broker s) (publishes s)) as [e|];
    cbn [snd ledger trace record set_publishes];
    rewrite Ht, Hl, !publishCalls_app, !channelPublishes_app, Hpc, Hcp;
    cbn [publishCalls channelPublishes omap];
    by rewrite !app_nil_r.
Qed.

Lemma onStockDeduct_all_or_nothing_witness :
  let s := Fixtures.connected [Fixtures.itemA; Fixtures.itemB] Fixtures.healthy in
  let msg := {| content := Batch [StockCheckItem.mk "A" 5; StockCheckItem.mk "B" 20];
                replyTo := "amq.gen-reply"; correlationId := "42" |} in
  ledger (onStockDeduct (Some msg) s).2 = [Fixtures.itemA; Fixtures.itemB]
  ∧ channelPublishes (trace (onStockDeduct (Some msg) s).2)
    = [("", "amq.gen-reply",
        MStockDeductResponse
          {| StockDeductResponse.success := false;
             StockDeductResponse.message :=
               "Some items are not available in requested quantity";
             StockDeductResponse.deductions := None |},
        Some "42", None)].
Proof.
  intros s msg.
  destruct (onStockDeduct_all_or_nothing s msg
              [StockCheckItem.mk "A" 5; StockCheckItem.mk "B" 20])
    as (Hl & _ & Hr); [reflexivity|by eexists| |by split].
  exists (StockCheckItem.mk "B" 20). eexists.
  split; [set_solver|]. split; [by vm_compute|reflexivity].
Defined.
End Responders.

Section StockCheckResponder.
Import RabbitMQService InventoryService Consumers.

(** The stock reported for a product code does not depend on the
    quantity asked for. *)
Lemma detailOf_currentStock l item item' :
  StockCheckItem.productCode item = StockCheckItem.productCode item' →
  CheckDetail.currentStock (detailOf l item)
  = CheckDetail.currentStock (detailOf l item').
Proof.
  intros Hcode. unfold detailOf, stockCheckOf. cbn [CheckDetail.currentStock].
  rewrite Hcode.
  by destruct (InventoryRepository.findOne _ l) as [[i d]|].
Qed.

(** The [reduce] that builds [availableStock]: a later entry for the same
    product code overwrites an earlier one, and all entries for one code
    carry the same stock.  The key ["__proto__"] is never stored. *)
Lemma availableStock_lookup l items item :
  item ∈ items →
  foldl (λ acc result,
           assign (CheckDetail.productCode result)
                  (CheckDetail.currentStock result) acc)
        (∅ : gmap string Z) (map (detailOf l) items)
    !! StockCheckItem.productCode item
  = if decide (StockCheckItem.productCode item = "__proto__") then None
    else Some (CheckDetail.currentStock (detailOf l item)).
Proof.
  induction items as [|last items IH] using rev_ind;
    [intros H; by apply elem_of_nil in H|].
  intros Hin. rewrite map_app, foldl_app. cbn [map foldl].
  unfold assign at 1. cbn [detailOf CheckDetail.productCode].
  destruct (decide (StockCheckItem.productCode last = "__proto__"))
    as [Hproto|Hown].
  - apply elem_of_app in Hin as [Hin|Hin]; [by apply IH|].
    apply list_elem_of_singleton in Hin. subst item.
    rewrite decide_True by done. rewrite Hproto. clear IH.
    induction items as [|first items IH] using rev_ind; [done|].
    rewrite map_app, foldl_app. cbn [map foldl]. unfold assign at 1.
    case_decide; [done|]. by rewrite lookup_insert_ne.
  - destruct (decide (StockCheckItem.productCode last
                      = StockCheckItem.productCode item)) as [Heq|Hne].
    + rewrite <- Heq, lookup_insert_eq, decide_False by done.
      f_equal. apply detailOf_currentStock. by rewrite Heq.
    + rewrite lookup_insert_ne by done. apply IH.
      apply elem_of_app in Hin as [Hin|Hin]; [done|].
      apply list_elem_of_singleton in Hin. by subst.
Qed.

(** The stock-check consumer on a well-formed batch, step by step: the
    checks, the aggregate reply and the acknowledgement; when the
    channel refuses the reply, the [catch] block logs, sends an error
    reply and acknowledges. *)
Lemma onStockCheck_run s msg items :
  content msg = Batch items →
  is_Some (channel s) →
  ∃ s1,
    connecting s s1
    ∧ onStockCheck (Some msg) s
      = let o := publishOutcome (broker s) (publishes s) in
        let s2 :=
          record
            (EChannelPublish "" (replyTo msg)
               (MStockCheckResponse
                  (stockCheckResponse (map (detailOf (ledger s)) items)))
               (Some (correlationId msg)) o)
            (set_publishes (S (publishes s)) s1) in
        match o with
        | None => (Ok tt, record (EAck msg) s2)
        | Some e =>
            let o' := publishOutcome (broker s) (S (publishes s)) in
            let s3 :=
              record
                (EChannelPublish "" (replyTo msg)
                   (MStockCheckResponse
                      {| StockCheckResponse.success := false;
                         StockCheckResponse.message := Exn_message e;
                         StockCheckResponse.availableStock := ∅;
                         StockCheckResponse.details := [] |})
                   (Some (correlationId msg)) o')
                (set_publishes (S (S (publishes s)))
                   (record (ELog LError "Error processing stock check request")
                      s2)) in
            match o' with
            | None => (Ok tt, record (EAck msg) s3)
            | Some e' => (Throw e', s3)
            end
        end.
Proof.
  intros Hcontent Hch.
  unfold onStockCheck. rewrite Hcontent. unfold tryCatch. unfold bind at 1.
  pose proof (promiseAll_checkStock
                (λ item result,
                   {| CheckDetail.productCode := StockCheckItem.productCode item;
                      CheckDetail.available := CheckResult.available result;
                      CheckDetail.message := CheckResult.message result;
                      CheckDetail.currentStock := CheckResult.currentStock result |})
                items s) as (s1 & Hrun & Hconn).
  cbn beta in Hrun. rewrite Hrun. clear Hrun.
  exists s1. split; [done|].
  destruct Hconn as [Hl Hp Hb Hc _].
  fold (detailOf (ledger s)).
  unfold bind at 1. rewrite channelPublish_assigned by (by apply Hc).
  rewrite Hb, Hp. cbv zeta.
  destruct (publishOutcome (broker s) (publishes s)) as [e|]; [|done].
  cbn beta iota. rewrite bind_log. unfold bind at 1.
  rewrite channelPublish_assigned by (by apply Hc).
  cbn [broker publishes record set_publishes]. rewrite Hb.
  by destruct (publishOutcome (broker s) (S (publishes s))).
Qed.

(** The first thing the consumer hands to the channel is the aggregate
    built from the per-item results. *)
Lemma onStockCheck_first_reply s msg items :
  content msg = Batch items →
  is_Some (channel s) →
  ∃ rest,
    channelPublishes (trace (onStockCheck (Some msg) s).2)
    = channelPublishes (trace s)
        ++ ("", replyTo msg,
            MStockCheckResponse
              (stockCheckResponse (map (detailOf (ledger s)) items)),
            Some (correlationId msg), publishOutcome (broker s) (publishes s))
           :: rest
    ∧ (publishOutcome (broker s) (publishes s) = None → rest = [])
    ∧ ledger (onStockCheck (Some msg) s).2 = ledger s.
Proof.
  intros Hcontent Hch.
  destruct (onStockCheck_run s msg items Hcontent Hch)
    as (s1 & [Hl _ _ _ (t & Ht & Hsilent)] & ->).
  destruct (connecting_silent t Hsilent) as (_ & Hcp & _).
  cbv zeta.
  destruct (publishOutcome (broker s) (publishes s)) as [e|].
  - destruct (publishOutcome (broker s) (S (publishes s))) as [e'|];
      eexists [_];
      cbn [snd ledger trace record set_publishes];
      rewrite Ht, Hl, !channelPublishes_app, Hcp;
      change (channelPublishes [EChannelPublish ?x ?k ?m ?c ?o])
        with [(x, k, m, c, o)];
      change (channelPublishes [ELog ?a ?b]) with (@nil (string * string * Message * option string * option Exn));
      change (channelPublishes [EAck ?a]) with (@nil (string * string * Message * option string * option Exn));
      rewrite !app_nil_r, <- !app_assoc; done.
  - exists [].
    cbn [snd ledger trace record set_publishes].
    rewrite Ht, Hl, !channelPublishes_app, Hcp.
    change (channelPublishes [EChannelPublish ?x ?k ?m ?c ?o])
      with [(x, k, m, c, o)].
    change (channelPublishes [EAck ?a]) with (@nil (string * string * Message * option string * option Exn)).
    by rewrite !app_nil_r.
Qed.

(** Each detail carries its item's product code and what [checkStock]
    returns for the item. *)
Lemma details_per_item s (stock : gmap string Z) items :
  (∀ item, item ∈ items →
     stock !! StockCheckItem.productCode item
     = if decide (StockCheckItem.productCode item = "__proto__") then None
       else Some (CheckDetail.currentStock (detailOf (ledger s) item))) →
  Forall2
    (λ item detail,
       CheckDetail.productCode detail = StockCheckItem.productCode item
       ∧ (checkStock (StockCheckItem.productCode item)
                     (StockCheckItem.quantity item) s).1
         = Ok {| CheckResult.available := CheckDetail.available detail;
                 CheckResult.message := CheckDetail.message detail;
                 CheckResult.currentStock := CheckDetail.currentStock detail |}
       ∧ stock !! StockCheckItem.productCode item
         = if decide (StockCheckItem.productCode item = "__proto__") then None
           else Some (CheckDetail.currentStock detail))
    items (map (detailOf (ledger s)) items).
Proof.
  induction items as [|item items IH]; intros Hstock; [constructor|].
  cbn [map]. constructor.
  - split; [done|]. split.
    + rewrite checkStock_run. cbn [fst detailOf CheckDetail.available
        CheckDetail.message CheckDetail.currentStock].
      by destruct (stockCheckOf _ _ _).
    + apply Hstock. by left.
  - apply IH. intros item' Hin. apply Hstock. by right.
Qed.

(** C9.  On a batch, the first reply that the stock-check consumer hands
    to the channel (the only one when the channel takes it) is addressed
    to [replyTo] with the request's [correlationId] and carries: one
    detail per item in request order, each with the item's product code
    and the result of [checkStock] for that item; [success], the
    conjunction of the details' [available]; [availableStock], which
    maps the product code of every item to the [currentStock] of its
    detail, except that an item whose product code is ["__proto__"] has
    no entry at all; and [message], ["All items in stock"] when all are
    available and otherwise the messages of exactly the unavailable
    details joined with ["; "].  The ledger is not changed. *)
Theorem onStockCheck_reply s msg items :
  content msg = Batch items →
  is_Some (channel s) →
  let s' := (onStockCheck (Some msg) s).2 in
  ∃ reply rest,
    channelPublishes (trace s')
    = channelPublishes (trace s)
        ++ ("", replyTo msg, MStockCheckResponse reply,
            Some (correlationId msg), publishOutcome (broker s) (publishes s))
           :: rest
    ∧ (publishOutcome (broker s) (publishes s) = None → rest = [])
    ∧ ledger s' = ledger s
    ∧ Forall2
        (λ item detail,
           CheckDetail.productCode detail = StockCheckItem.productCode item
           ∧ (checkStock (StockCheckItem.productCode item)
                         (StockCheckItem.quantity item) s).1
             = Ok {| CheckResult.available := CheckDetail.available detail;
                     CheckResult.message := CheckDetail.message detail;
                     CheckResult.currentStock := CheckDetail.currentStock detail |}
           ∧ StockCheckResponse.availableStock reply
               !! StockCheckItem.productCode item
             = if decide (StockCheckItem.productCode item = "__proto__")
               then None
               else Some (CheckDetail.currentStock detail))
        items (StockCheckResponse.details reply)
    ∧ StockCheckResponse.success reply
      = forallb CheckDetail.available (StockCheckResponse.details reply)
    ∧ StockCheckResponse.message reply
      = if StockCheckResponse.success reply
        then "All items in stock"
        else join "; "
               (map CheckDetail.message
                  (List.filter (λ detail, negb (CheckDetail.available detail))
                     (StockCheckResponse.details reply))).
Proof.
  intros Hcontent Hch s'. subst s'.
  destruct (onStockCheck_first_reply s msg items Hcontent Hch)
    as (rest & Hreply & Hrest & Hl).
  exists (stockCheckResponse (map (detailOf (ledger s)) items)), rest.
  split; [done|]. split; [done|]. split; [done|].
  split; [|done].
  cbn [stockCheckResponse StockCheckResponse.details
         StockCheckResponse.availableStock].
  apply details_per_item. intros item Hin.
  by apply availableStock_lookup.
Qed.

Lemma onStockCheck_reply_witness :
  let s := Fixtures.connected [Fixtures.itemA; Fixtures.itemB] Fixtures.healthy in
  let msg := {| content := Batch [StockCheckItem.mk "A" 5; StockCheckItem.mk "B" 20];
                replyTo := "amq.gen-reply"; correlationId := "42" |} in
  (∃ reply,
     channelPublishes (trace (onStockCheck (Some msg) s).2)
     = [("", "amq.gen-reply", MStockCheckResponse reply, Some "42", None)]
     ∧ StockCheckResponse.success reply = false
     ∧ StockCheckResponse.details reply
       = [ {| CheckDetail.productCode := "A";
              CheckDetail.available := true;
              CheckDetail.message := "Stock available";
              CheckDetail.currentStock := 10 |};
           {| CheckDetail.productCode := "B";
              CheckDetail.available := false;
              CheckDetail.message :=
                "Insufficient stock. Requested: 20, Available: 10";
              CheckDetail.currentStock := 10 |} ]
     ∧ StockCheckResponse.message reply
       = "Insufficient stock. Requested: 20, Available: 10"
     ∧ StockCheckResponse.availableStock reply !! "A" = Some 10
     ∧ StockCheckResponse.availableStock reply !! "B" = Some 10)
  ∧ ∃ reply rest,
      channelPublishes (trace (onStockCheck (Some msg) s).2)
      = ("", "amq.gen-reply", MStockCheckResponse reply, Some "42", None) :: rest
      ∧ rest = []
      ∧ StockCheckResponse.success reply
        = forallb CheckDetail.available (StockCheckResponse.details reply).
Proof.
  intros s msg. split.
  - eexists. split; [by vm_compute|]. by vm_compute.
  - destruct (onStockCheck_reply s msg
                [StockCheckItem.mk "A" 5; StockCheckItem.mk "B" 20])
      as (reply & rest & Hr & Hrest & _ & _ & Hs & _);
      [reflexivity|by eexists|].
    exists reply, rest. split; [exact Hr|]. split; [by apply Hrest|exact Hs].
Defined.

(** C9, the failing input.  A batch that asks for the product code
    ["__proto__"]: the reply lists the item among its details, with its
    current stock, and [availableStock] has no entry for it. *)
Lemma onStockCheck_reply_counterexample :
  let proto :=
    {| Inventory.productCode := "__proto__";
       Inventory.name := "Prototype";
       Inventory.description := "";
       Inventory.quantity := 3;
       Inventory.price := 1%Q |} in
  let s := Fixtures.connected [Fixtures.itemA; proto] Fixtures.healthy in
  let msg := {| content := Batch [StockCheckItem.mk "A" 5;
                                  StockCheckItem.mk "__proto__" 1];
                replyTo := "amq.gen-reply"; correlationId := "42" |} in
  ∃ reply,
    channelPublishes (trace (onStockCheck (Some msg) s).2)
    = [("", "amq.gen-reply", MStockCheckResponse reply, Some "42", None)]
    ∧ StockCheckResponse.success reply = true
    ∧ CheckDetail.currentStock <$> StockCheckResponse.details reply = [10; 3]
    ∧ StockCheckResponse.availableStock reply !! "A" = Some 10
    ∧ StockCheckResponse.availableStock reply !! "__proto__" = None
    ∧ ¬ (∀ item, item ∈ [StockCheckItem.mk "A" 5; StockCheckItem.mk "__proto__" 1] →
           is_Some (StockCheckResponse.availableStock reply
                      !! StockCheckItem.productCode item)).
Proof.
  intros proto s msg. eexists. split; [by vm_compute|].
  split; [by vm_compute|]. split; [by vm_compute|].
  split; [by vm_compute|]. split; [by vm_compute|].
  intros Hall. destruct (Hall (StockCheckItem.mk "__proto__" 1)) as [n Hn].
  { set_solver. }
  vm_compute in Hn. discriminate Hn.
Qed.
End StockCheckResponder.

(** * Further properties of the code

    Start-up, retries and reconnects; the outcome of a publication;
    product codes and [createItem]; what the two consumers do to the
    ledger, to the channel and to the delivery.  Statements about a
    batch do not depend on the order in which the callbacks of its
    [Promise.all] run: they speak of the ledger afterwards, of which
    events were published, and of what came before the
    acknowledgement. *)

(** ** Reading a trace effect by effect *)

Section TraceSteps.
Implicit Types (t : list Effect) (e : Effect).

Lemma connectAttempts_cons e t :
  connectAttempts (e :: t)
  = match e with
    | EConnect _ o => o :: connectAttempts t
    | _ => connectAttempts t
    end.
Proof. by destruct e. Qed.

Lemma delays_cons e t :
  delays (e :: t)
  = match e with EDelay ms => ms :: delays t | _ => delays t end.
Proof. by destruct e. Qed.

Lemma publishCalls_cons e t :
  publishCalls (e :: t)
  = match e with
    | EPublishCall x k m => (x, k, m) :: publishCalls t
    | _ => publishCalls t
    end.
Proof. by destruct e. Qed.

Lemma channelPublishes_cons e t :
  channelPublishes (e :: t)
  = match e with
    | EChannelPublish x k m c o => (x, k, m, c, o) :: channelPublishes t
    | _ => channelPublishes t
    end.
Proof. by destruct e. Qed.

Lemma cleanups_cons e t :
  cleanups (e :: t)
  = match e with ECleanup _ _ => S (cleanups t) | _ => cleanups t end.
Proof. by destruct e. Qed.
End TraceSteps.

(** ** Equality of states *)

Lemma State_ext s1 s2 :
  ledger s1 = ledger s2 →
  connection s1 = connection s2 →
  channel s1 = channel s2 →
  isConnecting s1 = isConnecting s2 →
  now s1 = now s2 →
  connects s1 = connects s2 →
  publishes s1 = publishes s2 →
  trace s1 = trace s2 →
  broker s1 = broker s2 →
  s1 = s2.
Proof. destruct s1, s2. cbn. congruence. Qed.

Ltac state_fields :=
  cbn [ledger connection channel isConnecting now connects publishes trace
         broker record set_ledger set_handles set_isConnecting set_now
         set_connects set_publishes].

(** ** More on connecting *)

Section Connecting.
Import RabbitMQService.

(** One round of [connectWithRetry] that the broker lets through. *)
Lemma connectWithRetry_established retryCount s :
  isConnecting s = false →
  connectOutcome (broker s) (connects s) = Established →
  connectWithRetry retryCount s
  = (Ok tt,
     mkState (ledger s) (Some (connects s)) (Some (connects s)) false (now s)
       (S (connects s)) (publishes s)
       (trace s ++ [EConnect (connects s) Established;
                    ELog LInfo "RabbitMQ connection established successfully"])
       (broker s)).
Proof.
  intros Hidle Hok. rewrite connectWithRetry_equation_1, Hidle.
  unfold connect. cbn [broker connects set_isConnecting]. rewrite Hok.
  unfold bind, log, emit, modify. cbn [fst snd]. f_equal.
  apply State_ext; state_fields; try reflexivity.
  by rewrite <- !app_assoc.
Qed.

(** One round that the broker refuses, with a retry left: the failure
    is logged, the delay passes and the next round starts. *)
Lemma connectWithRetry_refused retryCount s :
  isConnecting s = false →
  connectOutcome (broker s) (connects s) ≠ Established →
  (retryCount < maxRetries)%nat →
  ∃ conn ch,
    connectWithRetry retryCount s
    = connectWithRetry (retryCount + 1)
        (mkState (ledger s) conn ch false (now s + retryDelay)
           (S (connects s)) (publishes s)
           (trace s ++ [EConnect (connects s)
                          (connectOutcome (broker s) (connects s));
                        ELog LError
                          ("Failed to connect to RabbitMQ (Attempt "
                             +:+ pretty (retryCount + 1)%nat +:+ "/"
                             +:+ pretty maxRetries +:+ ")");
                        EDelay retryDelay])
           (broker s)).
Proof.
  intros Hidle Hrej Hlt. rewrite connectWithRetry_equation_1, Hidle.
  unfold connect. cbn [broker connects set_isConnecting].
  destruct (connectOutcome (broker s) (connects s)) as [e|e|e|]; [..|done].
  - cbv zeta. destruct (decide (retryCount < maxRetries)%nat); [|lia].
    eexists _, _. f_equal. unfold sleep, modify. cbn [snd].
    apply State_ext; state_fields; try reflexivity.
    by rewrite <- !app_assoc.
  - cbv zeta. destruct (decide (retryCount < maxRetries)%nat); [|lia].
    eexists _, _. f_equal. unfold sleep, modify. cbn [snd].
    apply State_ext; state_fields; try reflexivity.
    by rewrite <- !app_assoc.
  - cbv zeta. destruct (decide (retryCount < maxRetries)%nat); [|lia].
    eexists _, _. f_equal. unfold sleep, modify. cbn [snd].
    apply State_ext; state_fields; try reflexivity.
    by rewrite <- !app_assoc.
Qed.

(** [connectWithRetry] started at [retryCount] when the broker refuses
    [k] calls and lets the next one through, with [retryCount + k] within
    the retry budget. *)
Lemma connectWithRetry_succeeds_after k : ∀ retryCount s,
  isConnecting s = false →
  (retryCount + k ≤ maxRetries)%nat →
  (∀ j, (j < k)%nat → connectOutcome (broker s) (connects s + j) ≠ Established) →
  connectOutcome (broker s) (connects s + k) = Established →
  let s' := (connectWithRetry retryCount s).2 in
  (connectWithRetry retryCount s).1 = Ok tt
  ∧ connectAttempts (trace s')
    = connectAttempts (trace s)
        ++ map (λ j, connectOutcome (broker s) (connects s + j)) (seq 0 (S k))
  ∧ delays (trace s') = delays (trace s) ++ replicate k retryDelay
  ∧ channel s' = Some (connects s + k)%nat
  ∧ connection s' = Some (connects s + k)%nat
  ∧ isConnecting s' = false
  ∧ now s' = now s + retryDelay * Z.of_nat k
  ∧ ledger s' = ledger s
  ∧ publishes s' = publishes s
  ∧ broker s' = broker s.
Proof.
  induction k as [|k IH]; intros retryCount s Hidle Hn Hrej Hok s'; subst s'.
  - rewrite Nat.add_0_r in Hok.
    rewrite (connectWithRetry_established retryCount s Hidle Hok).
    cbn [fst snd ledger connection channel isConnecting now connects publishes
           trace broker].
    rewrite connectAttempts_app, delays_app, !connectAttempts_cons, !delays_cons.
    cbn [seq map replicate]. rewrite Nat.add_0_r, Hok, !app_nil_r.
    repeat split; try done. lia.
  - destruct (connectWithRetry_refused retryCount s Hidle) as (conn & ch & ->);
      [|lia|].
    { specialize (Hrej 0%nat). rewrite Nat.add_0_r in Hrej. apply Hrej. lia. }
    match goal with
    | |- context [connectWithRetry _ ?s2] =>
        destruct (IH (retryCount + 1)%nat s2)
          as (H0 & H1 & H2 & H3 & H4 & H5 & H6 & H7 & H8 & H9)
    end; cbn [ledger connection channel isConnecting now connects publishes
                trace broker] in *.
    + done.
    + lia.
    + intros j Hj.
      replace (S (connects s) + j)%nat with (connects s + S j)%nat by lia.
      apply Hrej. lia.
    + by replace (S (connects s) + k)%nat with (connects s + S k)%nat by lia.
    + rewrite H0, H1, H2, H3, H4, H5, H6, H7, H8, H9.
      rewrite !connectAttempts_app, !delays_app,
        !connectAttempts_cons, !delays_cons.
      cbn beta iota.
      replace (S (connects s) + k)%nat with (connects s + S k)%nat by lia.
      repeat split; try done.
      * rewrite <- app_assoc. f_equal.
        change (seq 0 (S (S k))) with (0%nat :: seq 1 (S k)).
        rewrite <- seq_shift, map_cons, map_map, Nat.add_0_r.
        cbn [connectAttempts omap list_omap app]. f_equal.
        apply map_ext. intros j.
        by replace (S (connects s) + j)%nat with (connects s + S j)%nat by lia.
      * rewrite <- app_assoc. f_equal.
      * lia.
Qed.

Lemma established_or_not (o : ConnectOutcome) :
  o = Established ∨ o ≠ Established.
Proof. destruct o; (by left) || (by right). Qed.

(** The last round: the broker refuses and no retry is left. *)
Lemma connectWithRetry_exhausted retryCount s :
  isConnecting s = false →
  connectOutcome (broker s) (connects s) ≠ Established →
  ¬ (retryCount < maxRetries)%nat →
  ∃ conn ch,
    (is_Some (channel s) → is_Some ch)
    ∧ connectWithRetry retryCount s
      = (Ok tt,
         mkState (ledger s) conn ch false (now s)
           (S (connects s)) (publishes s)
           (trace s ++ [EConnect (connects s)
                          (connectOutcome (broker s) (connects s));
                        ELog LError
                          ("Failed to connect to RabbitMQ (Attempt "
                             +:+ pretty (retryCount + 1)%nat +:+ "/"
                             +:+ pretty maxRetries +:+ ")");
                        ELog LError ("Failed to connect after "
                                       +:+ pretty maxRetries +:+ " attempts")])
           (broker s)).
Proof.
  intros Hidle Hrej Hge. rewrite connectWithRetry_equation_1, Hidle.
  unfold connect. cbn [broker connects set_isConnecting].
  destruct (connectOutcome (broker s) (connects s)) as [e|e|e|]; [..|done].
  - cbv zeta. destruct (decide (retryCount < maxRetries)%nat); [done|].
    eexists _, _. split; [|unfold bind, log, emit, modify; cbn [fst snd]; f_equal;
      apply State_ext; state_fields; try reflexivity; by rewrite <- !app_assoc].
    done.
  - cbv zeta. destruct (decide (retryCount < maxRetries)%nat); [done|].
    eexists _, _. split; [|unfold bind, log, emit, modify; cbn [fst snd]; f_equal;
      apply State_ext; state_fields; try reflexivity; by rewrite <- !app_assoc].
    done.
  - cbv zeta. destruct (decide (retryCount < maxRetries)%nat); [done|].
    eexists _, _. split; [|unfold bind, log, emit, modify; cbn [fst snd]; f_equal;
      apply State_ext; state_fields; try reflexivity; by rewrite <- !app_assoc].
    by eexists.
Qed.

(** Whatever the broker does, one run of [connectWithRetry] makes at
    least one and at most [maxRetries - retryCount + 1] calls of
    [connect()] when no attempt is in flight, sleeps once between two
    calls, and hands the flag back reset. *)
Lemma connectWithRetry_budget m : ∀ retryCount s,
  (maxRetries - retryCount)%nat = m →
  isConnecting s = false →
  ∃ outcomes,
    connectAttempts (trace (connectWithRetry retryCount s).2)
    = connectAttempts (trace s) ++ outcomes
    ∧ (1 ≤ length outcomes ≤ S m)%nat
    ∧ delays (trace (connectWithRetry retryCount s).2)
      = delays (trace s) ++ replicate (length outcomes - 1) retryDelay
    ∧ Forall (λ o, o ≠ Established) (removelast outcomes)
    ∧ isConnecting (connectWithRetry retryCount s).2 = false.
Proof.
  induction m as [|m IH]; intros retryCount s Hm Hidle;
    destruct (established_or_not (connectOutcome (broker s) (connects s)))
      as [Hok|Hrej].
  - rewrite (connectWithRetry_established retryCount s Hidle Hok).
    exists [Established]. cbn [snd trace isConnecting].
    rewrite connectAttempts_app, delays_app, !connectAttempts_cons, !delays_cons.
    cbn [length replicate removelast Nat.sub]. rewrite !app_nil_r.
    repeat split; try done; lia.
  - destruct (connectWithRetry_exhausted retryCount s Hidle Hrej)
      as (conn & ch & _ & ->); [lia|].
    exists [connectOutcome (broker s) (connects s)]. cbn [snd trace isConnecting].
    rewrite connectAttempts_app, delays_app, !connectAttempts_cons, !delays_cons.
    cbn [length replicate removelast Nat.sub]. rewrite !app_nil_r.
    repeat split; try done; lia.
  - rewrite (connectWithRetry_established retryCount s Hidle Hok).
    exists [Established]. cbn [snd trace isConnecting].
    rewrite connectAttempts_app, delays_app, !connectAttempts_cons, !delays_cons.
    cbn [length replicate removelast Nat.sub]. rewrite !app_nil_r.
    repeat split; try done; lia.
  - destruct (connectWithRetry_refused retryCount s Hidle Hrej)
      as (conn & ch & ->); [lia|].
    match goal with
    | |- context [connectWithRetry _ ?s2] =>
        destruct (IH (retryCount + 1)%nat s2)
          as (outcomes & H1 & H2 & H3 & H4 & H5); [lia|done|]
    end.
    cbn [trace] in H1, H3.
    exists (connectOutcome (broker s) (connects s) :: outcomes).
    rewrite H1, H3, H5.
    rewrite !connectAttempts_app, !delays_app,
      !connectAttempts_cons, !delays_cons.
    cbn beta iota. cbn [length].
    split; [by rewrite <- app_assoc|]. split; [lia|]. split; [|split; [|done]].
    + rewrite <- app_assoc. f_equal.
      destruct outcomes as [|o outcomes]; [cbn in H2; lia|].
      cbn [length Nat.sub]. rewrite Nat.sub_0_r.
      by cbn [connectAttempts delays omap list_omap app replicate].
    + destruct outcomes as [|o outcomes]; [cbn in H2; lia|].
      change (removelast (?a :: o :: outcomes))
        with (a :: removelast (o :: outcomes)).
      by constructor.
Qed.
End Connecting.

(** ** What one publish call does, in every case *)

Section PublishOutcome.
Import RabbitMQService InventoryService.

Lemma publishAttempt_transporting x k m : steps transporting (publishAttempt x k m).
Proof. unfold publishAttempt. steps_transporting. Qed.

(** The attempt when the channel takes the message at once. *)
Lemma publishAttempt_accepted s exchange routingKey message :
  is_Some (channel s) →
  publishOutcome (broker s) (publishes s) = None →
  publishAttempt exchange routingKey message s
  = (Ok tt,
     record (ELog LInfo ("Published message to " +:+ exchange
                           +:+ " with routing key " +:+ routingKey))
       (record (EChannelPublish exchange routingKey message None None)
          (set_publishes (S (publishes s)) s))).
Proof.
  intros Hch Hok. unfold publishAttempt, tryCatch. unfold bind at 1.
  rewrite channelPublish_assigned by done. by rewrite Hok.
Qed.

(** The calls of [channel.publish] that one publish attempt makes: one,
    or two when the first one throws; the attempt returns exactly when
    the last of them was taken; one reconnect runs between two calls. *)
Lemma publishAttempt_outcome s exchange routingKey message :
  is_Some (channel s) →
  ∃ attempts,
    channelPublishes (trace (publishAttempt exchange routingKey message s).2)
    = channelPublishes (trace s) ++ attempts
    ∧ (1 ≤ length attempts ≤ 2)%nat
    ∧ Forall (λ a, a.1 = (exchange, routingKey, message, None)) attempts
    ∧ ((publishAttempt exchange routingKey message s).1 = Ok tt
       ↔ snd <$> last attempts = Some None)
    ∧ cleanups (trace (publishAttempt exchange routingKey message s).2)
      = (cleanups (trace s) + (length attempts - 1))%nat.
Proof.
  intros Hch.
  destruct (publishOutcome (broker s) (publishes s)) as [e1|] eqn:Hfirst.
  - destruct (publishAttempt_rejected s exchange routingKey message e1 Hch Hfirst)
      as (Hcl & Hcp & Hr).
    eexists. split; [exact Hcp|]. cbn [length Nat.sub].
    split; [lia|]. split; [by repeat constructor|].
    split; [|rewrite Hcl; lia].
    rewrite Hr. cbn [last fmap option_fmap option_map snd].
    destruct (publishOutcome (broker s) (S (publishes s))); split;
      intros H; done || congruence.
  - rewrite (publishAttempt_accepted s exchange routingKey message Hch Hfirst).
    exists [(exchange, routingKey, message, None, None)].
    cbn [fst snd trace record set_publishes].
    rewrite !channelPublishes_app, !cleanups_app, !channelPublishes_cons,
      !cleanups_cons. cbn beta iota.
    change (channelPublishes []) with
      (@nil (string * string * Message * option string * option Exn)).
    change (cleanups []) with 0%nat.
    rewrite !app_nil_r. cbn [length Nat.sub].
    split; [done|]. split; [lia|]. split; [by repeat constructor|].
    split; [done|lia].
Qed.

(** The same for a whole publish call, which may find no channel. *)
Lemma publish_attempts s exchange routingKey message :
  ledger (publish exchange routingKey message s).2 = ledger s
  ∧ publishCalls (trace (publish exchange routingKey message s).2)
    = publishCalls (trace s) ++ [(exchange, routingKey, message)]
  ∧ ∃ attempts,
      channelPublishes (trace (publish exchange routingKey message s).2)
      = channelPublishes (trace s) ++ attempts
      ∧ (length attempts ≤ 2)%nat
      ∧ Forall (λ a, a.1 = (exchange, routingKey, message, None)) attempts
      ∧ ((publish exchange routingKey message s).1 = Ok tt
         ↔ snd <$> last attempts = Some None)
      ∧ cleanups (trace (publish exchange routingKey message s).2)
        = (cleanups (trace s) + (length attempts - 1))%nat
      ∧ (attempts = [] →
         channel s = None
         ∧ (publish exchange routingKey message s).1
           = Throw (Error "RabbitMQ channel is not initialized")).
Proof.
  pose proof (publish_transporting exchange routingKey message s) as Ht.
  split; [apply Ht|]. split.
  { apply transporting_publishCalls in Ht. rewrite Ht.
    cbn [trace record]. rewrite publishCalls_app, publishCalls_cons. done. }
  clear Ht. rewrite publish_cases. cbv zeta.
  destruct (channel s) as [ch|] eqn:Hch.
  - destruct (publishAttempt_outcome
                (record (EPublishCall exchange routingKey message) s)
                exchange routingKey message) as (attempts & H1 & H2 & H3 & H4 & H5);
      [by exists ch|].
    cbn [trace record] in H1, H5.
    rewrite channelPublishes_app, channelPublishes_cons in H1.
    rewrite cleanups_app, cleanups_cons in H5. cbn beta iota in H1, H5.
    change (channelPublishes []) with
      (@nil (string * string * Message * option string * option Exn)) in H1.
    change (cleanups []) with 0%nat in H5.
    rewrite app_nil_r in H1. rewrite Nat.add_0_r in H5.
    exists attempts.
    split; [done|]. split; [lia|]. split; [done|]. split; [done|].
    split; [done|]. intros ->. cbn in H2. lia.
  - destruct (connectWithRetry_connecting 0
                (record (ELog LWarn
                   "RabbitMQ channel not available, attempting to reconnect...")
                   (record (EPublishCall exchange routingKey message) s)))
      as [_ [_ _ _ _ (t & Ht & Hsilent)]].
    destruct (connecting_silent t Hsilent) as (_ & Hcp & Hcl).
    cbn [trace record] in Ht.
    assert (channelPublishes
              (trace (connectWithRetry 0
                 (record (ELog LWarn
                    "RabbitMQ channel not available, attempting to reconnect...")
                    (record (EPublishCall exchange routingKey message) s))).2)
            = channelPublishes (trace s)) as Hcp1.
    { rewrite Ht, !channelPublishes_app, Hcp, !channelPublishes_cons.
      cbn beta iota.
      change (channelPublishes []) with
        (@nil (string * string * Message * option string * option Exn)).
      by rewrite !app_nil_r. }
    assert (cleanups
              (trace (connectWithRetry 0
                 (record (ELog LWarn
                    "RabbitMQ channel not available, attempting to reconnect...")
                    (record (EPublishCall exchange routingKey message) s))).2)
            = cleanups (trace s)) as Hcl1.
    { rewrite Ht, !cleanups_app, Hcl, !cleanups_cons. cbn beta iota.
      change (cleanups []) with 0%nat. lia. }
    destruct (channel (connectWithRetry 0 _).2) as [ch|] eqn:Hch1.
    + destruct (publishAttempt_outcome
                  (connectWithRetry 0
                     (record (ELog LWarn
                        "RabbitMQ channel not available, attempting to reconnect...")
                        (record (EPublishCall exchange routingKey message) s))).2
                  exchange routingKey message)
        as (attempts & H1 & H2 & H3 & H4 & H5); [by exists ch|].
      rewrite Hcp1 in H1. rewrite Hcl1 in H5.
      exists attempts.
      split; [done|]. split; [lia|]. split; [done|]. split; [done|].
      split; [done|]. intros ->. cbn in H2. lia.
    + exists []. cbn [fst snd length Nat.sub last fmap option_fmap option_map].
      rewrite Hcp1, Hcl1, app_nil_r, Nat.add_0_r.
      split; [done|]. split; [lia|]. split; [constructor|].
      split; [split; intros; discriminate|]. done.
Qed.
End PublishOutcome.

(** ** Success of a mutation means the event was taken *)

Section Delivered.
Import RabbitMQService InventoryService.

(** [publishStockUpdateEvent] is [publish] followed by one log line. *)
Lemma publishStockUpdateEvent_run event s :
  publishStockUpdateEvent event s
  = match publish RabbitMQExchanges.INVENTORY (routingKeyOf event)
            (MStockEvent event) s with
    | (Ok _, s1) =>
        (Ok tt,
         record (ELog LInfo
                   ("Published "
                      +:+ InventoryEventType_value (StockUpdateEvent.eventType event)
                      +:+ " event for product "
                      +:+ StockUpdateEvent.productCode event)) s1)
    | (Throw e, s1) =>
        (Throw e,
         record (ELog LError ("Failed to publish stock update event: "
                                +:+ Exn_message e)) s1)
    end.
Proof.
  unfold publishStockUpdateEvent, tryCatch, routingKeyOf. unfold bind at 1.
  cbv zeta. by destruct (publish _ _ _ s) as [[[]|e] s1].
Qed.

(** When [publishStockUpdateEvent] returns, the last thing the channel
    saw is the event, and the channel took it. *)
Lemma publishStockUpdateEvent_delivered_last event s :
  (publishStockUpdateEvent event s).1 = Ok tt →
  last (channelPublishes (trace (publishStockUpdateEvent event s).2))
  = Some (RabbitMQExchanges.INVENTORY, routingKeyOf event, MStockEvent event,
          None, None).
Proof.
  rewrite publishStockUpdateEvent_run.
  destruct (publish_attempts s RabbitMQExchanges.INVENTORY (routingKeyOf event)
              (MStockEvent event))
    as (_ & _ & attempts & Hcp & _ & Hall & Hok & _).
  destruct (publish RabbitMQExchanges.INVENTORY (routingKeyOf event)
              (MStockEvent event) s) as [[[]|e] s1]; cbn [fst snd] in *;
    [|discriminate].
  intros _. cbn [trace record].
  rewrite channelPublishes_app, channelPublishes_cons. cbn beta iota.
  change (channelPublishes []) with
    (@nil (string * string * Message * option string * option Exn)).
  rewrite app_nil_r, Hcp, last_app.
  destruct Hok as [Hok _]. specialize (Hok eq_refl).
  destruct (last attempts) as [[a o]|] eqn:Hlast; [|done].
  cbn in Hok. injection Hok as ->.
  apply last_Some in Hlast as (l' & ->).
  apply Forall_app in Hall as [_ Hall]. inversion_clear Hall as [|? ? Ha _].
  cbn in Ha. by subst a.
Qed.

(** The missing-item paths. *)
Lemma getItem_missing productCode s :
  InventoryRepository.findOne productCode (ledger s) = None →
  getItem productCode s = (Throw (NotFoundException "Item not found"), s).
Proof.
  intros H. unfold getItem, InventoryRepository.findItemById.
  rewrite bind_gets. by rewrite H.
Qed.

Lemma updateStock_missing productCode q s :
  InventoryRepository.findOne productCode (ledger s) = None →
  updateStock productCode q s = (Throw (NotFoundException "Item not found"), s).
Proof.
  intros H. unfold updateStock, InventoryRepository.findItemById.
  rewrite bind_gets. by rewrite H.
Qed.

Lemma deductStock_missing productCode q s :
  InventoryRepository.findOne productCode (ledger s) = None →
  deductStock productCode q s = (Throw (NotFoundException "Item not found"), s).
Proof.
  intros H. unfold deductStock. unfold bind at 1.
  by rewrite (getItem_missing productCode s H).
Qed.

(** X1.  [getItem], [updateStock] and [deductStock] on a product code
    that is not in the ledger throw [NotFoundException("Item not
    found")] and leave the whole state as it was: nothing is written,
    logged or published.  ([deductStock] never reaches its own
    ["Item not found in inventory"].) *)
Theorem missing_item_not_found productCode q s :
  InventoryRepository.findOne productCode (ledger s) = None →
  getItem productCode s = (Throw (NotFoundException "Item not found"), s)
  ∧ updateStock productCode q s
    = (Throw (NotFoundException "Item not found"), s)
  ∧ deductStock productCode q s
    = (Throw (NotFoundException "Item not found"), s).
Proof.
  intros H. split; [by apply getItem_missing|].
  split; [by apply updateStock_missing|by apply deductStock_missing].
Qed.

Lemma missing_item_not_found_witness :
  let s := Fixtures.connected [Fixtures.mockInventoryItem] Fixtures.healthy in
  deductStock "INV-999999999" 5 s
  = (Throw (NotFoundException "Item not found"), s).
Proof.
  intros s.
  by destruct (missing_item_not_found "INV-999999999" 5 s eq_refl) as (_ & _ & H).
Defined.


End Delivered.

(** ** Start-up, retries and reconnects *)

Section Lifecycle.
Import RabbitMQService.

(** X3.  Start-up stops at the first connection that the broker lets
    through: when [onModuleInit] runs with no attempt in flight, the
    broker refuses the next [k] calls of [connect()] (k at most 5) and
    accepts the one after, exactly [k + 1] calls are made, [k] delays of
    5000 ms pass, and the service ends up with the connection and channel
    of the accepted call and [isConnecting] reset. *)
Theorem onModuleInit_first_success s k :
  isConnecting s = false →
  (k ≤ 5)%nat →
  (∀ j, (j < k)%nat → connectOutcome (broker s) (connects s + j) ≠ Established) →
  connectOutcome (broker s) (connects s + k) = Established →
  let s' := (onModuleInit s).2 in
  (onModuleInit s).1 = Ok tt
  ∧ connectAttempts (trace s')
    = connectAttempts (trace s)
        ++ map (λ j, connectOutcome (broker s) (connects s + j)) (seq 0 (S k))
  ∧ delays (trace s') = delays (trace s) ++ replicate k 5000
  ∧ channel s' = Some (connects s + k)%nat
  ∧ connection s' = Some (connects s + k)%nat
  ∧ isConnecting s' = false
  ∧ now s' = now s + 5000 * Z.of_nat k.
Proof.
  intros Hidle Hk Hrej Hok s'. subst s'. unfold onModuleInit.
  destruct (connectWithRetry_succeeds_after k 0 s Hidle) as
    (H0 & H1 & H2 & H3 & H4 & H5 & H6 & _); [done..|].
  done.
Qed.

Lemma onModuleInit_first_success_witness :
  let s := Fixtures.fresh [] MoreFixtures.recovering in
  (onModuleInit s).1 = Ok tt
  ∧ length (connectAttempts (trace (onModuleInit s).2)) = 3%nat
  ∧ delays (trace (onModuleInit s).2) = [5000; 5000]
  ∧ channel (onModuleInit s).2 = Some 2%nat.
Proof.
  intros s.
  destruct (onModuleInit_first_success s 2) as (H0 & H1 & H2 & H3 & _);
    [reflexivity|lia| |reflexivity|].
  { intros j Hj. destruct j as [|[|j]]; [discriminate..|lia]. }
  split; [exact H0|]. split; [by rewrite H1|]. split; [exact H2|exact H3].
Defined.

(** X4.  The retry budget holds against every broker.  A run of
    [connectWithRetry(retryCount)] never throws; with an attempt already
    in flight it does nothing at all; otherwise it calls [connect()] at
    least once and at most [maxRetries - retryCount + 1] times, every
    call but the last one having failed, sleeps 5000 ms between two
    calls and nowhere else, and leaves [isConnecting] reset. *)
Theorem connectWithRetry_retry_budget retryCount s :
  (connectWithRetry retryCount s).1 = Ok tt
  ∧ (isConnecting s = true → (connectWithRetry retryCount s).2 = s)
  ∧ (isConnecting s = false →
     ∃ outcomes,
       connectAttempts (trace (connectWithRetry retryCount s).2)
       = connectAttempts (trace s) ++ outcomes
       ∧ (1 ≤ length outcomes ≤ S (maxRetries - retryCount))%nat
       ∧ Forall (λ o, o ≠ Established) (removelast outcomes)
       ∧ delays (trace (connectWithRetry retryCount s).2)
         = delays (trace s) ++ replicate (length outcomes - 1) 5000
       ∧ isConnecting (connectWithRetry retryCount s).2 = false).
Proof.
  split; [apply connectWithRetry_connecting|]. split.
  - intros Hbusy. by rewrite connectWithRetry_equation_1, Hbusy.
  - intros Hidle.
    destruct (connectWithRetry_budget (maxRetries - retryCount) retryCount s
                eq_refl Hidle) as (outcomes & H1 & H2 & H3 & H4 & H5).
    by exists outcomes.
Qed.

Lemma connectWithRetry_retry_budget_witness :
  let s := Fixtures.fresh [] MoreFixtures.recovering in
  ∃ outcomes,
    connectAttempts (trace (connectWithRetry 0 s).2) = outcomes
    ∧ (1 ≤ length outcomes ≤ 6)%nat.
Proof.
  intros s.
  destruct (connectWithRetry_retry_budget 0 s) as (_ & _ & H).
  destruct (H eq_refl) as (outcomes & H1 & H2 & _).
  exists outcomes. split; [exact H1|exact H2].
Defined.

(** [handleReconnect] is [cleanup()] and then [connectWithRetry()]. *)
Lemma handleReconnect_run s :
  handleReconnect s
  = (Ok tt,
     (connectWithRetry 0 (record (ECleanup (channel s) (connection s)) s)).2).
Proof.
  unfold handleReconnect, tryCatch, bind, cleanup, emit, modify.
  cbn beta iota.
  destruct (connectWithRetry_connecting 0
              (record (ECleanup (channel s) (connection s)) s)) as [H _].
  by destruct (connectWithRetry 0 _) as [[[]|e] s']; [|discriminate].
Qed.

(** X5.  A reconnect never throws and never loses the channel: for every
    state and broker [handleReconnect] returns; its first effect is the
    one [cleanup()] of the handles it found, followed by at most 6 calls
    of [connect()]; it publishes nothing, does not touch the ledger, and
    a channel that was assigned is still assigned afterwards (possibly
    the old, closed one). *)
Theorem handleReconnect_effects s :
  ∃ t,
    (handleReconnect s).1 = Ok tt
    ∧ trace (handleReconnect s).2
      = trace s ++ ECleanup (channel s) (connection s) :: t
    ∧ cleanups t = 0%nat
    ∧ (length (connectAttempts t) ≤ 6)%nat
    ∧ publishCalls t = [] ∧ channelPublishes t = []
    ∧ ledger (handleReconnect s).2 = ledger s
    ∧ (is_Some (channel s) → is_Some (channel (handleReconnect s).2)).
Proof.
  rewrite handleReconnect_run. cbn [fst snd].
  destruct (connectWithRetry_connecting 0
              (record (ECleanup (channel s) (connection s)) s))
    as [_ [Hl _ _ Hch (t & Ht & Hsilent)]].
  destruct (connecting_silent t Hsilent) as (Hpc & Hcp & Hcl).
  exists t. cbn [trace record ledger channel] in *.
  split; [done|]. split; [by rewrite Ht, <- app_assoc|].
  split; [done|]. split; [|done].
  destruct (isConnecting s) eqn:Hflag.
  - rewrite connectWithRetry_equation_1 in Ht. cbn [isConnecting record] in Ht.
    rewrite Hflag in Ht. cbn [snd trace record] in Ht.
    assert (t = []) as ->.
    { apply (app_inv_head (trace s ++ [ECleanup (channel s) (connection s)])).
      by rewrite app_nil_r. }
    cbn. lia.
  - destruct (connectWithRetry_budget maxRetries 0
                (record (ECleanup (channel s) (connection s)) s) eq_refl Hflag)
      as (outcomes & H1 & H2 & _).
    rewrite Ht in H1. cbn [trace record] in H1.
    rewrite connectAttempts_app in H1. apply app_inv_head in H1.
    rewrite H1. unfold maxRetries in H2. lia.
Qed.
End Lifecycle.

(** ** Publishing *)

Section PublishCalls.
Import RabbitMQService.

(** X6.  What one call of [publish] can do, whatever the state and the
    broker: it never touches the ledger; it calls [channel.publish] at
    most twice, always with its own exchange, routing key and message;
    it returns normally exactly when the last of these calls was taken by
    the channel, so a success is never reported for a message the channel
    did not take; a reconnect runs exactly when there are two calls; and
    no call at all happens only when there was no channel and none could
    be connected, which surfaces as ["RabbitMQ channel is not
    initialized"]. *)
Theorem publish_outcome s exchange routingKey message :
  ledger (publish exchange routingKey message s).2 = ledger s
  ∧ ∃ attempts,
      channelPublishes (trace (publish exchange routingKey message s).2)
      = channelPublishes (trace s) ++ attempts
      ∧ (length attempts ≤ 2)%nat
      ∧ Forall (λ a, a.1 = (exchange, routingKey, message, None)) attempts
      ∧ ((publish exchange routingKey message s).1 = Ok tt
         ↔ snd <$> last attempts = Some None)
      ∧ cleanups (trace (publish exchange routingKey message s).2)
        = (cleanups (trace s) + (length attempts - 1))%nat
      ∧ (attempts = [] →
         channel s = None
         ∧ (publish exchange routingKey message s).1
           = Throw (Error "RabbitMQ channel is not initialized")).
Proof.
  destruct (publish_attempts s exchange routingKey message) as (Hl & _ & H).
  split; [exact Hl|exact H].
Qed.

Lemma publish_outcome_witness :
  let s := Fixtures.connected [] MoreFixtures.hiccup in
  let message :=
    MStockEvent
      {| StockUpdateEvent.eventType := STOCK_ADDED;
         StockUpdateEvent.productCode := "INV-123456789";
         StockUpdateEvent.previousQuantity := 0;
         StockUpdateEvent.newQuantity := 10;
         StockUpdateEvent.timestamp := 1700000000000;
         StockUpdateEvent.productName := Some "Test Product" |} in
  ((publish "inventory.exchange" "inventory.stock.stock_added" message s).1
   = Ok tt
   ∧ channelPublishes
       (trace (publish "inventory.exchange" "inventory.stock.stock_added"
                 message s).2)
     = [("inventory.exchange", "inventory.stock.stock_added", message, None,
         Some (BrokerError "Channel closed"));
        ("inventory.exchange", "inventory.stock.stock_added", message, None,
         None)])
  ∧ ∃ attempts,
      channelPublishes
        (trace (publish "inventory.exchange" "inventory.stock.stock_added"
                  message s).2)
      = attempts
      ∧ (length attempts ≤ 2)%nat.
Proof.
  intros s message. split; [by vm_compute|].
  destruct (publish_outcome s "inventory.exchange"
              "inventory.stock.stock_added" message)
    as (_ & attempts & H1 & H2 & _).
  exists attempts. split; [exact H1|exact H2].
Defined.

(** X7.  [publish] connects on demand: with no channel, no attempt in
    flight, a broker that accepts the next connection and a channel that
    takes the message, the call makes exactly one call of [connect()],
    no delay, one [channel.publish], and returns with the new channel
    assigned. *)
Theorem publish_connects_on_demand s exchange routingKey message :
  channel s = None →
  isConnecting s = false →
  connectOutcome (broker s) (connects s) = Established →
  publishOutcome (broker s) (publishes s) = None →
  let s' := (publish exchange routingKey message s).2 in
  (publish exchange routingKey message s).1 = Ok tt
  ∧ connectAttempts (trace s') = connectAttempts (trace s) ++ [Established]
  ∧ delays (trace s') = delays (trace s)
  ∧ channelPublishes (trace s')
    = channelPublishes (trace s) ++ [(exchange, routingKey, message, None, None)]
  ∧ channel s' = Some (connects s)
  ∧ cleanups (trace s') = cleanups (trace s).
Proof.
  intros Hch Hidle Hconn Hpub s'. subst s'.
  rewrite publish_cases, Hch. cbv zeta.
  rewrite (connectWithRetry_established 0) by done.
  cbn [snd channel record broker connects publishes trace ledger now
         connection isConnecting].
  rewrite publishAttempt_accepted by (by eexists || done).
  cbn [fst snd channel record set_publishes broker connects publishes trace
         ledger now connection isConnecting].
  rewrite !connectAttempts_app, !delays_app, !channelPublishes_app,
    !cleanups_app, !connectAttempts_cons, !delays_cons,
    !channelPublishes_cons, !cleanups_cons.
  cbn beta iota.
  change (channelPublishes []) with
    (@nil (string * string * Message * option string * option Exn)).
  change (cleanups []) with 0%nat.
  change (connectAttempts []) with (@nil ConnectOutcome).
  change (delays []) with (@nil Z).
  rewrite !app_nil_r. repeat split; try done. lia.
Qed.

Lemma publish_connects_on_demand_witness :
  let s := Fixtures.fresh [] Fixtures.healthy in
  let message :=
    MStockEvent
      {| StockUpdateEvent.eventType := STOCK_ADDED;
         StockUpdateEvent.productCode := "INV-123456789";
         StockUpdateEvent.previousQuantity := 0;
         StockUpdateEvent.newQuantity := 10;
         StockUpdateEvent.timestamp := 1700000000000;
         StockUpdateEvent.productName := Some "Test Product" |} in
  (publish "inventory.exchange" "inventory.stock.stock_added" message s).1
  = Ok tt
  ∧ channel (publish "inventory.exchange" "inventory.stock.stock_added"
               message s).2
    = Some 0%nat.
Proof.
  intros s message.
  destruct (publish_connects_on_demand s "inventory.exchange"
              "inventory.stock.stock_added" message)
    as (H1 & _ & _ & _ & H2 & _); try reflexivity.
  split; [exact H1|exact H2].
Defined.
End PublishCalls.

(** ** Product codes *)

Section ProductCodes.
Import InventoryService.

Lemma length_append (s1 s2 : string) :
  String.length (s1 +:+ s2) = (String.length s1 + String.length s2)%nat.
Proof. induction s1 as [|c s1 IH]; simpl; [done|by rewrite IH]. Qed.

Lemma forallChars_append p (s1 s2 : string) :
  forallChars p (s1 +:+ s2) = forallChars p s1 && forallChars p s2.
Proof.
  induction s1 as [|c s1 IH]; simpl; [done|]. by rewrite IH, andb_assoc.
Qed.

Lemma length_repeatChar n c : String.length (repeatChar n c) = n.
Proof. induction n as [|n IH]; cbn; [done|by rewrite IH]. Qed.

Lemma forallChars_repeatChar p n c :
  p c = true → forallChars p (repeatChar n c) = true.
Proof. intros Hc. induction n as [|n IH]; cbn; [done|by rewrite Hc, IH]. Qed.

Lemma isDigit_pretty_N_char x : isDigit (pretty_N_char x) = true.
Proof.
  unfold pretty_N_char.
  repeat (match goal with |- context [match ?x with _ => _ end] => destruct x end;
          try reflexivity).
Qed.

(** The digits of a number below [10 ^ k] are at most [k]. *)
Lemma pretty_N_go_digits (k : nat) : ∀ (x : N) (s : string),
  (x < 10 ^ N.of_nat k)%N →
  (String.length (pretty_N_go x s) ≤ k + String.length s)%nat
  ∧ (forallChars isDigit s = true →
     forallChars isDigit (pretty_N_go x s) = true).
Proof.
  induction k as [|k IH]; intros x s Hx.
  - assert (x = 0%N) as -> by (cbn in Hx; lia).
    rewrite pretty_N_go_0. split; [lia|done].
  - destruct (decide (x = 0%N)) as [->|Hne].
    { rewrite pretty_N_go_0. split; [lia|done]. }
    rewrite pretty_N_go_step by lia.
    assert (x `div` 10 < 10 ^ N.of_nat k)%N as Hdiv.
    { apply N.Div0.div_lt_upper_bound.
      rewrite Nat2N.inj_succ, N.pow_succ_r' in Hx. lia. }
    destruct (IH (x `div` 10)%N (String (pretty_N_char (x `mod` 10)) s) Hdiv)
      as [Hlen Hdig].
    split.
    + cbn [String.length] in Hlen. lia.
    + intros Hs. apply Hdig. cbn [forallChars].
      by rewrite isDigit_pretty_N_char, Hs.
Qed.

Lemma pretty_N_digits (k : nat) (x : N) :
  (x < 10 ^ N.of_nat (S k))%N →
  (String.length (pretty x) ≤ S k)%nat ∧ forallChars isDigit (pretty x) = true.
Proof.
  intros Hx. unfold pretty, pretty_N.
  destruct (decide (x = 0%N)) as [->|Hne].
  - split; [cbn; lia|done].
  - destruct (pretty_N_go_digits (S k) x "" Hx) as [Hlen Hdig].
    split; [cbn [String.length] in Hlen; lia|by apply Hdig].
Qed.

(** X8.  Format of a generated product code.  For every integer that
    [Math.floor(Math.random() * 1000000000)] can yield, the code is
    ["INV-"] followed by exactly nine decimal digits: thirteen
    characters, never empty. *)
Theorem generateProductCode_format (randomNum : N) :
  (randomNum < 1000000000)%N →
  ∃ digits,
    generateProductCode randomNum = "INV-" +:+ digits
    ∧ String.length digits = 9%nat
    ∧ forallChars isDigit digits = true
    ∧ String.length (generateProductCode randomNum) = 13%nat.
Proof.
  intros Hn. exists (padStart 9 "0" (pretty randomNum)).
  destruct (pretty_N_digits 8 randomNum) as [Hlen Hdig]; [by cbn; lia|].
  assert (String.length (padStart 9 "0" (pretty randomNum)) = 9%nat) as Hpad.
  { unfold padStart. rewrite length_append, length_repeatChar. lia. }
  split; [done|]. split; [done|]. split.
  - unfold padStart. rewrite forallChars_append, Hdig, andb_true_r.
    by apply forallChars_repeatChar.
  - unfold generateProductCode. cbv zeta. rewrite length_append, Hpad. done.
Qed.

Lemma generateProductCode_format_witness :
  ∃ digits,
    generateProductCode 42 = "INV-" +:+ digits
    ∧ String.length digits = 9%nat
    ∧ forallChars isDigit digits = true
    ∧ String.length (generateProductCode 42) = 13%nat.
Proof. apply generateProductCode_format. reflexivity. Defined.

End ProductCodes.

(** ** Creating an item *)

Section Creating.
Import RabbitMQService InventoryService.

(** The loop only reads. *)
Lemma generateUniqueProductCode_state samples s :
  (generateUniqueProductCode samples s).2 = s.
Proof.
  induction samples as [|n samples IH]; [done|].
  cbn [generateUniqueProductCode]. cbv zeta.
  unfold InventoryRepository.findItemById. rewrite bind_gets.
  by destruct (InventoryRepository.findOne _ _).
Qed.

(** The loop returns the code of the first sample whose code is free. *)
Lemma generateUniqueProductCode_result samples s :
  match (generateUniqueProductCode samples s).1 with
  | Ok (Some productCode) =>
      ∃ before randomNum after,
        samples = before ++ randomNum :: after
        ∧ productCode = generateProductCode randomNum
        ∧ InventoryRepository.findOne productCode (ledger s) = None
        ∧ Forall (codeTaken (ledger s)) before
  | Ok None => Forall (codeTaken (ledger s)) samples
  | Throw _ => False
  end.
Proof.
  induction samples as [|n samples IH]; [by cbn|].
  cbn [generateUniqueProductCode]. cbv zeta.
  unfold InventoryRepository.findItemById. rewrite bind_gets.
  destruct (InventoryRepository.findOne (generateProductCode n) (ledger s))
    as [doc|] eqn:Hn.
  - destruct (generateUniqueProductCode samples s).1 as [[code|]|e]; [| |done].
    + destruct IH as (before & m & after & -> & -> & Hfree & Hbefore).
      exists (n :: before), m, after. split; [done|]. split; [done|].
      split; [done|]. constructor; [by unfold codeTaken; rewrite Hn|done].
    + constructor; [by unfold codeTaken; rewrite Hn|done].
  - cbn. exists [], n, samples. by repeat split.
Qed.

(** X9.  [generateUniqueProductCode] reads the ledger and nothing else.
    It returns the code of the first sample whose code is free: every
    earlier sample's code is in the ledger, the returned one is not.
    It never throws; it is still looping after the last sample exactly
    when the codes of all the samples are taken. *)
Theorem generateUniqueProductCode_first_free samples s :
  (generateUniqueProductCode samples s).2 = s
  ∧ match (generateUniqueProductCode samples s).1 with
    | Ok (Some productCode) =>
        ∃ before randomNum after,
          samples = before ++ randomNum :: after
          ∧ productCode = generateProductCode randomNum
          ∧ InventoryRepository.findOne productCode (ledger s) = None
          ∧ Forall (codeTaken (ledger s)) before
    | Ok None => Forall (codeTaken (ledger s)) samples
    | Throw _ => False
    end.
Proof.
  split; [apply generateUniqueProductCode_state
         |apply generateUniqueProductCode_result].
Qed.

(** [createItem], step by step: the choice of the product code, the
    save, the publication of the event, the log line. *)
Lemma createItem_run model samples dto s :
  createItem model samples dto s
  = match
      match CreateInventoryDto.productCode dto with
      | Some (String c code) =>
          match InventoryRepository.findOne (String c code) (ledger s) with
          | Some _ =>
              Throw (ConflictException "Item with this product code already exists")
          | None => Ok (Some (String c code))
          end
      | _ => (generateUniqueProductCode samples s).1
      end
    with
    | Throw e => (Throw e, s)
    | Ok None => (Ok None, s)
    | Ok (Some productCode) =>
        match model (ledger s)
                (CreateInventoryDto.set_productCode productCode dto) with
        | Throw e => (Throw e, s)
        | Ok doc =>
            match publishStockUpdateEvent (stockAddedEvent doc (now s))
                    (set_ledger (ledger s ++ [doc]) s) with
            | (Ok _, s1) =>
                (Ok (Some (length (ledger s), doc)),
                 record (ELog LInfo "Item created") s1)
            | (Throw e, s1) => (Throw e, s1)
            end
        end
    end.
Proof.
  assert (∀ productCode,
            (let createDto := CreateInventoryDto.set_productCode productCode dto in
             savedItem <- InventoryRepository.createItem model createDto ;;
             timestamp <- gets now ;;
             publishStockUpdateEvent (stockAddedEvent savedItem.2 timestamp) ;;
             log LInfo "Item created" ;;
             ret (Some savedItem)) s
            = match model (ledger s)
                      (CreateInventoryDto.set_productCode productCode dto) with
              | Throw e => (Throw e, s)
              | Ok doc =>
                  match publishStockUpdateEvent (stockAddedEvent doc (now s))
                          (set_ledger (ledger s ++ [doc]) s) with
                  | (Ok _, s1) =>
                      (Ok (Some (length (ledger s), doc)),
                       record (ELog LInfo "Item created") s1)
                  | (Throw e, s1) => (Throw e, s1)
                  end
              end) as Htail.
  { intros productCode. cbv zeta. unfold bind at 1.
    unfold InventoryRepository.createItem.
    destruct (model (ledger s) _) as [doc|e]; [|done].
    rewrite bind_gets. cbn [snd now set_ledger]. unfold bind at 1.
    destruct (publishStockUpdateEvent _ _) as [[[]|e] s1]; [|done].
    by rewrite bind_log. }
  unfold createItem. unfold bind at 1.
  destruct (CreateInventoryDto.productCode dto) as [[|c code]|].
  - pose proof (generateUniqueProductCode_state samples s) as Hs.
    destruct (generateUniqueProductCode samples s) as [[[productCode|]|e] s'];
      cbn [fst snd] in *; subst s'; [apply Htail|done|done].
  - unfold InventoryRepository.findItemById. rewrite bind_gets.
    destruct (InventoryRepository.findOne (String c code) (ledger s));
      [done|]. apply Htail.
  - pose proof (generateUniqueProductCode_state samples s) as Hs.
    destruct (generateUniqueProductCode samples s) as [[[productCode|]|e] s'];
      cbn [fst snd] in *; subst s'; [apply Htail|done|done].
Qed.

(** X10.  A supplied product code that is already in the ledger:
    [createItem] throws [ConflictException] and leaves the whole state
    as it was.  The model is not consulted, nothing is stored, logged or
    published, whatever the rest of the DTO is. *)
Theorem createItem_conflict model samples dto productCode s :
  CreateInventoryDto.productCode dto = Some productCode →
  productCode ≠ "" →
  is_Some (InventoryRepository.findOne productCode (ledger s)) →
  createItem model samples dto s
  = (Throw (ConflictException "Item with this product code already exists"), s).
Proof.
  intros Hdto Hne [doc Hdoc]. rewrite createItem_run, Hdto.
  destruct productCode as [|c code]; [done|]. by rewrite Hdoc.
Qed.

Lemma createItem_conflict_witness :
  let s := Fixtures.connected [Fixtures.mockInventoryItem] Fixtures.healthy in
  createItem MoreFixtures.strictModel []
    (CreateInventoryDto.set_productCode "INV-123456789" MoreFixtures.createDto) s
  = (Throw (ConflictException "Item with this product code already exists"), s).
Proof.
  intros s.
  apply (createItem_conflict _ _ _ "INV-123456789"); [done|done|by eexists].
Defined.

(** X11.  When [createItem] returns an item, the product code it saved
    under was free (the supplied one, or the code of one of the
    samples), the returned document is what the model stored for the
    DTO with that code, it sits at the end of the ledger and nothing
    else in the ledger changed, exactly one event went to the
    publisher, a STOCK_ADDED event with previousQuantity 0 and the
    stored quantity and name, and the last message the channel saw, and
    took, is that event. *)
Theorem createItem_stored model samples dto s savedItem :
  (createItem model samples dto s).1 = Ok (Some savedItem) →
  let s' := (createItem model samples dto s).2 in
  let event := stockAddedEvent savedItem.2 (now s) in
  ∃ productCode,
    match CreateInventoryDto.productCode dto with
    | Some (String c code) => productCode = String c code
    | _ => ∃ randomNum,
             randomNum ∈ samples ∧ productCode = generateProductCode randomNum
    end
    ∧ InventoryRepository.findOne productCode (ledger s) = None
    ∧ model (ledger s) (CreateInventoryDto.set_productCode productCode dto)
      = Ok savedItem.2
    ∧ savedItem.1 = length (ledger s)
    ∧ ledger s' = ledger s ++ [savedItem.2]
    ∧ publishCalls (trace s')
      = publishCalls (trace s)
          ++ [(RabbitMQExchanges.INVENTORY, "inventory.stock.stock_added",
               MStockEvent event)]
    ∧ last (channelPublishes (trace s'))
      = Some (RabbitMQExchanges.INVENTORY, "inventory.stock.stock_added",
              MStockEvent event, None, None).
Proof.
  rewrite createItem_run. intros Hok s' event.
  assert (∃ productCode,
            match CreateInventoryDto.productCode dto with
            | Some (String c code) =>
                match InventoryRepository.findOne (String c code) (ledger s) with
                | Some _ =>
                    Throw (ConflictException "Item with this product code already exists")
                | None => Ok (Some (String c code))
                end
            | _ => (generateUniqueProductCode samples s).1
            end = Ok (Some productCode)
            ∧ match CreateInventoryDto.productCode dto with
              | Some (String c code) => productCode = String c code
              | _ => ∃ randomNum,
                       randomNum ∈ samples
                       ∧ productCode = generateProductCode randomNum
              end
            ∧ InventoryRepository.findOne productCode (ledger s) = None)
    as (productCode & Hchoice & Hfrom & Hfree).
  { assert (∀ r, (generateUniqueProductCode samples s).1 = r →
              match r with
              | Ok (Some productCode) =>
                  (∃ randomNum, randomNum ∈ samples
                                ∧ productCode = generateProductCode randomNum)
                  ∧ InventoryRepository.findOne productCode (ledger s) = None
              | _ => True
              end) as Hgen.
    { intros r <-.
      pose proof (generateUniqueProductCode_result samples s) as H.
      destruct (generateUniqueProductCode samples s).1 as [[code|]|e]; [|done..].
      destruct H as (before & n & after & -> & -> & Hfree & _).
      split; [|done]. exists n. split; [|done]. set_solver. }
    destruct (CreateInventoryDto.productCode dto) as [[|c code]|].
    - specialize (Hgen _ eq_refl).
      destruct (generateUniqueProductCode samples s).1 as [[code|]|e];
        [|done..]. exists code. by destruct Hgen.
    - destruct (InventoryRepository.findOne (String c code) (ledger s)) eqn:Hf;
        [done|]. by exists (String c code).
    - specialize (Hgen _ eq_refl).
      destruct (generateUniqueProductCode samples s).1 as [[code|]|e];
        [|done..]. exists code. by destruct Hgen. }
  exists productCode. subst s'. revert Hok. rewrite Hchoice.
  destruct (model (ledger s) _) as [doc|e] eqn:Hmodel; [|done].
  pose proof (publishStockUpdateEvent_emits (stockAddedEvent doc (now s))
                (set_ledger (ledger s ++ [doc]) s)) as [Hl Hp].
  pose proof (publishStockUpdateEvent_delivered_last (stockAddedEvent doc (now s))
                (set_ledger (ledger s ++ [doc]) s)) as Hlast.
  destruct (publishStockUpdateEvent _ _) as [[[]|e] s1]; [|done].
  cbn [fst snd] in *. intros [= <-]. subst event. cbn [fst snd].
  split; [done|]. split; [done|]. split; [done|]. split; [done|].
  split; [done|]. split.
  - cbn [trace record]. rewrite publishCalls_app, Hp. cbn [trace set_ledger].
    by rewrite app_nil_r.
  - cbn [trace record]. rewrite channelPublishes_app.
    change (channelPublishes [ELog LInfo "Item created"]) with
      (@nil (string * string * Message * option string * option Exn)).
    rewrite app_nil_r. by apply Hlast.
Qed.

Lemma createItem_stored_witness :
  let s := Fixtures.fresh [Fixtures.mockInventoryItem] Fixtures.healthy in
  let r := createItem MoreFixtures.strictModel [123456789; 42]%N
             MoreFixtures.createDto s in
  r.1 = Ok (Some (1%nat,
                  {| Inventory.productCode := "INV-000000042";
                     Inventory.name := "Test Product";
                     Inventory.description := "Test Description";
                     Inventory.quantity := 10;
                     Inventory.price := 100%Q |}))
  ∧ Inventory.productCode <$> ledger r.2 = ["INV-123456789"; "INV-000000042"]
  ∧ length (publishCalls (trace r.2)) = 1%nat.
Proof.
  intros s r.
  assert (r.1 = Ok (Some (1%nat,
                          {| Inventory.productCode := "INV-000000042";
                             Inventory.name := "Test Product";
                             Inventory.description := "Test Description";
                             Inventory.quantity := 10;
                             Inventory.price := 100%Q |}))) as Hr
    by (vm_compute; reflexivity).
  split; [exact Hr|].
  destruct (createItem_stored MoreFixtures.strictModel [123456789; 42]%N
              MoreFixtures.createDto s _ Hr)
    as (productCode & _ & _ & _ & _ & Hledger & Hcalls & _).
  fold r in Hledger, Hcalls. rewrite Hledger, Hcalls. split; reflexivity.
Defined.

(** X12.  [createItem] is not all-or-nothing.  When it throws, either
    nothing has happened at all (the supplied code was taken, and the
    error is the [ConflictException]; or the model refused the document,
    and the error is the model's), or the document is already stored at
    the end of the ledger and its STOCK_ADDED event was handed to the
    publisher, and the error is the one the publication threw. *)
Theorem createItem_thrown model samples dto s e :
  (createItem model samples dto s).1 = Throw e →
  let s' := (createItem model samples dto s).2 in
  (s' = s
   ∧ ((e = ConflictException "Item with this product code already exists"
       ∧ ∃ productCode,
           CreateInventoryDto.productCode dto = Some productCode
           ∧ is_Some (InventoryRepository.findOne productCode (ledger s)))
      ∨ ∃ productCode,
          model (ledger s) (CreateInventoryDto.set_productCode productCode dto)
          = Throw e))
  ∨ ∃ productCode doc,
      model (ledger s) (CreateInventoryDto.set_productCode productCode dto)
      = Ok doc
      ∧ (publishStockUpdateEvent (stockAddedEvent doc (now s))
           (set_ledger (ledger s ++ [doc]) s)).1 = Throw e
      ∧ ledger s' = ledger s ++ [doc]
      ∧ publishCalls (trace s')
        = publishCalls (trace s)
            ++ [(RabbitMQExchanges.INVENTORY, "inventory.stock.stock_added",
                 MStockEvent (stockAddedEvent doc (now s)))].
Proof.
  rewrite createItem_run. intros Hthrow s'. subst s'. revert Hthrow.
  assert (∀ productCode,
            match model (ledger s)
                    (CreateInventoryDto.set_productCode productCode dto) with
            | Throw e0 => (Throw e0, s)
            | Ok doc =>
                match publishStockUpdateEvent (stockAddedEvent doc (now s))
                        (set_ledger (ledger s ++ [doc]) s) with
                | (Ok _, s1) =>
                    (Ok (Some (length (ledger s), doc)),
                     record (ELog LInfo "Item created") s1)
                | (Throw e0, s1) => (Throw e0, s1)
                end
            end.1 = Throw e →
            (match model (ledger s)
                     (CreateInventoryDto.set_productCode productCode dto) with
             | Throw e0 => (Throw e0, s)
             | Ok doc =>
                 match publishStockUpdateEvent (stockAddedEvent doc (now s))
                         (set_ledger (ledger s ++ [doc]) s) with
                 | (Ok _, s1) =>
                     (Ok (Some (length (ledger s), doc)),
                      record (ELog LInfo "Item created") s1)
                 | (Throw e0, s1) => (Throw e0, s1)
                 end
             end.2 = s
             ∧ model (ledger s)
                 (CreateInventoryDto.set_productCode productCode dto) = Throw e)
            ∨ ∃ doc,
                model (ledger s)
                  (CreateInventoryDto.set_productCode productCode dto) = Ok doc
                ∧ (publishStockUpdateEvent (stockAddedEvent doc (now s))
                     (set_ledger (ledger s ++ [doc]) s)).1 = Throw e
                ∧ ledger
                    match model (ledger s)
                            (CreateInventoryDto.set_productCode productCode dto) with
                    | Throw e0 => (Throw e0, s)
                    | Ok doc =>
                        match publishStockUpdateEvent (stockAddedEvent doc (now s))
                                (set_ledger (ledger s ++ [doc]) s) with
                        | (Ok _, s1) =>
                            (Ok (Some (length (ledger s), doc)),
                             record (ELog LInfo "Item created") s1)
                        | (Throw e0, s1) => (Throw e0, s1)
                        end
                    end.2 = ledger s ++ [doc]
                ∧ publishCalls
                    (trace
                       match model (ledger s)
                               (CreateInventoryDto.set_productCode productCode dto) with
                       | Throw e0 => (Throw e0, s)
                       | Ok doc =>
                           match publishStockUpdateEvent (stockAddedEvent doc (now s))
                                   (set_ledger (ledger s ++ [doc]) s) with
                           | (Ok _, s1) =>
                               (Ok (Some (length (ledger s), doc)),
                                record (ELog LInfo "Item created") s1)
                           | (Throw e0, s1) => (Throw e0, s1)
                           end
                       end.2)
                  = publishCalls (trace s)
                      ++ [(RabbitMQExchanges.INVENTORY,
                           "inventory.stock.stock_added",
                           MStockEvent (stockAddedEvent doc (now s)))]) as Htail.
  { intros productCode.
    destruct (model (ledger s) _) as [doc|e0] eqn:Hmodel.
    - pose proof (publishStockUpdateEvent_emits (stockAddedEvent doc (now s))
                    (set_ledger (ledger s ++ [doc]) s)) as [Hl Hp].
      destruct (publishStockUpdateEvent _ _) as [[[]|e0] s1] eqn:Hpub; [done|].
      cbn [fst snd] in *. intros [= ->]. right. exists doc.
      split; [done|]. split; [by rewrite Hpub|]. split; [done|]. by rewrite Hp.
    - cbn [fst snd]. intros [= ->]. by left. }
  destruct (CreateInventoryDto.productCode dto) as [[|c code]|] eqn:Hdto.
  - pose proof (generateUniqueProductCode_result samples s) as Hgen.
    destruct (generateUniqueProductCode samples s).1 as [[code|]|e0];
      [|done..].
    intros Hthrow. destruct (Htail code Hthrow) as [[Hs Hm]|(doc & H)].
    + left. split; [done|]. right. by exists code.
    + right. by exists code, doc.
  - destruct (InventoryRepository.findOne (String c code) (ledger s)) eqn:Hf.
    + cbn [fst snd]. intros [= <-]. left. split; [done|]. left.
      split; [done|]. exists (String c code). split; [done|]. by eexists.
    + intros Hthrow.
      destruct (Htail (String c code) Hthrow) as [[Hs Hm]|(doc & H)].
      * left. split; [done|]. right. by exists (String c code).
      * right. by exists (String c code), doc.
  - pose proof (generateUniqueProductCode_result samples s) as Hgen.
    destruct (generateUniqueProductCode samples s).1 as [[code|]|e0];
      [|done..].
    intros Hthrow. destruct (Htail code Hthrow) as [[Hs Hm]|(doc & H)].
    + left. split; [done|]. right. by exists code.
    + right. by exists code, doc.
Qed.

Lemma createItem_thrown_witness :
  let s := Fixtures.connected [] Fixtures.unreachable in
  let r := createItem MoreFixtures.strictModel [42%N] MoreFixtures.createDto s in
  r.1 = Throw (BrokerError "Channel closed")
  ∧ Inventory.productCode <$> ledger r.2 = ["INV-000000042"].
Proof.
  intros s r.
  assert (r.1 = Throw (BrokerError "Channel closed")) as Hr
    by (vm_compute; reflexivity).
  split; [exact Hr|].
  destruct (createItem_thrown MoreFixtures.strictModel [42%N]
              MoreFixtures.createDto s _ Hr) as [[Hs _]|(code & doc & _ & _ & _ & _)].
  - exfalso. fold r in Hs. assert (ledger r.2 = ledger s) as Hl by (by rewrite Hs).
    vm_compute in Hl. discriminate Hl.
  - vm_compute. reflexivity.
Defined.

End Creating.

(** ** What the consumers do to the ledger *)

#[global] Instance deducted_preorder : PreOrder deducted.
Proof.
  split.
  - by intros d.
  - intros d1 d2 d3 (C1 & N1 & D1 & P1 & Q1) (C2 & N2 & D2 & P2 & Q2).
    repeat split; try congruence. auto.
Qed.

#[global] Instance not_restocked_preorder : PreOrder not_restocked.
Proof.
  split.
  - intros d. unfold not_restocked. lia.
  - intros d1 d2 d3. unfold not_restocked. lia.
Qed.

#[global] Instance ledger_related_preorder (E : relation Inventory.t) :
  PreOrder E → PreOrder (ledger_related E).
Proof.
  intros HE. split.
  - intros s. unfold ledger_related. reflexivity.
  - intros s1 s2 s3. unfold ledger_related. by etransitivity.
Qed.

Section LedgerSteps.
Import RabbitMQService InventoryService Consumers.
Context (E : relation Inventory.t) `{!PreOrder E}.
Context (allowed : Z → Prop).
Hypothesis deduction :
  ∀ d q, allowed q → q ≤ Inventory.quantity d →
         E d (Inventory.set_quantity (Inventory.quantity d - q) d).

(** Whatever leaves the ledger alone keeps its documents related. *)
Lemma transporting_ledger_related {A} (m : M A) :
  steps transporting m → steps (ledger_related E) m.
Proof.
  intros Hm s. unfold ledger_related. rewrite (tp_ledger _ _ (Hm s)).
  reflexivity.
Qed.

Lemma emit_ledger_related e : steps (ledger_related E) (emit e).
Proof. intros s. unfold ledger_related. cbn. reflexivity. Qed.

Lemma checkStock_ledger_related productCode q :
  steps (ledger_related E) (checkStock productCode q).
Proof.
  apply transporting_ledger_related. intros s.
  apply connecting_transporting, checkStock_connecting.
Qed.

Lemma deductStock_ledger_related productCode q :
  allowed q → steps (ledger_related E) (deductStock productCode q).
Proof.
  intros Hq s. unfold ledger_related.
  destruct (InventoryRepository.findOne productCode (ledger s)) as [[i d]|]
    eqn:Hfind.
  - rewrite (deductStock_ledger s productCode q i d Hfind).
    case_decide; [|reflexivity].
    apply findOne_lookup in Hfind as [Hi _].
    rewrite <- (list_insert_id (ledger s) i d Hi) at 1.
    apply Forall2_insert; [reflexivity|by apply deduction].
  - rewrite (deductStock_missing productCode q s Hfind). reflexivity.
Qed.

Lemma onStockDeduct_ledger_related msg :
  (∀ items, content msg = Batch items →
            Forall (λ item, allowed (StockCheckItem.quantity item)) items) →
  steps (ledger_related E) (onStockDeduct (Some msg)).
Proof.
  intros Hitems. unfold onStockDeduct.
  apply steps_tryCatch; [apply _| |].
  - destruct (content msg) as [e|items]; [apply steps_throw, _|].
    specialize (Hitems items eq_refl).
    apply steps_bind; [apply _| |intros stockChecks].
    { apply steps_promiseAll; [apply _|]. apply Forall_map, Forall_forall.
      intros item _. cbn beta.
      apply steps_bind; [apply _|apply checkStock_ledger_related|].
      intros check. apply steps_ret, _. }
    apply steps_bind; [apply _| |intros _].
    { destruct (negb _); [apply steps_throw, _|apply steps_ret, _]. }
    apply steps_bind; [apply _| |intros _].
    { apply steps_promiseAll; [apply _|]. apply Forall_map.
      eapply Forall_impl; [exact Hitems|].
      intros item Hq. cbn beta. by apply deductStock_ledger_related. }
    apply steps_bind; [apply _| |intros _].
    { apply transporting_ledger_related, channelPublish_transporting. }
    apply emit_ledger_related.
  - intros error.
    apply steps_bind; [apply _| |intros _].
    { apply transporting_ledger_related, log_transporting. }
    apply steps_bind; [apply _| |intros _].
    { apply transporting_ledger_related, channelPublish_transporting. }
    apply emit_ledger_related.
Qed.
End LedgerSteps.

Section ConsumerLedger.
Import RabbitMQService InventoryService Consumers.

(** X13.  The stock-deduct consumer and the ledger, for every delivery,
    every state and every behaviour of the broker (also when deductions
    fail half-way or the reply cannot be sent): no document is added,
    removed or moved, every document keeps its productCode, name,
    description and price, and a quantity that was not negative is not
    negative afterwards.  When no item of the batch asks for a negative
    quantity, no quantity has grown. *)
Theorem onStockDeduct_ledger_invariant msg s :
  let l' := ledger (onStockDeduct (Some msg) s).2 in
  Forall2 deducted (ledger s) l'
  ∧ ((∀ items, content msg = Batch items →
               Forall (λ item, 0 ≤ StockCheckItem.quantity item) items) →
     Forall2 not_restocked (ledger s) l').
Proof.
  intros l'. subst l'. split.
  - apply (onStockDeduct_ledger_related deducted (λ _, True)).
    + intros d q _ Hq. unfold deducted.
      cbn [Inventory.set_quantity Inventory.productCode Inventory.name
           Inventory.description Inventory.price Inventory.quantity].
      repeat split. lia.
    + intros items _. by apply Forall_true.
  - intros Hitems.
    apply (onStockDeduct_ledger_related not_restocked (λ q, 0 ≤ q)); [|done].
    intros d q Hq _. unfold not_restocked.
    cbn [Inventory.set_quantity Inventory.quantity]. lia.
Qed.

Lemma onStockDeduct_ledger_invariant_witness :
  let s := Fixtures.connected [Fixtures.itemA; Fixtures.itemB] Fixtures.unreachable in
  let msg := {| content := Batch [StockCheckItem.mk "A" 4; StockCheckItem.mk "B" 10];
                replyTo := "amq.gen-reply"; correlationId := "42" |} in
  Forall2 not_restocked (ledger s) (ledger (onStockDeduct (Some msg) s).2).
Proof.
  intros s msg. apply onStockDeduct_ledger_invariant.
  intros items [= <-]. by repeat constructor.
Defined.

End ConsumerLedger.

(** ** Acknowledgements *)

#[global] Instance producing_preorder (P : Effect → Prop) :
  PreOrder (producing P).
Proof.
  split.
  - intros s. exists []. by rewrite app_nil_r.
  - intros s1 s2 s3 (t1 & T1 & F1) (t2 & T2 & F2).
    exists (t1 ++ t2). rewrite T2, T1, app_assoc. split; [done|].
    by apply Forall_app.
Qed.

Section Unacknowledged.
Import RabbitMQService InventoryService.

Lemma acks_not_ack t : Forall not_ack t → acks t = [].
Proof.
  induction 1 as [|e t He _ IH]; [done|]. unfold acks in *. cbn [omap list_omap].
  destruct e; try done; by rewrite IH.
Qed.

Lemma connecting_unacked s s' : connecting s s' → producing not_ack s s'.
Proof.
  intros [_ _ _ _ (t & T & F)]. exists t. split; [done|].
  eapply Forall_impl; [exact F|]. by intros [].
Qed.

Lemma emit_unacked e : not_ack e → steps (producing not_ack) (emit e).
Proof. intros He s. exists [e]. split; [done|]. by constructor. Qed.

Lemma log_unacked level text : steps (producing not_ack) (log level text).
Proof. by apply emit_unacked. Qed.

Lemma connectWithRetry_unacked n : steps (producing not_ack) (connectWithRetry n).
Proof. intros s. apply connecting_unacked, connectWithRetry_connecting. Qed.

Lemma channelPublish_unacked x k m c :
  steps (producing not_ack) (channelPublish x k m c).
Proof.
  intros s. unfold channelPublish. destruct (channel s); [|reflexivity].
  destruct (publishOutcome (broker s) (publishes s)); cbn [snd];
    (eexists [_]; split; [done|by constructor]).
Qed.

Lemma handleReconnect_unacked : steps (producing not_ack) handleReconnect.
Proof.
  intros s. destruct (handleReconnect_spec s) as (s' & -> & H). cbn [snd].
  etransitivity; [|by apply connecting_unacked].
  eexists [_]. split; [done|by constructor].
Qed.

Lemma save_unacked doc : steps (producing not_ack) (InventoryRepository.save doc).
Proof.
  intros s. unfold InventoryRepository.save. destruct doc as [i d].
  destruct (Inventory.quantity d <? 0); cbn [snd]; [reflexivity|].
  exists []. by rewrite app_nil_r.
Qed.

Lemma checkStock_unacked productCode q :
  steps (producing not_ack) (checkStock productCode q).
Proof. intros s. apply connecting_unacked, checkStock_connecting. Qed.

End Unacknowledged.

Ltac steps_unacked :=
  repeat match goal with
    | |- steps _ (bind _ _) => apply steps_bind; [apply _| |intros ?]
    | |- steps _ (tryCatch _ _) => apply steps_tryCatch; [apply _| |intros ?]
    | |- steps _ (ret _) => apply steps_ret, _
    | |- steps _ (throw _) => apply steps_throw, _
    | |- steps _ (gets _) => apply steps_gets, _
    | |- steps _ (InventoryRepository.findItemById _) => apply steps_gets, _
    | |- steps _ (log _ _) => apply log_unacked
    | |- steps _ (emit _) => apply emit_unacked; exact I
    | |- steps _ (RabbitMQService.connectWithRetry _) =>
        apply connectWithRetry_unacked
    | |- steps _ (RabbitMQService.channelPublish _ _ _ _) =>
        apply channelPublish_unacked
    | |- steps _ RabbitMQService.handleReconnect =>
        apply handleReconnect_unacked
    | |- steps _ (InventoryRepository.save _) => apply save_unacked
    | |- steps _ (InventoryService.checkStock _ _) => apply checkStock_unacked
    | |- steps _ (match ?x with _ => _ end) => destruct x
    end.

Section Acknowledging.
Import RabbitMQService InventoryService Consumers.

Lemma publish_unacked x k m : steps (producing not_ack) (publish x k m).
Proof. unfold publish. steps_unacked. Qed.

Lemma publishStockUpdateEvent_unacked event :
  steps (producing not_ack) (publishStockUpdateEvent event).
Proof.
  unfold publishStockUpdateEvent. cbv zeta.
  apply steps_tryCatch; [apply _| |intros ?].
  - apply steps_bind; [apply _|apply publish_unacked|intros ?]. steps_unacked.
  - steps_unacked.
Qed.

Lemma deductStock_unacked productCode q :
  steps (producing not_ack) (deductStock productCode q).
Proof.
  unfold deductStock, getItem.
  apply steps_bind; [apply _| |intros [id fields]].
  { steps_unacked. }
  destruct (Inventory.quantity fields <? q); [apply steps_throw, _|].
  apply steps_bind; [apply _|apply save_unacked|intros _].
  apply steps_bind; [apply _|apply steps_gets, _|intros timestamp].
  apply publishStockUpdateEvent_unacked.
Qed.

(** The reply and the acknowledgement that end both branches of a
    consumer. *)
Lemma reply_acknowledging msg response :
  acknowledging msg
    (channelPublish "" (replyTo msg) response (Some (correlationId msg)) ;;
     emit (EAck msg)).
Proof.
  intros s. unfold bind, channelPublish.
  destruct (channel s);
    [|exists []; cbn [fst snd]; rewrite app_nil_r; by split].
  destruct (publishOutcome (broker s) (publishes s)) as [e|]; cbn [fst snd].
  - eexists [_]. split; [done|by constructor].
  - eexists [_; _]. split; [cbn; by rewrite <- app_assoc|].
    by exists [], response.
Qed.

Lemma acknowledging_bind {A} msg (m : M A) (k : A → M unit) :
  steps (producing not_ack) m →
  (∀ a, acknowledging msg (k a)) →
  acknowledging msg (bind m k).
Proof.
  intros Hm Hk s. unfold bind. destruct (Hm s) as (t1 & T1 & F1).
  destruct (m s) as [[a|e] s1]; cbn [fst snd] in *; [|by exists t1].
  destruct (Hk a s1) as (t2 & T2 & H2).
  exists (t1 ++ t2). rewrite T2, T1, app_assoc. split; [done|].
  destruct (k a s1).1 as [[]|e].
  - destruct H2 as (t0 & response & -> & F0).
    exists (t1 ++ t0), response. rewrite app_assoc. split; [done|].
    by apply Forall_app.
  - by apply Forall_app.
Qed.

Lemma acknowledging_throw msg e : acknowledging msg (throw e).
Proof. intros s. exists []. cbn [throw fst snd]. rewrite app_nil_r. by split. Qed.

Lemma acknowledging_tryCatch msg (m : M unit) (h : Exn → M unit) :
  acknowledging msg m →
  (∀ e, acknowledging msg (h e)) →
  acknowledging msg (tryCatch m h).
Proof.
  intros Hm Hh s. unfold tryCatch. destruct (Hm s) as (t1 & T1 & H1).
  destruct (m s) as [[[]|e] s1]; cbn [fst snd] in *; [by exists t1|].
  destruct (Hh e s1) as (t2 & T2 & H2).
  exists (t1 ++ t2). rewrite T2, T1, app_assoc. split; [done|].
  destruct (h e s1).1 as [[]|e'].
  - destruct H2 as (t0 & response & -> & F0).
    exists (t1 ++ t0), response. rewrite app_assoc. split; [done|].
    by apply Forall_app.
  - by apply Forall_app.
Qed.

Lemma acks_app t1 t2 : acks (t1 ++ t2) = acks t1 ++ acks t2.
Proof. apply omap_app. Qed.

Lemma acknowledging_acknowledges msg m :
  acknowledging msg m → acknowledges_after_reply msg m.
Proof.
  intros Hm s. destruct (Hm s) as (t & T & H). exists t. split; [done|].
  destruct (m s).1 as [[]|e]; [|by apply acks_not_ack].
  destruct H as (t0 & response & -> & F0). split.
  - rewrite acks_app, (acks_not_ack t0 F0). done.
  - exists t0, response, [EAck msg]. split; [done|by apply acks_not_ack].
Qed.

Lemma onStockCheck_acknowledging msg :
  acknowledging msg (onStockCheck (Some msg)).
Proof.
  unfold onStockCheck. apply acknowledging_tryCatch.
  - destruct (content msg) as [e|items]; [apply acknowledging_throw|].
    apply acknowledging_bind; [|intros ?; apply reply_acknowledging].
    apply steps_promiseAll; [apply _|]. apply Forall_map, Forall_forall.
    intros item _. cbn beta. steps_unacked.
  - intros e. apply acknowledging_bind; [apply log_unacked|].
    intros _. apply reply_acknowledging.
Qed.

Lemma onStockDeduct_acknowledging msg :
  acknowledging msg (onStockDeduct (Some msg)).
Proof.
  unfold onStockDeduct. apply acknowledging_tryCatch.
  - destruct (content msg) as [e|items]; [apply acknowledging_throw|].
    apply acknowledging_bind.
    { apply steps_promiseAll; [apply _|]. apply Forall_map, Forall_forall.
      intros item _. cbn beta. steps_unacked. }
    intros stockChecks. apply acknowledging_bind.
    { destruct (negb _); [apply steps_throw, _|apply steps_ret, _]. }
    intros _. apply acknowledging_bind; [|intros ?; apply reply_acknowledging].
    apply steps_promiseAll; [apply _|]. apply Forall_map, Forall_forall.
    intros item _. cbn beta. apply deductStock_unacked.
  - intros e. apply acknowledging_bind; [apply log_unacked|].
    intros _. apply reply_acknowledging.
Qed.

(** X14.  Acknowledgement discipline of both consumers, for every
    delivery (well-formed or not), every state and every behaviour of
    the broker.  A consumer that returns has acknowledged the delivery,
    exactly once, and nothing else, and before that the channel took a
    reply sent to the delivery's [replyTo] with its [correlationId].  A
    consumer that throws, because no reply could be sent, has not
    acknowledged the delivery. *)
Theorem consumers_acknowledge_after_reply msg :
  acknowledges_after_reply msg (onStockCheck (Some msg))
  ∧ acknowledges_after_reply msg (onStockDeduct (Some msg)).
Proof.
  split; apply acknowledging_acknowledges;
    [apply onStockCheck_acknowledging|apply onStockDeduct_acknowledging].
Qed.

End Acknowledging.

(** ** Requests that cannot be read *)

Section Malformed.
Import RabbitMQService InventoryService Consumers.

(** X15.  A delivery whose content cannot be parsed, or has no array of
    items, received while a channel is assigned.  Both consumers log,
    leave the ledger alone, publish no stock event and hand exactly one
    reply to the channel, addressed to [replyTo] with the request's
    [correlationId]: [success: false] with the message of the error
    (the stock-check reply with an empty [availableStock] and no
    details; the stock-deduct reply with ["Failed to deduct stock"] when
    the error has no message).  The consumer returns, having
    acknowledged, when the channel took the reply, and throws what the
    channel threw otherwise. *)
Theorem malformed_request_reply msg e s :
  content msg = Malformed e →
  is_Some (channel s) →
  let o := publishOutcome (broker s) (publishes s) in
  let outcome := match o with Some e' => Throw e' | None => Ok tt end in
  let check := onStockCheck (Some msg) s in
  let deduct := onStockDeduct (Some msg) s in
  (check.1 = outcome
   ∧ ledger check.2 = ledger s
   ∧ publishCalls (trace check.2) = publishCalls (trace s)
   ∧ channelPublishes (trace check.2)
     = channelPublishes (trace s)
         ++ [("", replyTo msg,
              MStockCheckResponse
                {| StockCheckResponse.success := false;
                   StockCheckResponse.message := Exn_message e;
                   StockCheckResponse.availableStock := ∅;
                   StockCheckResponse.details := [] |},
              Some (correlationId msg), o)])
  ∧ (deduct.1 = outcome
     ∧ ledger deduct.2 = ledger s
     ∧ publishCalls (trace deduct.2) = publishCalls (trace s)
     ∧ channelPublishes (trace deduct.2)
       = channelPublishes (trace s)
           ++ [("", replyTo msg,
                MStockDeductResponse
                  {| StockDeductResponse.success := false;
                     StockDeductResponse.message :=
                       if decide (Exn_message e = "")
                       then "Failed to deduct stock"
                       else Exn_message e;
                     StockDeductResponse.deductions := None |},
                Some (correlationId msg), o)]).
Proof.
  intros Hcontent Hch o outcome check deduct.
  subst check deduct outcome o.
  unfold onStockCheck, onStockDeduct. rewrite Hcontent.
  unfold tryCatch, throw. cbn beta iota. rewrite !bind_log.
  unfold bind. rewrite !channelPublish_assigned by done.
  cbn [publishes broker record].
  destruct (publishOutcome (broker s) (publishes s)) as [e'|];
    cbn [fst snd emit modify trace ledger record set_publishes];
    rewrite <- ?app_assoc, !publishCalls_app, !channelPublishes_app;
    rewrite ?publishCalls_cons, ?channelPublishes_cons;
    cbn beta iota; rewrite ?publishCalls_cons, ?channelPublishes_cons;
    cbn beta iota; rewrite ?publishCalls_cons, ?channelPublishes_cons;
    cbn beta iota;
    change (publishCalls []) with (@nil (string * string * Message));
    change (channelPublishes []) with
      (@nil (string * string * Message * option string * option Exn));
    by rewrite ?app_nil_r.
Qed.

Lemma malformed_request_reply_witness :
  let s := Fixtures.connected [Fixtures.itemA] Fixtures.healthy in
  let msg := {| content := Malformed (Error "Unexpected token } in JSON at position 1");
                replyTo := "amq.gen-reply"; correlationId := "7" |} in
  (onStockDeduct (Some msg) s).1 = Ok tt
  ∧ channelPublishes (trace (onStockDeduct (Some msg) s).2)
    = [("", "amq.gen-reply",
        MStockDeductResponse
          {| StockDeductResponse.success := false;
             StockDeductResponse.message :=
               "Unexpected token } in JSON at position 1";
             StockDeductResponse.deductions := None |},
        Some "7", None)].
Proof.
  intros s msg.
  destruct (malformed_request_reply msg
              (Error "Unexpected token } in JSON at position 1") s)
    as (_ & Hr & _ & _ & Hp); [reflexivity|by eexists|].
  split; [exact Hr|exact Hp].
Defined.

End Malformed.

(** ** A batch that is deducted *)

Section Deducted.
Import RabbitMQService InventoryService Consumers.

Lemma acks_cons e t :
  acks (e :: t) = match e with EAck msg => msg :: acks t | _ => acks t end.
Proof. by destruct e. Qed.

(** One deduction on an assigned channel that takes the event: the whole
    state afterwards. *)
Lemma deductStock_accepted s item i d :
  InventoryRepository.findOne (StockCheckItem.productCode item) (ledger s)
  = Some (i, d) →
  StockCheckItem.quantity item ≤ Inventory.quantity d →
  is_Some (channel s) →
  publishOutcome (broker s) (publishes s) = None →
  let call :=
    (RabbitMQExchanges.INVENTORY, "inventory.stock.stock_reduced",
     MStockEvent (stockReducedEvent d item (now s))) in
  ∃ t,
    deductStock (StockCheckItem.productCode item) (StockCheckItem.quantity item) s
    = (Ok tt,
       mkState
         (<[i := Inventory.set_quantity
                   (Inventory.quantity d - StockCheckItem.quantity item) d]>
            (ledger s))
         (connection s) (channel s) (isConnecting s) (now s) (connects s)
         (S (publishes s)) (trace s ++ t) (broker s))
    ∧ publishCalls t = [call]
    ∧ channelPublishes t = [(call, None, None)]
    ∧ acks t = [].
Proof.
  intros Hfind Hge [ch Hch] Hok call.
  rewrite (deductStock_sufficient_run s _ _ i d Hfind) by lia.
  unfold publishStockUpdateEvent, publish, channelPublish, tryCatch, bind,
    emit, log, emit, modify, gets, ret.
  cbn [channel record set_ledger publishes broker fst snd
       StockUpdateEvent.eventType StockUpdateEvent.productCode].
  rewrite Hch. cbn beta iota.
  cbn [channel record set_ledger publishes broker set_publishes fst snd].
  rewrite Hch, Hok. cbn beta iota.
  eexists. split.
  { f_equal. apply State_ext; state_fields; try reflexivity; [done|].
    rewrite <- !app_assoc. reflexivity. }
  cbn [app].
  rewrite !publishCalls_cons, !channelPublishes_cons, !acks_cons.
  done.
Qed.

(** The deductions of a batch with pairwise different product codes,
    each covered by the stock, on a channel that takes everything. *)
Lemma deductions_accepted items : ∀ s,
  NoDup (StockCheckItem.productCode <$> items) →
  Forall (λ item,
            ∃ i d,
              InventoryRepository.findOne (StockCheckItem.productCode item)
                (ledger s) = Some (i, d)
              ∧ StockCheckItem.quantity item ≤ Inventory.quantity d) items →
  is_Some (channel s) →
  (∀ n, (publishes s ≤ n)%nat → publishOutcome (broker s) n = None) →
  ∃ l' t results,
    promiseAll
      (map (λ item, deductStock (StockCheckItem.productCode item)
                      (StockCheckItem.quantity item)) items) s
    = (Ok results,
       mkState l' (connection s) (channel s) (isConnecting s) (now s)
         (connects s) (publishes s + length items) (trace s ++ t) (broker s))
    ∧ (∀ item i d,
         item ∈ items →
         InventoryRepository.findOne (StockCheckItem.productCode item) (ledger s)
         = Some (i, d) →
         InventoryRepository.findOne (StockCheckItem.productCode item) l'
         = Some (i, Inventory.set_quantity
                      (Inventory.quantity d - StockCheckItem.quantity item) d)
         ∧ (RabbitMQExchanges.INVENTORY, "inventory.stock.stock_reduced",
            MStockEvent (stockReducedEvent d item (now s))) ∈ publishCalls t)
    ∧ (∀ productCode,
         productCode ∉ StockCheckItem.productCode <$> items →
         InventoryRepository.findOne productCode l'
         = InventoryRepository.findOne productCode (ledger s))
    ∧ length (publishCalls t) = length items
    ∧ length (channelPublishes t) = length items
    ∧ Forall (λ p, p.2 = None) (channelPublishes t)
    ∧ acks t = [].
Proof.
  induction items as [|item items IH]; intros s Hnodup Hitems Hch Hok.
  - exists (ledger s), [], []. split.
    { cbn [map promiseAll]. unfold ret. f_equal.
      apply State_ext; state_fields; try reflexivity; [cbn [length]; lia|].
      by rewrite app_nil_r. }
    split; [intros item i d Hin; by apply elem_of_nil in Hin|].
    by repeat split.
  - rewrite fmap_cons in Hnodup. apply NoDup_cons in Hnodup as [Hfresh Hnodup].
    apply Forall_cons in Hitems as [(i & d & Hfind & Hge) Hitems].
    destruct (deductStock_accepted s item i d Hfind Hge Hch)
      as (t1 & Hrun & Hcalls1 & Hchan1 & Hacks1); [apply Hok; lia|].
    cbv zeta in *.
    set (s1 := mkState _ _ _ _ _ _ _ _ _) in Hrun.
    pose proof (findOne_lookup _ _ _ _ Hfind) as [Hi Hcode].
    assert (∀ productCode,
              productCode ≠ StockCheckItem.productCode item →
              InventoryRepository.findOne productCode (ledger s1)
              = InventoryRepository.findOne productCode (ledger s)) as Hother.
    { intros productCode Hne. subst s1. cbn [ledger].
      by eapply findOne_insert_other. }
    assert (∀ item', item' ∈ items →
              StockCheckItem.productCode item'
              ≠ StockCheckItem.productCode item) as Hdiff.
    { intros item' Hin Heq. apply Hfresh. rewrite <- Heq.
      by apply list_elem_of_fmap_2. }
    destruct (IH s1 Hnodup) as (l' & t2 & results & Hloop & Hmine & Hrest
                                  & Hlen & Hlenc & Htaken & Hacks2).
    { apply Forall_forall. intros item' Hin.
      destruct (proj1 (Forall_forall _ _) Hitems item' Hin)
        as (i' & d' & Hfind' & Hge').
      exists i', d'. by rewrite Hother by (by apply Hdiff). }
    { done. }
    { intros n Hn. apply Hok. subst s1. cbn [publishes] in Hn. lia. }
    exists l', (t1 ++ t2), (tt :: results). split.
    { cbn [map promiseAll]. rewrite Hrun, Hloop. f_equal.
      apply State_ext; subst s1; state_fields; try reflexivity;
        [cbn [length]; lia|by rewrite app_assoc]. }
    split.
    { intros item' i' d' Hin Hfind'. rewrite publishCalls_app.
      apply elem_of_cons in Hin as [->|Hin].
      - assert (i' = i ∧ d' = d) as [-> ->] by (split; congruence).
        split.
        + rewrite Hrest by done. subst s1. cbn [ledger].
          by eapply findOne_insert_same.
        + rewrite Hcalls1. apply elem_of_app. left. apply elem_of_cons. by left.
      - assert (InventoryRepository.findOne
                  (StockCheckItem.productCode item') (ledger s1)
                = Some (i', d')) as Hfind1
          by (by rewrite Hother by (by apply Hdiff)).
        pose proof (Hmine item' i' d' Hin Hfind1) as [Hl' Hcall].
        split; [done|]. apply elem_of_app. by right. }
    split.
    { intros productCode Hnotin. rewrite fmap_cons in Hnotin.
      apply not_elem_of_cons in Hnotin as [Hne Hnotin].
      by rewrite Hrest, Hother. }
    rewrite publishCalls_app, channelPublishes_app, acks_app, !length_app.
    rewrite Hcalls1, Hchan1, Hacks1, Hlen, Hlenc, Hacks2.
    repeat split; try done.
    apply Forall_app. split; [by repeat constructor|done].
Qed.

(** The upfront checks of a batch whose items are all in the ledger
    change nothing, not even the log. *)
Lemma promiseAll_checkStock_found {B} (f : StockCheckItem.t → CheckResult.t → B)
    items s :
  Forall (λ item,
            is_Some (InventoryRepository.findOne
                       (StockCheckItem.productCode item) (ledger s))) items →
  promiseAll
    (map (λ item,
            bind (checkStock (StockCheckItem.productCode item)
                             (StockCheckItem.quantity item))
                 (λ result, ret (f item result)))
         items) s
  = (Ok (map (λ item,
                f item (stockCheckOf (ledger s)
                          (StockCheckItem.productCode item)
                          (StockCheckItem.quantity item)))
             items), s).
Proof.
  induction 1 as [|item items [doc Hdoc] _ IH]; [done|].
  cbn [map promiseAll]. unfold bind at 1. rewrite checkStock_run, Hdoc.
  cbn beta iota. unfold ret at 1. by rewrite IH.
Qed.

Lemma checks_all_available items l :
  Forall (λ item,
            ∃ i d,
              InventoryRepository.findOne (StockCheckItem.productCode item) l
              = Some (i, d)
              ∧ StockCheckItem.quantity item ≤ Inventory.quantity d) items →
  forallb DeductCheck.available
    (map (λ item,
            {| DeductCheck.productCode := StockCheckItem.productCode item;
               DeductCheck.quantity := StockCheckItem.quantity item;
               DeductCheck.available :=
                 CheckResult.available
                   (stockCheckOf l (StockCheckItem.productCode item)
                      (StockCheckItem.quantity item));
               DeductCheck.currentStock :=
                 CheckResult.currentStock
                   (stockCheckOf l (StockCheckItem.productCode item)
                      (StockCheckItem.quantity item)) |}) items)
  = true.
Proof.
  induction 1 as [|item items (i & d & Hfind & Hge) _ IH]; [done|].
  cbn [map forallb DeductCheck.available]. rewrite IH, andb_true_r.
  unfold stockCheckOf. rewrite Hfind. cbn [CheckResult.available].
  apply bool_decide_eq_true. lia.
Qed.

Lemma deductions_echo (items : list StockCheckItem.t) :
  map (λ item,
         {| StockCheckItem.productCode := StockCheckItem.productCode item;
            StockCheckItem.quantity := StockCheckItem.quantity item |}) items
  = items.
Proof.
  induction items as [|[productCode q] items IH]; [done|].
  cbn [map StockCheckItem.productCode StockCheckItem.quantity].
  by rewrite IH.
Qed.

(** The stock-deduct consumer on a batch it can serve, step by step:
    the checks, the deductions, the reply and the acknowledgement. *)
Lemma onStockDeduct_served_run msg items s :
  content msg = Batch items →
  is_Some (channel s) →
  NoDup (StockCheckItem.productCode <$> items) →
  Forall (λ item,
            ∃ i d,
              InventoryRepository.findOne (StockCheckItem.productCode item)
                (ledger s) = Some (i, d)
              ∧ StockCheckItem.quantity item ≤ Inventory.quantity d) items →
  (∀ n, (publishes s ≤ n)%nat → publishOutcome (broker s) n = None) →
  ∃ l' t,
    onStockDeduct (Some msg) s
    = (Ok tt,
       mkState l' (connection s) (channel s) (isConnecting s) (now s)
         (connects s) (S (publishes s + length items))
         (trace s
            ++ (t ++ [EChannelPublish "" (replyTo msg)
                        (MStockDeductResponse
                           {| StockDeductResponse.success := true;
                              StockDeductResponse.message :=
                                "Stock deducted successfully";
                              StockDeductResponse.deductions := Some items |})
                        (Some (correlationId msg)) None;
                      EAck msg]))
         (broker s))
    ∧ (∀ item i d,
         item ∈ items →
         InventoryRepository.findOne (StockCheckItem.productCode item) (ledger s)
         = Some (i, d) →
         InventoryRepository.findOne (StockCheckItem.productCode item) l'
         = Some (i, Inventory.set_quantity
                      (Inventory.quantity d - StockCheckItem.quantity item) d)
         ∧ (RabbitMQExchanges.INVENTORY, "inventory.stock.stock_reduced",
            MStockEvent (stockReducedEvent d item (now s))) ∈ publishCalls t)
    ∧ (∀ productCode,
         productCode ∉ StockCheckItem.productCode <$> items →
         InventoryRepository.findOne productCode l'
         = InventoryRepository.findOne productCode (ledger s))
    ∧ length (publishCalls t) = length items
    ∧ length (channelPublishes t) = length items
    ∧ Forall (λ p, p.2 = None) (channelPublishes t)
    ∧ acks t = [].
Proof.
  intros Hcontent Hch Hnodup Hitems Hok.
  destruct (deductions_accepted items s Hnodup Hitems Hch Hok)
    as (l' & t & results & Hrun & Hfacts).
  exists l', t. split; [|exact Hfacts].
  unfold onStockDeduct. rewrite Hcontent. unfold tryCatch. unfold bind at 1.
  rewrite promiseAll_checkStock_found.
  2:{ eapply Forall_impl; [exact Hitems|]. cbn beta.
      intros item (i & d & -> & _). by eexists. }
  rewrite (checks_all_available items (ledger s) Hitems).
  cbn [negb]. rewrite bind_ret. unfold bind at 1. rewrite Hrun.
  unfold bind at 1. rewrite channelPublish_assigned by done.
  cbn [publishes broker]. rewrite Hok by lia. rewrite deductions_echo.
  unfold emit, modify. f_equal.
  apply State_ext; state_fields; try reflexivity.
  by rewrite <- !app_assoc.
Qed.

(** What one [deductStock] of an item of such a batch does on its own. *)
Lemma deductStock_alone s item i d :
  InventoryRepository.findOne (StockCheckItem.productCode item) (ledger s)
  = Some (i, d) →
  StockCheckItem.quantity item ≤ Inventory.quantity d →
  let alone :=
    (deductStock (StockCheckItem.productCode item)
       (StockCheckItem.quantity item) s).2 in
  InventoryRepository.findOne (StockCheckItem.productCode item) (ledger alone)
  = Some (i, Inventory.set_quantity
               (Inventory.quantity d - StockCheckItem.quantity item) d)
  ∧ publishCalls (trace alone)
    = publishCalls (trace s)
        ++ [(RabbitMQExchanges.INVENTORY, "inventory.stock.stock_reduced",
             MStockEvent (stockReducedEvent d item (now s)))].
Proof.
  intros Hfind Hge alone. subst alone. split.
  - rewrite (deductStock_ledger s _ _ i d Hfind), decide_True by done.
    eapply findOne_insert_same; [done|].
    by apply findOne_lookup in Hfind as [_ ?].
  - rewrite (deductStock_sufficient_run s _ _ i d Hfind) by lia.
    match goal with
    | |- context [publishStockUpdateEvent ?ev ?s0] =>
        destruct (publishStockUpdateEvent_emits ev s0) as [_ ->]
    end.
    cbn [trace set_ledger record]. by rewrite publishCalls_app, app_nil_r.
Qed.



End Deducted.

(** ** Operations one after the other *)

Section Composition.
Import RabbitMQService InventoryService.

(** What a returned [createItem] did to the ledger. *)
Lemma createItem_ledger model samples dto s savedItem :
  (createItem model samples dto s).1 = Ok (Some savedItem) →
  ledger (createItem model samples dto s).2 = ledger s ++ [savedItem.2]
  ∧ savedItem.1 = length (ledger s).
Proof.
  rewrite createItem_run.
  destruct (match CreateInventoryDto.productCode dto with
            | Some (String c code) =>
                match InventoryRepository.findOne (String c code) (ledger s) with
                | Some _ =>
                    Throw (ConflictException "Item with this product code already exists")
                | None => Ok (Some (String c code))
                end
            | _ => (generateUniqueProductCode samples s).1
            end) as [[productCode|]|e]; [|done..].
  destruct (model (ledger s) _) as [doc|e]; [|done].
  pose proof (publishStockUpdateEvent_emits (stockAddedEvent doc (now s))
                (set_ledger (ledger s ++ [doc]) s)) as [Hl _].
  destruct (publishStockUpdateEvent _ _) as [[[]|e] s1]; [|done].
  cbn [fst snd] in *. by intros [= <-].
Qed.

Lemma findOne_app_new productCode l doc :
  InventoryRepository.findOne productCode l = None →
  Inventory.productCode doc = productCode →
  InventoryRepository.findOne productCode (l ++ [doc]) = Some (length l, doc).
Proof.
  unfold InventoryRepository.findOne. intros Hnone Hcode.
  rewrite list_find_app_r by done. cbn [list_find].
  by rewrite decide_True by done.
Qed.

(** X17.  What was created is found.  When [createItem] has returned a
    document, and no document with its product code was in the ledger
    before, then in the state it leaves behind [getItem] on that code
    returns the same document, [checkStock] reports its quantity as the
    current stock, and a second [createItem] that supplies the code is
    refused with [ConflictException] and changes nothing. *)
Theorem created_item_is_found model samples dto s savedItem :
  (createItem model samples dto s).1 = Ok (Some savedItem) →
  Inventory.productCode savedItem.2 ≠ "" →
  InventoryRepository.findOne (Inventory.productCode savedItem.2) (ledger s)
  = None →
  let productCode := Inventory.productCode savedItem.2 in
  let s' := (createItem model samples dto s).2 in
  (getItem productCode s').1 = Ok savedItem
  ∧ (∀ q, ∃ r,
       (checkStock productCode q s').1 = Ok r
       ∧ CheckResult.currentStock r = Inventory.quantity savedItem.2
       ∧ CheckResult.available r = bool_decide (Inventory.quantity savedItem.2 >= q))
  ∧ ∀ model' samples' dto',
      CreateInventoryDto.productCode dto' = Some productCode →
      createItem model' samples' dto' s'
      = (Throw (ConflictException "Item with this product code already exists"),
         s').
Proof.
  intros Hok Hne Hfree productCode s'.
  destruct (createItem_ledger _ _ _ _ _ Hok) as [Hl Hid].
  assert (InventoryRepository.findOne productCode (ledger s') = Some savedItem)
    as Hfound.
  { subst s'. rewrite Hl, (findOne_app_new productCode _ savedItem.2) by done.
    rewrite <- Hid. by destruct savedItem. }
  split; [|split].
  - unfold getItem, InventoryRepository.findItemById.
    rewrite bind_gets, Hfound. by rewrite bind_log.
  - intros q. eexists. rewrite checkStock_run. split; [reflexivity|].
    unfold stockCheckOf. rewrite Hfound. by destruct savedItem.
  - intros model' samples' dto' Hdto'. rewrite createItem_run, Hdto'.
    fold productCode in Hne. destruct productCode as [|c code]; [done|].
    by rewrite Hfound.
Qed.

Lemma created_item_is_found_witness :
  let s := Fixtures.fresh [Fixtures.mockInventoryItem] Fixtures.healthy in
  let s' := (createItem MoreFixtures.strictModel [42%N] MoreFixtures.createDto s).2 in
  (getItem "INV-000000042" s').1
  = Ok (1%nat,
        {| Inventory.productCode := "INV-000000042";
           Inventory.name := "Test Product";
           Inventory.description := "Test Description";
           Inventory.quantity := 10;
           Inventory.price := 100%Q |}).
Proof.
  intros s s'.
  assert ((createItem MoreFixtures.strictModel [42%N] MoreFixtures.createDto s).1
          = Ok (Some (1%nat,
                      {| Inventory.productCode := "INV-000000042";
                         Inventory.name := "Test Product";
                         Inventory.description := "Test Description";
                         Inventory.quantity := 10;
                         Inventory.price := 100%Q |}))) as Hr
    by (vm_compute; reflexivity).
  destruct (created_item_is_found MoreFixtures.strictModel [42%N]
              MoreFixtures.createDto s _ Hr) as [Hget _];
    [done|reflexivity|].
  exact Hget.
Defined.

End Composition.

(** ** The stock-check consumer only reads *)

Section ReadOnly.
Import RabbitMQService InventoryService Consumers.

Lemma replying_silent msg t :
  Forall (replying msg) t →
  publishCalls t = [] ∧ connectAttempts t = [] ∧ delays t = []
  ∧ cleanups t = 0%nat.
Proof.
  induction 1 as [|e t He _ IH]; [done|].
  rewrite publishCalls_cons, connectAttempts_cons, delays_cons, cleanups_cons.
  by destruct e.
Qed.

Lemma ack_transporting msg : steps transporting (emit (EAck msg)).
Proof. intros s. split; try done. by eexists [_]. Qed.

Lemma checkStock_transporting productCode q :
  steps transporting (checkStock productCode q).
Proof. intros s. apply connecting_transporting, checkStock_connecting. Qed.

Lemma onStockCheck_transporting msg : steps transporting (onStockCheck msg).
Proof.
  unfold onStockCheck. destruct msg as [msg|]; [|apply steps_ret, _].
  apply steps_tryCatch; [apply _| |intros error].
  - destruct (content msg) as [e|items]; [apply steps_throw, _|].
    apply steps_bind; [apply _| |intros stockCheckResults].
    { apply steps_promiseAll; [apply _|]. apply Forall_map, Forall_forall.
      intros item _. cbn beta.
      apply steps_bind; [apply _|apply checkStock_transporting|].
      intros result. apply steps_ret, _. }
    apply steps_bind; [apply _|apply channelPublish_transporting|intros _].
    apply ack_transporting.
  - apply steps_bind; [apply _|apply log_transporting|intros _].
    apply steps_bind; [apply _|apply channelPublish_transporting|intros _].
    apply ack_transporting.
Qed.

Lemma emit_replying msg e :
  replying msg e → steps (producing (replying msg)) (emit e).
Proof. intros He s. exists [e]. split; [done|]. by constructor. Qed.

Lemma checkStock_replying msg productCode q :
  steps (producing (replying msg)) (checkStock productCode q).
Proof.
  intros s. rewrite checkStock_run. cbn [snd].
  destruct (InventoryRepository.findOne productCode (ledger s));
    [reflexivity|]. eexists [_]. split; [done|]. by constructor.
Qed.

Lemma reply_replying msg response :
  steps (producing (replying msg))
    (channelPublish "" (replyTo msg) response (Some (correlationId msg))).
Proof.
  intros s. unfold channelPublish. destruct (channel s); [|reflexivity].
  destruct (publishOutcome (broker s) (publishes s)); cbn [snd];
    (eexists [_]; split; [done|by constructor]).
Qed.

Lemma onStockCheck_replying msg :
  steps (producing (replying msg)) (onStockCheck (Some msg)).
Proof.
  unfold onStockCheck.
  apply steps_tryCatch; [apply _| |intros error].
  - destruct (content msg) as [e|items]; [apply steps_throw, _|].
    apply steps_bind; [apply _| |intros stockCheckResults].
    { apply steps_promiseAll; [apply _|]. apply Forall_map, Forall_forall.
      intros item _. cbn beta.
      apply steps_bind; [apply _|apply checkStock_replying|].
      intros result. apply steps_ret, _. }
    apply steps_bind; [apply _|apply reply_replying|intros _].
    by apply (emit_replying msg (EAck msg)).
  - apply steps_bind; [apply _| |intros _].
    { by apply (emit_replying msg (ELog LError _)). }
    apply steps_bind; [apply _|apply reply_replying|intros _].
    by apply (emit_replying msg (EAck msg)).
Qed.

(** X19.  The stock-check consumer only reads and only answers, for every
    delivery (unreadable or a batch), every state (also with no channel
    assigned) and every behaviour of the broker.  It leaves the ledger
    as it was; it hands no stock event to the publisher; it never tries
    to connect, sleeps or closes a channel; and every message it hands
    to the channel goes to the default exchange with the delivery's
    [replyTo] and [correlationId]. *)
Theorem onStockCheck_read_only msg s :
  let s' := (onStockCheck (Some msg) s).2 in
  ledger s' = ledger s
  ∧ ∃ t,
      trace s' = trace s ++ t
      ∧ Forall (replying msg) t
      ∧ publishCalls t = []
      ∧ connectAttempts t = [] ∧ delays t = [] ∧ cleanups t = 0%nat.
Proof.
  intros s'. subst s'. split; [apply onStockCheck_transporting|].
  destruct (onStockCheck_replying msg s) as (t & Ht & Hreplies).
  exists t. split; [done|]. split; [done|]. by apply (replying_silent msg).
Qed.

End ReadOnly.
